(** * Quote resolution and valuation pipeline of asset-manager

    A shallow embedding of the TypeScript sources
    ([lib/calculations.ts], [lib/stockApi.ts], [lib/exchangeRate.ts] and the
    three revisions of [app/api/portfolio/route.ts]) together with the
    properties the specification states about them.  The development then
    goes on to further code of the same files: the helpers of
    [lib/exchangeRate.ts] and [lib/stockApi.ts], the price cache of
    [lib/googleSheets.ts] and the price-update job, with the properties
    numbered X1, X2, ... that the code itself shows.

    Number model.  A JavaScript [number] is modelled as an exact rational
    ([Q]); equalities between computed amounts are stated with [==] ([Qeq]).
    IEEE-754 rounding, [NaN] and the infinities are outside the model; the
    places where the source can produce [NaN] or [undefined] are modelled with
    [option].  Where a property turns on the rounding itself, the
    arithmetic of the valuation is modelled a second time over the binary64
    numbers of the kernel (module [Doubles]).

    String model.  A JavaScript string is a list of UTF-16 code units
    ([list N]); regular expressions are embedded as a datatype with a
    backtracking matcher in continuation-passing style, the way ECMA-262
    describes them. *)

From Stdlib Require Import Ascii String.
From Stdlib Require Import List Bool Arith NArith ZArith QArith Qabs Lia.
From Stdlib Require Import Permutation Sorted.
From Stdlib Require Floats.
Import ListNotations.

Set Implicit Arguments.

(* ------------------------------------------------------------------ *)
(** * Strings *)

Module Js.

Definition char := N.
Definition str := list char.

Fixpoint of_string (s : string) : str :=
  match s with
  | EmptyString => []
  | String a s' => N_of_ascii a :: of_string s'
  end.

Fixpoint str_eqb (a b : str) : bool :=
  match a, b with
  | [], [] => true
  | x :: a', y :: b' => N.eqb x y && str_eqb a' b'
  | _, _ => false
  end.

End Js.

Definition jsstring : Type := Js.str.
Notation "$ s" := (Js.of_string s%string) (at level 1, format "$ s").

(* ------------------------------------------------------------------ *)
(** * Regular expressions

    The fragment of ECMAScript regular expressions the sources use:
    single-character classes, concatenation, alternation, the greedy star of
    a class, one capture group, and the assertions [^] and [$] (no flags, so
    [^] is the start of the input and [$] its end). *)

Module Regex.

Import Js.

Definition cls := char -> bool.

Definition in_range (lo hi : N) : cls := fun c => (lo <=? c)%N && (c <=? hi)%N.
Definition is_char (x : N) : cls := fun c => (c =? x)%N.
Definition cls_or (p q : cls) : cls := fun c => p c || q c.
Definition cls_not (p : cls) : cls := fun c => negb (p c).

(** [\d], [[A-Za-z]], [[A-Za-z0-9]], [[0-9A-Z]], [[0-9,]]. *)
Definition digit : cls := in_range 48 57.
Definition upper : cls := in_range 65 90.
Definition lower : cls := in_range 97 122.
Definition letter : cls := cls_or upper lower.
Definition alnum : cls := cls_or letter digit.
Definition digit_or_comma : cls := cls_or digit (is_char 44).

(** [\s]: the WhiteSpace and LineTerminator code points of ECMA-262. *)
Definition space : cls := fun c =>
  in_range 9 13 c || is_char 32 c || is_char 160 c || is_char 5760 c
  || in_range 8192 8202 c || is_char 8232 c || is_char 8233 c
  || is_char 8239 c || is_char 8287 c || is_char 12288 c || is_char 65279 c.

Inductive re : Type :=
| Eps : re
| Cls : cls -> re
| Seq : re -> re -> re
| Alt : re -> re -> re
| Star : cls -> re            (* greedy [c*] of a class *)
| Group : re -> re            (* the capture group, number 1 *)
| Bol : re                    (* [^] *)
| Eol : re.                   (* [$] *)

(** Derived forms. *)
Definition Plus (p : cls) : re := Seq (Cls p) (Star p).
Definition Opt (r : re) : re := Alt r Eps.
Fixpoint Lit (s : str) : re :=
  match s with
  | [] => Eps
  | c :: s' => Seq (Cls (is_char c)) (Lit s')
  end.
Fixpoint Rep (n : nat) (p : cls) : re :=
  match n with
  | O => Eps
  | S n' => Seq (Cls p) (Rep n' p)
  end.
Fixpoint Cat (rs : list re) : re :=
  match rs with
  | [] => Eps
  | r :: rs' => Seq r (Cat rs')
  end.

(** The matcher state: the input still to read, the number of code units
    already consumed, and the text of capture group 1 ([None]: undefined). *)
Record mstate : Type := MState {
  rest : str;
  pos : nat;
  cap : option str
}.

Section Matcher.
Variable A : Type.
Definition cont := mstate -> option A.

(** Greedy repetition of a class: the longest run first, then shorter. *)
Fixpoint star (p : cls) (k : cont) (s : str) (n : nat) (c : option str)
  : option A :=
  match s with
  | x :: s' =>
      if p x then
        match star p k s' (S n) c with
        | Some a => Some a
        | None => k (MState s n c)
        end
      else k (MState s n c)
  | [] => k (MState [] n c)
  end.

Fixpoint m (r : re) (k : cont) (st : mstate) : option A :=
  match r with
  | Eps => k st
  | Cls p =>
      match rest st with
      | x :: s' => if p x then k (MState s' (S (pos st)) (cap st)) else None
      | [] => None
      end
  | Seq r1 r2 => m r1 (m r2 k) st
  | Alt r1 r2 =>
      match m r1 k st with
      | Some a => Some a
      | None => m r2 k st
      end
  | Star p => star p k (rest st) (pos st) (cap st)
  | Group r1 =>
      m r1 (fun st' =>
              k (MState (rest st') (pos st')
                   (Some (firstn (pos st' - pos st) (rest st))))) st
  | Bol => if Nat.eqb (pos st) 0 then k st else None
  | Eol => match rest st with [] => k st | _ :: _ => None end
  end.
End Matcher.

(** The result of a successful match: what [match[1]] holds. *)
Definition accept : cont (option str) := fun st => Some (cap st).

(** [search r s n]: try a match at each start index from [n] on, the
    leftmost first; the empty suffix is tried too. *)
Fixpoint search (r : re) (s : str) (n : nat) : option (option str) :=
  match m r accept (MState s n None) with
  | Some c => Some c
  | None =>
      match s with
      | [] => None
      | _ :: s' => search r s' (S n)
      end
  end.

(** [s.match(r)] without the [g] flag, reduced to its group 1;
    [r.test(s)]. *)
Definition exec (r : re) (s : str) : option (option str) := search r s 0.
Definition test (r : re) (s : str) : bool :=
  match exec r s with Some _ => true | None => false end.

End Regex.

(* ------------------------------------------------------------------ *)
(** * Numbers and maps *)

Module Num.

(** [x > y] and the truthiness of a number. *)
Definition gtb (x y : Q) : bool := negb (Qle_bool x y).
Definition truthy (x : Q) : bool := negb (Qeq_bool x 0).

(** [x || y] on numbers: [y] when [x] is [0]. *)
Definition or (x y : Q) : Q := if truthy x then x else y.

(** [o || y] where [o] may be [undefined]. *)
Definition or_undef (o : option Q) (y : Q) : Q :=
  match o with
  | Some x => or x y
  | None => y
  end.

(** [x - y] where [y] may be [NaN] ([None]); [NaN] is falsy like
    [undefined], so [or_undef] serves for it too. *)
Definition nan_sub (x : Q) (o : option Q) : option Q :=
  option_map (fun y => x - y) o.

End Num.

(** A JavaScript [Map] with string keys: the entries in insertion order.
    [set] on a present key replaces the value in place, on an absent key it
    appends. *)
Module JsMap.

Section WithValue.
Variable V : Type.

Definition t : Type := list (jsstring * V).

Definition empty : t := [].

Fixpoint get (k : jsstring) (mp : t) : option V :=
  match mp with
  | [] => None
  | (k', v) :: mp' => if Js.str_eqb k' k then Some v else get k mp'
  end.

Definition has (k : jsstring) (mp : t) : bool :=
  match get k mp with Some _ => true | None => false end.

Fixpoint set (k : jsstring) (v : V) (mp : t) : t :=
  match mp with
  | [] => [(k, v)]
  | (k', v') :: mp' =>
      if Js.str_eqb k' k then (k', v) :: mp' else (k', v') :: set k v mp'
  end.

Definition size (mp : t) : nat := length mp.
Definition keys (mp : t) : list jsstring := map fst mp.
Definition values (mp : t) : list V := map snd mp.
End WithValue.

Arguments empty {V}.

End JsMap.

(* ------------------------------------------------------------------ *)
(** * Data model ([types/index.ts]) *)

(** A holding.  The four calculated fields are optional in the source and
    absent ([None]) on a holding read from the store; the two day-change
    fields exist only on the objects the third revision of the route
    returns.  [category] and [currency] are strings at run time: the store
    casts the cells it reads without checking them.  The [broker] field the
    later revisions of the route copy along is read by none of the code
    below and is left out. *)
Record Holding : Type := mkHolding {
  id : jsstring;
  symbol : jsstring;
  name : jsstring;
  category : jsstring;
  quantity : Q;
  avgCost : Q;
  currency : jsstring;
  accountType : jsstring;
  createdAt : jsstring;
  currentPrice : option Q;
  totalValue : option Q;
  unrealizedPL : option Q;
  unrealizedPLPercent : option Q;
  dayChange : option Q;
  dayChangePercent : option Q
}.

Record PriceData : Type := mkPrice {
  price : Q;
  price_currency : jsstring
}.

Definition PriceMap : Type := JsMap.t PriceData.

Record OtherAsset : Type := mkOtherAsset {
  oa_id : jsstring;
  oa_type : jsstring;
  oa_name : jsstring;
  oa_value : Q;
  oa_currency : jsstring;
  oa_updatedAt : jsstring
}.

Inductive TransactionType : Type := buy | sell.

(** [tx_year] stands for [new Date(t.date).getFullYear()] ([None]: an
    invalid date); [tx_realizedPL] is optional in the source. *)
Record Transaction : Type := mkTransaction {
  tx_id : jsstring;
  tx_year : option Z;
  tx_symbol : jsstring;
  tx_type : TransactionType;
  tx_realizedPL : option Q;
  tx_currency : jsstring
}.

Record Dividend : Type := mkDividend {
  dv_id : jsstring;
  dv_year : option Z;
  dv_symbol : jsstring;
  dv_amount : Q;
  dv_currency : jsstring
}.

Record PortfolioSummary : Type := mkSummary {
  ps_totalValue : Q;
  ps_totalValueJPY : Q;
  ps_previousDayValue : Q;
  ps_dayChange : Q;
  ps_dayChangePercent : Q;
  ps_totalUnrealizedPL : Q;
  ps_totalUnrealizedPLPercent : Q;
  ps_yearRealizedPL : Q;
  ps_yearDividends : Q
}.

Record CategorySummary : Type := mkCategory {
  cs_category : jsstring;
  cs_label : jsstring;
  cs_value : Q;
  cs_valueJPY : Q;
  cs_percentage : Q;
  cs_color : jsstring
}.

(* ------------------------------------------------------------------ *)
(** * The exchange-rate helpers the calculations use ([exchangeRate.ts]) *)

Definition convertUsdToJpy (usdAmount rate : Q) : Q := usdAmount * rate.

(** [currency === 'USD' ? convertUsdToJpy(v, rate) : v] *)
Definition toJPY (cur : jsstring) (v rate : Q) : Q :=
  if Js.str_eqb cur $"USD" then convertUsdToJpy v rate else v.

(* ------------------------------------------------------------------ *)
(** * Valuation Engine ([lib/calculations.ts]) *)

Module Calculations.

(** [CATEGORY_CONFIG], a plain object used as a table from category to
    label and colour; the properties an object inherits from its prototype
    are outside the model. *)
Definition CATEGORY_CONFIG : list (jsstring * (jsstring * jsstring)) :=
  [ ($"domestic_stock", ([22269; 20869; 26666; 24335]%N, $"#6366f1"));
    ($"us_stock", ([31859; 22269; 26666; 24335]%N, $"#22c55e"));
    ($"mutual_fund", ([25237; 36039; 20449; 35351]%N, $"#f59e0b"));
    ($"cash", ([38928; 37329; 12539; 29694; 37329]%N, $"#3b82f6"));
    ($"bond", ([20661; 21048]%N, $"#8b5cf6"));
    ($"real_estate", ([19981; 21205; 29987]%N, $"#ec4899"));
    ($"crypto", ([26263; 21495; 36039; 29987]%N, $"#f97316"));
    ($"insurance", ([20445; 38522]%N, $"#14b8a6"));
    ($"pension", ([24180; 37329]%N, $"#64748b")) ].

(** [priceData?.price || holding.avgCost] *)
Definition priceOrCost (prices : PriceMap) (h : Holding) : Q :=
  Num.or_undef (option_map price (JsMap.get (symbol h) prices)) (avgCost h).

(** The object the callback of [holdings.map] returns in
    [calculateHoldingsValue]. *)
Definition enrich (prices : PriceMap) (h : Holding) : Holding :=
  let currentPrice := priceOrCost prices h in
  let totalValue := currentPrice * quantity h in
  let costBasis := avgCost h * quantity h in
  let unrealizedPL := totalValue - costBasis in
  let unrealizedPLPercent :=
    if Num.gtb costBasis 0 then (unrealizedPL / costBasis) * 100 else 0 in
  mkHolding (id h) (symbol h) (name h) (category h) (quantity h) (avgCost h)
    (currency h) (accountType h) (createdAt h)
    (Some currentPrice) (Some totalValue) (Some unrealizedPL)
    (Some unrealizedPLPercent) (dayChange h) (dayChangePercent h).

(** What the callback adds to [totalJPY]. *)
Definition holdingValueJPY (prices : PriceMap) (usdJpyRate : Q) (h : Holding)
  : Q :=
  toJPY (currency h) (priceOrCost prices h * quantity h) usdJpyRate.

(** [holdings.map] with the running [totalJPY] threaded through. *)
Fixpoint calculateHoldingsValue_from (totalJPY : Q) (holdings : list Holding)
  (prices : PriceMap) (usdJpyRate : Q) : list Holding * Q :=
  match holdings with
  | [] => ([], totalJPY)
  | h :: rest =>
      let totalJPY' := totalJPY + holdingValueJPY prices usdJpyRate h in
      let (hs, total) :=
        calculateHoldingsValue_from totalJPY' rest prices usdJpyRate in
      (enrich prices h :: hs, total)
  end.

Definition calculateHoldingsValue (holdings : list Holding) (prices : PriceMap)
  (usdJpyRate : Q) : list Holding * Q :=
  calculateHoldingsValue_from 0 holdings prices usdJpyRate.

Definition calculateOtherAssetsValue (assets : list OtherAsset)
  (usdJpyRate : Q) : Q :=
  fold_left
    (fun total a => total + toJPY (oa_currency a) (oa_value a) usdJpyRate)
    assets 0.

Definition year_is (y : option Z) (year : Z) : bool :=
  match y with Some v => Z.eqb v year | None => false end.

Definition calculateYearRealizedPL (transactions : list Transaction)
  (year : Z) (usdJpyRate : Q) : Q :=
  let yearTransactions :=
    filter (fun t => year_is (tx_year t) year
                     && match tx_type t with sell => true | buy => false end)
      transactions in
  fold_left
    (fun total t =>
       total + toJPY (tx_currency t) (Num.or_undef (tx_realizedPL t) 0)
                 usdJpyRate)
    yearTransactions 0.

Definition calculateYearDividends (dividends : list Dividend) (year : Z)
  (usdJpyRate : Q) : Q :=
  let yearDividends := filter (fun d => year_is (dv_year d) year) dividends in
  fold_left
    (fun total d => total + toJPY (dv_currency d) (dv_amount d) usdJpyRate)
    yearDividends 0.

(** [categoryTotals.set(c, (categoryTotals.get(c) || 0) + v)] *)
Definition addToCategory (c : jsstring) (v : Q) (totals : JsMap.t Q)
  : JsMap.t Q :=
  JsMap.set c (Num.or_undef (JsMap.get c totals) 0 + v) totals.

Definition categoryTotals (holdings : list Holding)
  (otherAssets : list OtherAsset) (prices : PriceMap) (usdJpyRate : Q)
  : JsMap.t Q :=
  let afterHoldings :=
    fold_left
      (fun totals h =>
         addToCategory (category h) (holdingValueJPY prices usdJpyRate h)
           totals)
      holdings JsMap.empty in
  fold_left
    (fun totals a =>
       addToCategory (oa_type a)
         (toJPY (oa_currency a) (oa_value a) usdJpyRate) totals)
    otherAssets afterHoldings.

(** [Array.from(categoryTotals.values()).reduce((a, b) => a + b, 0)] *)
Definition grandTotalOf (totals : JsMap.t Q) : Q :=
  fold_left Qplus (JsMap.values totals) 0.

(** [CATEGORY_CONFIG[category] || { label: category, color: '#888' }] *)
Definition configOf (c : jsstring) : jsstring * jsstring :=
  match JsMap.get c CATEGORY_CONFIG with
  | Some cfg => cfg
  | None => (c, $"#888")
  end.

Definition summarize (grandTotal : Q) (entry : jsstring * Q)
  : CategorySummary :=
  let (c, value) := entry in
  mkCategory c (fst (configOf c)) value value
    (if Num.gtb grandTotal 0 then (value / grandTotal) * 100 else 0)
    (snd (configOf c)).

(** [summaries.sort((a, b) => b.value - a.value)]: [Array.prototype.sort] is
    stable, so an element goes behind every earlier element whose value is
    not smaller. *)
Fixpoint insertByValue (x : CategorySummary) (l : list CategorySummary)
  : list CategorySummary :=
  match l with
  | [] => [x]
  | y :: l' =>
      if Qle_bool (cs_value x) (cs_value y) then y :: insertByValue x l'
      else x :: l
  end.

Definition sortByValueDesc (l : list CategorySummary) : list CategorySummary :=
  fold_left (fun sorted x => insertByValue x sorted) l [].

Definition generateCategorySummary (holdings : list Holding)
  (otherAssets : list OtherAsset) (prices : PriceMap) (usdJpyRate : Q)
  : list CategorySummary :=
  let totals := categoryTotals holdings otherAssets prices usdJpyRate in
  let grandTotal := grandTotalOf totals in
  sortByValueDesc (map (summarize grandTotal) totals).

(** [generatePortfolioSummary]; [currentYear] stands for
    [new Date().getFullYear()]. *)
Definition generatePortfolioSummary (currentYear : Z)
  (holdings : list Holding) (otherAssets : list OtherAsset)
  (transactions : list Transaction) (dividends : list Dividend)
  (prices previousPrices : PriceMap) (usdJpyRate : Q) : PortfolioSummary :=
  let (enrichedHoldings, holdingsTotal) :=
    calculateHoldingsValue holdings prices usdJpyRate in
  let otherAssetsTotal := calculateOtherAssetsValue otherAssets usdJpyRate in
  let totalValue := holdingsTotal + otherAssetsTotal in
  let previousHoldingsTotal :=
    snd (calculateHoldingsValue holdings previousPrices usdJpyRate) in
  let previousDayValue := previousHoldingsTotal + otherAssetsTotal in
  let dayChange := totalValue - previousDayValue in
  let dayChangePercent :=
    if Num.gtb previousDayValue 0 then (dayChange / previousDayValue) * 100
    else 0 in
  let totalCostBasis :=
    fold_left
      (fun sum h => sum + toJPY (currency h) (avgCost h * quantity h)
                            usdJpyRate)
      enrichedHoldings 0 in
  let totalUnrealizedPL := holdingsTotal - totalCostBasis in
  let totalUnrealizedPLPercent :=
    if Num.gtb totalCostBasis 0 then (totalUnrealizedPL / totalCostBasis) * 100
    else 0 in
  let yearRealizedPL :=
    calculateYearRealizedPL transactions currentYear usdJpyRate in
  let yearDividends :=
    calculateYearDividends dividends currentYear usdJpyRate in
  mkSummary totalValue totalValue previousDayValue dayChange dayChangePercent
    totalUnrealizedPL totalUnrealizedPLPercent yearRealizedPL yearDividends.

End Calculations.

(* ------------------------------------------------------------------ *)
(** * The outside world

    What the network and the store answer is a parameter of the model.  An
    HTTP exchange either fails before a response arrives ([NetworkError]: the
    [fetch] promise rejects), or answers with a non-success status
    ([NotOk]), or answers with a body ([Body]). *)

Inductive Http (A : Type) : Type :=
| NetworkError : Http A
| NotOk : Http A
| Body : A -> Http A.

Arguments NetworkError {A}.
Arguments NotOk {A}.
Arguments Body {A} _.

(** A call into the store returns or throws; a thrown value is an [Error]
    with a message or something else. *)
Inductive Thrown : Type :=
| ErrorWith : jsstring -> Thrown
| NotAnError : Thrown.

Inductive Outcome (A : Type) : Type :=
| Returns : A -> Outcome A
| Throws : Thrown -> Outcome A.

Arguments Returns {A} _.
Arguments Throws {A} _.

(* ------------------------------------------------------------------ *)
(** * Exchange-Rate Resolver ([lib/exchangeRate.ts]) *)

Module ExchangeRate.

Record ExchangeRateData : Type := mkRate {
  rate : Q;
  date : jsstring;
  source : jsstring
}.

(** The body of a provider's answer.  [Malformed]: [response.json()] rejects
    or the value is not an object, so reading it throws.  Otherwise the
    fields the code reads: [data.success] (truthiness), [data.rates?.JPY]
    ([None]: [rates] or its [JPY] field is missing) and [data.date]. *)
Inductive RateBody : Type :=
| Malformed : RateBody
| Payload (success : bool) (rates_JPY : option Q) (date : jsstring).

(** [fetchFromAlternativeApi] *)
Definition fetchFromAlternativeApi (secondary : Http RateBody)
  : option ExchangeRateData :=
  match secondary with
  | NetworkError => None
  | NotOk => None
  | Body Malformed => None
  | Body (Payload _ (Some jpy) d) =>
      if Num.truthy jpy then Some (mkRate jpy d $"frankfurter.app") else None
  | Body (Payload _ None _) => None
  end.

(** [fetchUsdJpyRate] *)
Definition fetchUsdJpyRate (primary secondary : Http RateBody)
  : option ExchangeRateData :=
  match primary with
  | NetworkError => fetchFromAlternativeApi secondary
  | NotOk => fetchFromAlternativeApi secondary
  | Body Malformed => fetchFromAlternativeApi secondary
  | Body (Payload success (Some jpy) d) =>
      if success && Num.truthy jpy
      then Some (mkRate jpy d $"exchangerate.host")
      else fetchFromAlternativeApi secondary
  | Body (Payload _ None _) => fetchFromAlternativeApi secondary
  end.

(** Step 3 of the portfolio route: the rate and its source tag. *)
Definition resolveRate (primary secondary : Http RateBody) : Q * jsstring :=
  match fetchUsdJpyRate primary secondary with
  | Some rateData => (rate rateData, source rateData)
  | None => (150, $"default")
  end.

(** The failures of a provider the specification names, and the two the
    code adds: a falsy [success] flag (primary only) and a rate of [0]. *)
Inductive PrimaryFails : Http RateBody -> Prop :=
| pf_network : PrimaryFails NetworkError
| pf_status : PrimaryFails NotOk
| pf_malformed : PrimaryFails (Body Malformed)
| pf_missing : forall s d, PrimaryFails (Body (Payload s None d))
| pf_unsuccessful : forall r d, PrimaryFails (Body (Payload false r d))
| pf_zero : forall s r d, r == 0 -> PrimaryFails (Body (Payload s (Some r) d)).

Inductive SecondaryFails : Http RateBody -> Prop :=
| sf_network : SecondaryFails NetworkError
| sf_status : SecondaryFails NotOk
| sf_malformed : SecondaryFails (Body Malformed)
| sf_missing : forall s d, SecondaryFails (Body (Payload s None d))
| sf_zero : forall s r d, r == 0 -> SecondaryFails (Body (Payload s (Some r) d)).

End ExchangeRate.

(* ------------------------------------------------------------------ *)
(** * Quote Fetcher and NAV Extractor ([lib/stockApi.ts]) *)

Module StockApi.

Import Js Regex.

Record StockQuote : Type := mkQuote {
  sq_symbol : jsstring;
  sq_name : jsstring;
  sq_price : Q;
  sq_previousClose : option Q;      (* [None]: NaN *)
  sq_change : option Q;             (* [None]: NaN *)
  sq_changePercent : Q;
  sq_currency : jsstring
}.

(** ** The equity path *)

(** What [fetchStockPriceV8] reads of [data.chart.result[0]]: the fields of
    [meta] and the [close] series (an entry may be [null]). *)
Record Chart : Type := mkChart {
  regularMarketPrice : option Q;
  meta_previousClose : option Q;
  closes : list (option Q);
  shortName : option jsstring;
  longName : option jsstring;
  meta_currency : option jsstring
}.

(** [NoResult]: [data.chart?.result?.[0]] is missing; [BadChart]: reading the
    body throws. *)
Inductive ChartBody : Type :=
| BadChart : ChartBody
| NoResult : ChartBody
| Result : Chart -> ChartBody.

(** [closes[closes.length - k]] for [k] = 1, 2, flattened with [null]. *)
Definition closeFromEnd (k : nat) (cl : list (option Q)) : option Q :=
  if Nat.ltb (length cl) k then None
  else match nth_error cl (length cl - k) with
       | Some o => o
       | None => None
       end.

(** [a || b] on strings that may be missing: the empty string is falsy. *)
Definition str_or (a : option jsstring) (b : jsstring) : jsstring :=
  match a with
  | Some (c :: s) => c :: s
  | _ => b
  end.

Definition fetchStockPriceV8 (answer : Http ChartBody) (symbol : jsstring)
  : option StockQuote :=
  match answer with
  | NetworkError => None
  | NotOk => None
  | Body BadChart => None
  | Body NoResult => None
  | Body (Result c) =>
      let price :=
        Num.or_undef (regularMarketPrice c)
          (Num.or_undef (closeFromEnd 1 (closes c)) 0) in
      let previousClose :=
        Num.or_undef (meta_previousClose c)
          (Num.or_undef (closeFromEnd 2 (closes c)) price) in
      let change := price - previousClose in
      let changePercent :=
        if Num.gtb previousClose 0 then (change / previousClose) * 100
        else 0 in
      Some (mkQuote symbol
              (str_or (shortName c) (str_or (longName c) symbol))
              price (Some previousClose) (Some change) changePercent
              (match meta_currency c with
               | Some cur => if str_eqb cur $"JPY" then $"JPY" else $"USD"
               | None => $"USD"
               end))
  end.

(** ** The NAV Extractor *)

Definition quote : char := 34%N.
Definition kijunKagaku : str := [22522; 28310; 20385; 38989]%N. (* 基準価額 *)
Definition yen : str := [20870]%N.                              (* 円 *)
Definition zenjitsuhi : str := [21069; 26085; 27604]%N.         (* 前日比 *)
Definition leftBracket : char := 12304%N.                       (* 【 *)

(** Pattern 1: [/class="[^"]*StyledNumber[^"]*"[^>]*>([0-9,]+)<\/span>/] *)
Definition priceMatch_re : re :=
  Cat [ Lit ($"class=" ++ [quote]); Star (cls_not (is_char quote));
        Lit $"StyledNumber"; Star (cls_not (is_char quote)); Lit [quote];
        Star (cls_not (is_char 62)); Lit $">";
        Group (Plus digit_or_comma); Lit $"</span>" ].

(** Pattern 2: [/<span[^>]*>([0-9,]+)<\/span>\s*円/] *)
Definition priceMatch2_re : re :=
  Cat [ Lit $"<span"; Star (cls_not (is_char 62)); Lit $">";
        Group (Plus digit_or_comma); Lit $"</span>"; Star space; Lit yen ].

(** Pattern 3: [/基準価額[^0-9]*([0-9,]+)\s*円/] *)
Definition priceMatch3_re : re :=
  Cat [ Lit kijunKagaku; Star (cls_not digit);
        Group (Plus digit_or_comma); Star space; Lit yen ].

(** Pattern 4: [/content="[^"]*基準価額\s*([0-9,]+)/] *)
Definition ogMatch_re : re :=
  Cat [ Lit ($"content=" ++ [quote]); Star (cls_not (is_char quote));
        Lit kijunKagaku; Star space; Group (Plus digit_or_comma) ].

(** Pattern 5: [/data-(?:price|value)="([0-9,]+)"/] *)
Definition dataMatch_re : re :=
  Cat [ Lit $"data-"; Alt (Lit $"price") (Lit $"value");
        Lit ($"=" ++ [quote]); Group (Plus digit_or_comma); Lit [quote] ].

(** [/<title>([^【]+)/] and [/前日比[^0-9+-]*([+-]?[0-9,]+)/] *)
Definition nameMatch_re : re :=
  Cat [ Lit $"<title>"; Group (Plus (cls_not (is_char leftBracket))) ].
Definition changeMatch_re : re :=
  Cat [ Lit zenjitsuhi;
        Star (cls_not (cls_or digit (cls_or (is_char 43) (is_char 45))));
        Group (Seq (Opt (Cls (cls_or (is_char 43) (is_char 45))))
                 (Plus digit_or_comma)) ].

(** [s.replace(/,/g, '')] *)
Definition stripCommas (s : str) : str :=
  filter (fun c => negb (is_char 44 c)) s.

(** The value of the leading run of decimal digits; [None] (NaN) when the
    run is empty. *)
Fixpoint digitsValue (acc : option N) (s : str) : option N :=
  match s with
  | c :: s' =>
      if digit c then
        digitsValue
          (Some (10 * match acc with Some a => a | None => 0 end + (c - 48))%N)
          s'
      else acc
  | [] => acc
  end.

Definition QofN (n : N) : Q := inject_Z (Z.of_N n).

(** [parseFloat] on the only inputs its callers pass: an optional sign and
    decimal digits. *)
Definition parseFloat (s : str) : option Q :=
  match s with
  | 43%N :: s' => option_map QofN (digitsValue None s')
  | 45%N :: s' => option_map (fun n => - QofN n) (digitsValue None s')
  | _ => option_map QofN (digitsValue None s)
  end.

(** The loop over the five matches, [price] being the variable it assigns
    before [break]. *)
Fixpoint firstPositive (price : Q) (matches : list (option (option str)))
  : Q :=
  match matches with
  | [] => price
  | Some (Some (c :: g)) :: rest =>
      match parseFloat (stripCommas (c :: g)) with
      | Some extracted =>
          if Num.gtb extracted 0 then extracted else firstPositive price rest
      | None => firstPositive price rest
      end
  | _ :: rest => firstPositive price rest
  end.

Definition navPatterns : list re :=
  [priceMatch_re; priceMatch2_re; priceMatch3_re; ogMatch_re; dataMatch_re].

(** Lines 141-165 of [fetchMutualFundNAV]: the price, or [None] where the
    function returns [null]. *)
Definition extractNAV (html : str) : option Q :=
  let price := firstPositive 0 (map (fun r => exec r html) navPatterns) in
  if Qeq_bool price 0 then None else Some price.

(** [String.prototype.trim] *)
Fixpoint trimStart (s : str) : str :=
  match s with
  | c :: s' => if space c then trimStart s' else s
  | [] => []
  end.
Definition trim (s : str) : str := rev (trimStart (rev (trimStart s))).

Definition fetchMutualFundNAV (answer : Http str) (fundCode : jsstring)
  : option StockQuote :=
  match answer with
  | NetworkError => None
  | NotOk => None
  | Body html =>
      match extractNAV html with
      | None => None
      | Some price =>
          let name :=
            match exec nameMatch_re html with
            | Some (Some g) => trim g
            | _ => fundCode
            end in
          let change :=
            match exec changeMatch_re html with
            | Some (Some g) => parseFloat (stripCommas g)
            | _ => Some 0
            end in
          let previousClose := Num.nan_sub price change in
          let changePercent :=
            match change, previousClose with
            | Some ch, Some pc =>
                if Num.gtb pc 0 then (ch / pc) * 100 else 0
            | _, _ => 0
            end in
          Some (mkQuote fundCode name price previousClose change changePercent
                  $"JPY")
      end
  end.

(** ** Routing and batching *)

(** [/^[A-Za-z0-9]{8,}$/] and [/[A-Za-z]/] *)
Definition re_fund_shape : re := Cat [Bol; Rep 8 alnum; Star alnum; Eol].
Definition re_has_letter : re := Cls letter.

Definition isMutualFundCode (symbol : jsstring) : bool :=
  test re_fund_shape symbol && test re_has_letter symbol.

(** [for (i = 0; i < l.length; i += batchSize) l.slice(i, i + batchSize)] *)
Fixpoint batches_fuel (fuel batchSize : nat) (l : list jsstring)
  : list (list jsstring) :=
  match fuel, l with
  | S fuel', _ :: _ =>
      firstn batchSize l :: batches_fuel fuel' batchSize (skipn batchSize l)
  | _, _ => []
  end.
Definition batches (batchSize : nat) (l : list jsstring)
  : list (list jsstring) := batches_fuel (length l) batchSize l.

(** The network as the quote fetcher sees it. *)
Record Providers : Type := mkProviders {
  chartOf : jsstring -> Http ChartBody;
  fundPageOf : jsstring -> Http str
}.

(** One batch: the fetches, then [results.set(result.symbol, result)] for
    every result that is not [null]. *)
Definition fetchBatch (fetch : jsstring -> option StockQuote)
  (results : JsMap.t StockQuote) (batch : list jsstring)
  : JsMap.t StockQuote :=
  fold_left
    (fun res result =>
       match result with
       | Some q => JsMap.set (sq_symbol q) q res
       | None => res
       end)
    (map fetch batch) results.

Definition batchSize : nat := 5.

(** [symbols.filter(s => isMutualFundCode(s))] and its complement. *)
Definition mutualFundsOf (symbols : list jsstring) : list jsstring :=
  filter isMutualFundCode symbols.
Definition stocksOf (symbols : list jsstring) : list jsstring :=
  filter (fun s => negb (isMutualFundCode s)) symbols.

Definition fetchMultipleStockPrices (net : Providers) (symbols : list jsstring)
  : JsMap.t StockQuote :=
  let mutualFunds := mutualFundsOf symbols in
  let stocks := stocksOf symbols in
  let afterStocks :=
    fold_left
      (fetchBatch (fun s => fetchStockPriceV8 (chartOf net s) s))
      (batches batchSize stocks) JsMap.empty in
  fold_left
    (fetchBatch (fun c => fetchMutualFundNAV (fundPageOf net c) c))
    (batches batchSize mutualFunds) afterStocks.

End StockApi.

(* ------------------------------------------------------------------ *)
(** * Degradation Controller ([app/api/portfolio/route.ts])

    Three revisions of the route are in the repository: [V1] (the first,
    with an estimated previous close), [V2] (symbol normalisation, fund
    codes, per-holding patching) and [V3] (per-holding day change). *)

Module Route.

Import Js Calculations.

(** The JSON object handed to [NextResponse.json]; a field the object does
    not have is [None].  [updatedAt], the clock, is left out. *)
Record Response : Type := mkResponse {
  status : nat;
  error : option jsstring;
  holdings : list Holding;
  summary : option PortfolioSummary;
  categories : list CategorySummary;
  exchangeRate : Q;
  exchangeRateSource : option jsstring;
  priceSource : option jsstring;
  totalValueJPY : option Q;
  source : jsstring
}.

Record World : Type := mkWorld {
  getHoldings : Outcome (list Holding);
  getLatestPrices : Outcome PriceMap;
  net : StockApi.Providers;
  primaryRate : Http ExchangeRate.RateBody;
  secondaryRate : Http ExchangeRate.RateBody;
  currentYear : Z
}.

(** [error instanceof Error ? error.message : 'Unknown error'] *)
Definition messageOf (e : Thrown) : jsstring :=
  match e with
  | ErrorWith msg => msg
  | NotAnError => $"Unknown error"
  end.

Definition emptyResponse : Response :=
  mkResponse 200 None [] None [] 150 None None None $"empty".

Definition errorResponse (e : Thrown) : Response :=
  mkResponse 500 (Some (messageOf e)) [] None [] 150 None None None $"error".

(** [rawHoldings.map(h => ({ id: h.id, ..., createdAt: h.createdAt }))]: the
    nine stored fields and nothing else. *)
Definition toHolding (h : Holding) : Holding :=
  mkHolding (id h) (symbol h) (name h) (category h) (quantity h) (avgCost h)
    (currency h) (accountType h) (createdAt h) None None None None None None.

Definition costBasisPrice (h : Holding) : PriceData :=
  mkPrice (avgCost h) (currency h).

(** [holdings.forEach(h => prices.set(h.symbol, { price: h.avgCost, ... }))] *)
Definition setCostBasis (hs : list Holding) (prices : PriceMap) : PriceMap :=
  fold_left (fun p h => JsMap.set (symbol h) (costBasisPrice h) p) hs prices.

(** Step 8 of the first two revisions. *)
Definition withPrices (prices : PriceMap) (h : Holding) : Holding :=
  let p := priceOrCost prices h in
  mkHolding (id h) (symbol h) (name h) (category h) (quantity h) (avgCost h)
    (currency h) (accountType h) (createdAt h)
    (Some p) (Some (p * quantity h)) (Some ((p - avgCost h) * quantity h))
    (Some (if Num.gtb (avgCost h) 0
           then ((p - avgCost h) / avgCost h) * 100 else 0))
    (dayChange h) (dayChangePercent h).

(** What steps 3 to 8 build once the quote map is settled; [previousPrices]
    is step 6, [step8] is step 8. *)
Definition snapshot (w : World) (hs : list Holding) (prices : PriceMap)
  (priceSrc : jsstring) (previousPrices : PriceMap)
  (step8 : Holding -> Holding) (transactions : list Transaction)
  : Response :=
  let (usdJpyRate, exchangeRateSrc) :=
    ExchangeRate.resolveRate (primaryRate w) (secondaryRate w) in
  let (enrichedHoldings, totalJPY) :=
    calculateHoldingsValue hs prices usdJpyRate in
  let cats := generateCategorySummary hs [] prices usdJpyRate in
  let summ :=
    generatePortfolioSummary (currentYear w) hs [] transactions [] prices
      previousPrices usdJpyRate in
  mkResponse 200 None (map step8 enrichedHoldings) (Some summ) cats usdJpyRate
    (Some exchangeRateSrc) (Some priceSrc) (Some totalJPY) $"live".

(** ** First revision *)
Module V1.

(** Step 2.  [fetchMultipleStockPrices] catches every failure of its
    fetches, so the [catch] of this step, with its two fallbacks, is never
    entered. *)
Definition resolvePrices (w : World) (hs : list Holding)
  : PriceMap * jsstring :=
  let stockQuotes :=
    StockApi.fetchMultipleStockPrices (net w) (map symbol hs) in
  (fold_left
     (fun p (e : jsstring * StockApi.StockQuote) =>
        JsMap.set (fst e)
          (mkPrice (StockApi.sq_price (snd e))
             (StockApi.sq_currency (snd e))) p)
     stockQuotes JsMap.empty,
   $"yahoo_finance").

(** Step 6: [price * 0.998]. *)
Definition previousPrices (prices : PriceMap) : PriceMap :=
  fold_left
    (fun pp (e : jsstring * PriceData) =>
       JsMap.set (fst e)
         (mkPrice (price (snd e) * (998 # 1000)) (price_currency (snd e)))
         pp)
    prices JsMap.empty.

Definition GET (w : World) : Response :=
  match getHoldings w with
  | Throws e => errorResponse e
  | Returns [] => emptyResponse
  | Returns rawHoldings =>
      let hs := map toHolding rawHoldings in
      let (prices, priceSrc) := resolvePrices w hs in
      snapshot w hs prices priceSrc (previousPrices prices)
        (withPrices prices) []
  end.

End V1.

(** ** Second revision *)
Module V2.

(** Holding symbol to fund code; several symbols may share a code. *)
Definition FUND_CODE_MAP : list (jsstring * jsstring) :=
  [ ($"capital-world", $"9331107A");
    ($"ghq-dist", $"47316169");
    ($"ghq-reinv", $"47316169");
    ($"trowe-allcap", $"AW31122B");
    ($"capital-ica", $"93311181");
    ($"pictet-gold", $"42312199");
    ($"ifree-fang", $"04311181");
    ($"emaxis-ac-general", $"0331418A");
    ($"emaxis-ac-nisa", $"0331418A") ].

(** [/^(\d{4}[A-Za-z]?\.T)/] *)
Definition re_tokyo : Regex.re :=
  Regex.Seq Regex.Bol
    (Regex.Group
       (Regex.Cat [ Regex.Rep 4 Regex.digit;
                    Regex.Opt (Regex.Cls Regex.letter);
                    Regex.Lit $".T" ])).

(** [match ? match[1] : symbol].  Group 1 takes part in every match of
    [re_tokyo], so the [Some None] case does not arise. *)
Definition normalizeSymbolForPriceLookup (symbol : jsstring) : jsstring :=
  match Regex.exec re_tokyo symbol with
  | Some (Some g) => g
  | Some None => symbol
  | None => symbol
  end.

Definition isFund (h : Holding) : bool :=
  str_eqb (category h) $"mutual_fund".

(** [[...new Set(l)]]: the first occurrence of each string, in order. *)
Fixpoint unique_from (seen : list jsstring) (l : list jsstring)
  : list jsstring :=
  match l with
  | [] => []
  | x :: l' =>
      if existsb (str_eqb x) seen then unique_from seen l'
      else x :: unique_from (x :: seen) l'
  end.
Definition unique (l : list jsstring) : list jsstring := unique_from [] l.

(** The two maps step 2 fills: the quotes and the previous closes (a
    previous close may be NaN, [None]). *)
Definition Quotes : Type := (PriceMap * JsMap.t (option Q))%type.

Definition setQuote (sym : jsstring) (q : StockApi.StockQuote) (cur : jsstring)
  (qs : Quotes) : Quotes :=
  (JsMap.set sym (mkPrice (StockApi.sq_price q) cur) (fst qs),
   JsMap.set sym (StockApi.sq_previousClose q) (snd qs)).

(** Step 2a. *)
Definition stockQuotesInto (w : World) (stockHoldings : list Holding)
  (qs : Quotes) : Quotes :=
  match stockHoldings with
  | [] => qs
  | _ :: _ =>
      let symbolToNormalized :=
        fold_left
          (fun mp h =>
             JsMap.set (symbol h) (normalizeSymbolForPriceLookup (symbol h))
               mp)
          stockHoldings JsMap.empty in
      let uniqueNormalizedSymbols :=
        unique (JsMap.values symbolToNormalized) in
      let stockQuotes :=
        StockApi.fetchMultipleStockPrices (net w) uniqueNormalizedSymbols in
      fold_left
        (fun acc h =>
           match JsMap.get (symbol h) symbolToNormalized with
           | Some normalized =>
               match JsMap.get normalized stockQuotes with
               | Some q => setQuote (symbol h) q (StockApi.sq_currency q) acc
               | None => acc
               end
           | None => acc
           end)
        stockHoldings qs
  end.

(** Step 2b, first loop: fund code to the symbols that use it. *)
Definition uniqueFundCodes (mutualFundHoldings : list Holding)
  : JsMap.t (list jsstring) :=
  fold_left
    (fun mp h =>
       match JsMap.get (symbol h) FUND_CODE_MAP with
       | Some fundCode =>
           let symbols :=
             match JsMap.get fundCode mp with
             | Some l => l
             | None => []
             end in
           JsMap.set fundCode (symbols ++ [symbol h]) mp
       | None => mp
       end)
    mutualFundHoldings JsMap.empty.

(** Step 2b, second loop: one fetch per fund code. *)
Definition fundQuotesInto (w : World) (mutualFundHoldings : list Holding)
  (qs : Quotes) : Quotes :=
  match mutualFundHoldings with
  | [] => qs
  | _ :: _ =>
      fold_left
        (fun acc (e : jsstring * list jsstring) =>
           let (fundCode, holdingSymbols) := e in
           match StockApi.fetchMutualFundNAV
                   (StockApi.fundPageOf (net w) fundCode) fundCode with
           | Some navData =>
               fold_left (fun a sym => setQuote sym navData $"JPY" a)
                 holdingSymbols acc
           | None => acc
           end)
        (uniqueFundCodes mutualFundHoldings) qs
  end.

(** [for (const h of holdings) if (!prices.has(h.symbol)) prices.set(...)] *)
Definition patchMissing (hs : list Holding) (prices : PriceMap) : PriceMap :=
  fold_left
    (fun p h =>
       if JsMap.has (symbol h) p then p
       else JsMap.set (symbol h) (costBasisPrice h) p)
    hs prices.

(** The end of step 2, the same in the second and the third revision, given
    what the live fetches left in the two maps: no quote at all throws into
    the [catch], which tries the cache and then the cost basis; otherwise
    the holdings without a quote are patched. *)
Definition settleTiers (w : World) (hs : list Holding) (qs : Quotes)
  : Quotes * jsstring :=
  if Nat.eqb (JsMap.size (fst qs)) 0 then
    match getLatestPrices w with
    | Returns cached => ((cached, snd qs), $"google_sheets_cache")
    | Throws _ => ((setCostBasis hs (fst qs), snd qs), $"avg_cost_fallback")
    end
  else ((patchMissing hs (fst qs), snd qs), $"yahoo_finance").

(** Step 2: the quote map, the previous closes and [priceSource]. *)
Definition resolvePrices (w : World) (hs : list Holding)
  : Quotes * jsstring :=
  let mutualFundHoldings := filter isFund hs in
  let stockHoldings := filter (fun h => negb (isFund h)) hs in
  settleTiers w hs
    (fundQuotesInto w mutualFundHoldings
       (stockQuotesInto w stockHoldings (JsMap.empty, JsMap.empty))).

(** [previousCloseMap.get(symbol)], NaN flattened with [undefined]: both
    are falsy. *)
Definition previousCloseOf (previousCloseMap : JsMap.t (option Q))
  (sym : jsstring) : option Q :=
  match JsMap.get sym previousCloseMap with
  | Some o => o
  | None => None
  end.

(** Step 6: [prevClose || priceData.price]. *)
Definition previousPrices (prices : PriceMap)
  (previousCloseMap : JsMap.t (option Q)) : PriceMap :=
  fold_left
    (fun pp (e : jsstring * PriceData) =>
       JsMap.set (fst e)
         (mkPrice
            (Num.or_undef (previousCloseOf previousCloseMap (fst e))
               (price (snd e)))
            (price_currency (snd e)))
         pp)
    prices JsMap.empty.

Definition GET (w : World) : Response :=
  match getHoldings w with
  | Throws e => errorResponse e
  | Returns [] => emptyResponse
  | Returns rawHoldings =>
      let hs := map toHolding rawHoldings in
      let (qs, priceSrc) := resolvePrices w hs in
      snapshot w hs (fst qs) priceSrc (previousPrices (fst qs) (snd qs))
        (withPrices (fst qs)) []
  end.

End V2.

(** ** Third revision: steps 6 and 8 *)
Module V3.

Definition previousPrices := V2.previousPrices.

(** Step 8, with the per-holding day change. *)
Definition withPrices (prices : PriceMap)
  (previousCloseMap : JsMap.t (option Q)) (h : Holding) : Holding :=
  let currentPrice := priceOrCost prices h in
  let prevClose :=
    Num.or_undef (V2.previousCloseOf previousCloseMap (symbol h))
      currentPrice in
  let dayChange := (currentPrice - prevClose) * quantity h in
  let dayChangePercent :=
    if Num.gtb prevClose 0
    then ((currentPrice - prevClose) / prevClose) * 100 else 0 in
  mkHolding (id h) (symbol h) (name h) (category h) (quantity h) (avgCost h)
    (currency h) (accountType h) (createdAt h)
    (Some currentPrice) (Some (currentPrice * quantity h))
    (Some ((currentPrice - avgCost h) * quantity h))
    (Some (if Num.gtb (avgCost h) 0
           then ((currentPrice - avgCost h) / avgCost h) * 100 else 0))
    (Some dayChange) (Some dayChangePercent).

(** [enrichedHoldings.map(...)] of step 8. *)
Definition holdingsWithPrices (hs : list Holding) (prices : PriceMap)
  (previousCloseMap : JsMap.t (option Q)) (usdJpyRate : Q) : list Holding :=
  map (withPrices prices previousCloseMap)
    (fst (calculateHoldingsValue hs prices usdJpyRate)).

End V3.

End Route.

(* ------------------------------------------------------------------ *)
(** * The valuation in double precision

    The arithmetic of [calculateHoldingsValue] and of step 8 of the route on
    binary64 numbers, operation by operation as the source has it; every
    operation rounds to nearest. *)

Module Doubles.

Import PrimFloat.
Local Open Scope float_scope.

(** [x || y] on numbers: [y] when [x] is [0], [-0] or NaN. *)
Definition or (x y : float) : float :=
  if (x =? 0) || is_nan x then y else x.

(** [priceData?.price || avgCost]; [None]: the map has no entry. *)
Definition priceOrCost (price : option float) (avgCost : float) : float :=
  match price with
  | Some p => or p avgCost
  | None => avgCost
  end.

(** The four computed fields of a holding. *)
Record Valued : Type := mkValued {
  currentPrice : float;
  totalValue : float;
  unrealizedPL : float;
  unrealizedPLPercent : float
}.

(** The callback of [holdings.map] in [calculateHoldingsValue]. *)
Definition enrich (price : option float) (avgCost quantity : float)
  : Valued :=
  let currentPrice := priceOrCost price avgCost in
  let totalValue := currentPrice * quantity in
  let costBasis := avgCost * quantity in
  let unrealizedPL := totalValue - costBasis in
  let unrealizedPLPercent :=
    if 0 <? costBasis then (unrealizedPL / costBasis) * 100 else 0 in
  mkValued currentPrice totalValue unrealizedPL unrealizedPLPercent.

(** Step 8 of the route. *)
Definition withPrices (price : option float) (avgCost quantity : float)
  : Valued :=
  let p := priceOrCost price avgCost in
  mkValued p (p * quantity) ((p - avgCost) * quantity)
    (if 0 <? avgCost then ((p - avgCost) / avgCost) * 100 else 0).

(** The formula of the specification, [(currentPrice - avgCost) * quantity]. *)
Definition gainFormula (currentPrice avgCost quantity : float) : float :=
  (currentPrice - avgCost) * quantity.

(** The decimal literals [0.3] and [0.1], rounded to binary64 as a
    JavaScript engine reads them. *)
#[local] Set Warnings "-inexact-float".
Definition threeTenths : float := 0.3.
Definition oneTenth : float := 0.1.
#[local] Set Warnings "+inexact-float".

Definition three : float := 3.
Definition scenario : Valued := mkValued 2856 285600 45600 19.
Definition scenarioPrice : float := 2856.
Definition scenarioCost : float := 2400.
Definition scenarioQuantity : float := 100.

End Doubles.

(* ------------------------------------------------------------------ *)
(** * The vocabulary of the specification *)

Module Spec.

Import Js Regex.

(** A Tokyo-exchange code: four digits and an optional letter. *)
Definition is_tokyo_code (c : jsstring) : bool :=
  match c with
  | [a; b; c; d] => digit a && digit b && digit c && digit d
  | [a; b; c; d; l] => digit a && digit b && digit c && digit d && letter l
  | _ => false
  end.

(** The strictly positive number one pattern yields, if it yields one: the
    pattern matched, group 1 is not empty, and its text without the commas
    parses to a number above zero. *)
Definition matchValue (mt : option (option str)) : option Q :=
  match mt with
  | Some (Some (c :: g)) =>
      match StockApi.parseFloat (StockApi.stripCommas (c :: g)) with
      | Some x => if Num.gtb x 0 then Some x else None
      | None => None
      end
  | _ => None
  end.

Definition patternValue (html : str) (r : re) : option Q :=
  matchValue (exec r html).

Fixpoint firstSome (A : Type) (l : list (option A)) : option A :=
  match l with
  | [] => None
  | Some a :: _ => Some a
  | None :: l' => firstSome l'
  end.

(** An optional field holds a number equal to [q]. *)
Definition holds (o : option Q) (q : Q) : Prop :=
  match o with
  | Some x => x == q
  | None => False
  end.

Definition sumQ (l : list Q) : Q := fold_right Qplus 0 l.

(** The text [基準価額 12,345 円]. *)
Definition labelledNavText : str :=
  StockApi.kijunKagaku ++ $" 12,345 " ++ StockApi.yen.

(** [e] carries the valuation of [h] the specification describes. *)
Definition valuedAs (h e : Holding) : Prop :=
  exists cp tv pl pct,
    currentPrice e = Some cp /\ totalValue e = Some tv
    /\ unrealizedPL e = Some pl /\ unrealizedPLPercent e = Some pct
    /\ tv == cp * quantity h
    /\ pl == (cp - avgCost h) * quantity h
    /\ (0 < avgCost h * quantity h ->
        pct == pl / (avgCost h * quantity h) * 100)
    /\ (~ 0 < avgCost h * quantity h -> pct == 0).

(** The two quote maps treat [h] alike, or the first quotes it at zero and
    the second not at all. *)
Definition zeroOrAbsent (P P' : PriceMap) (h : Holding) : Prop :=
  JsMap.get (symbol h) P = JsMap.get (symbol h) P'
  \/ ((exists q, JsMap.get (symbol h) P = Some q /\ price q == 0)
      /\ JsMap.get (symbol h) P' = None).


(** The error payload with its safe defaults. *)
Definition errorPayload (r : Route.Response) (msg : jsstring) : Prop :=
  Route.status r = 500%nat /\ Route.error r = Some msg
  /\ Route.holdings r = [] /\ Route.categories r = []
  /\ Route.summary r = None /\ Route.exchangeRate r = 150
  /\ Route.source r = $"error".

Definition valued (h : Holding) : Prop :=
  currentPrice h <> None /\ totalValue h <> None
  /\ unrealizedPL h <> None /\ unrealizedPLPercent h <> None.

(** A structurally valid snapshot of a portfolio of [n] holdings: a success
    status, no error field, one valued holding per stored holding; for an
    empty portfolio the empty snapshot, otherwise a summary, the rate with
    its source tag, the price source and the JPY total. *)
Definition validSnapshot (n : nat) (r : Route.Response) : Prop :=
  Route.status r = 200%nat /\ Route.error r = None
  /\ length (Route.holdings r) = n
  /\ Forall valued (Route.holdings r)
  /\ (n = 0%nat ->
      Route.summary r = None /\ Route.categories r = []
      /\ Route.exchangeRate r = 150 /\ Route.source r = $"empty")
  /\ (n <> 0%nat ->
      Route.summary r <> None /\ Route.exchangeRateSource r <> None
      /\ Route.priceSource r <> None /\ Route.totalValueJPY r <> None
      /\ Route.source r = $"live").


(** A world in which every provider is unreachable and the price cache is
    empty. *)
Definition offline : Route.World :=
  Route.mkWorld (Returns []) (Returns [])
    (StockApi.mkProviders (fun _ => NetworkError) (fun _ => NetworkError))
    NetworkError NetworkError 2024.

(** The example holding of the end-to-end scenario and its quote. *)
Definition toyota : Holding :=
  mkHolding $"1" $"7203.T" $"Toyota" $"domestic_stock" 100 2400 $"JPY"
    $"specific" $"2024-01-15" None None None None None None.

Definition toyotaQuote : PriceMap := [($"7203.T", mkPrice 2856 $"JPY")].

Definition toyotaPreviousClose : JsMap.t (option Q) :=
  [($"7203.T", Some 2800)].

(** The second scenario: 50 units bought at 150 USD, quoted at 182.5. *)
Definition apple : Holding :=
  mkHolding $"2" $"AAPL" $"Apple Inc." $"us_stock" 50 150 $"USD" $"nisa"
    $"2024-02-01" None None None None None None.

Definition appleQuote : PriceMap := [($"AAPL", mkPrice (1825 # 10) $"USD")].

(** A world whose store holds the example holding and whose equity provider
    quotes it at 2856 with a previous close of 2800; the rate providers are
    unreachable. *)
Definition quoted : Route.World :=
  Route.mkWorld (Returns [toyota]) (Returns [])
    (StockApi.mkProviders
       (fun _ =>
          Body (StockApi.Result
                  (StockApi.mkChart (Some 2856) (Some 2800) [] None None
                     (Some $"JPY"))))
       (fun _ => NetworkError))
    NetworkError NetworkError 2024.

(** A world whose store is unreachable. *)
Definition storeDown : Route.World :=
  Route.mkWorld (Throws (ErrorWith $"store unreachable")) (Returns [])
    (StockApi.mkProviders (fun _ => NetworkError) (fun _ => NetworkError))
    NetworkError NetworkError 2024.


(** [s] begins with [l]. *)
Definition startsWith (l s : str) : bool :=
  str_eqb (firstn (length l) s) l.

(** [l] begins at no index of [pre ++ s] that lies in [pre]. *)
Fixpoint absentBefore (l pre s : str) : bool :=
  match pre with
  | [] => true
  | _ :: pre' => negb (startsWith l (pre ++ s)) && absentBefore l pre' s
  end.

(** A number as the five patterns capture it: a non-empty run of digits and
    commas. *)
Definition numberText (g : str) : bool :=
  match g with
  | [] => false
  | _ :: _ => forallb digit_or_comma g
  end.

(** The head of [s], if any, is outside the class [p]. *)
Definition stopsAt (p : cls) (s : str) : bool :=
  match s with
  | x :: _ => negb (p x)
  | [] => true
  end.

Definition noQuote : cls := cls_not (is_char StockApi.quote).
Definition noGt : cls := cls_not (is_char 62).

(** The texts the five patterns are written for, each followed by [post]:
    a span whose class names [StyledNumber]; a span followed by 円; the
    label 基準価額, a gap and a number followed by 円; a [content] attribute
    with the label and a number; a [data-price] or [data-value]
    attribute. *)
Definition styledSpan (a b c g post : str) : str :=
  $"class=" ++ [StockApi.quote] ++ a ++ $"StyledNumber" ++ b
    ++ [StockApi.quote] ++ c ++ $">" ++ g ++ $"</span>" ++ post.

Definition yenSpan (attrs g ws post : str) : str :=
  $"<span" ++ attrs ++ $">" ++ g ++ $"</span>" ++ ws ++ StockApi.yen ++ post.

Definition labelled (gap g ws post : str) : str :=
  StockApi.kijunKagaku ++ gap ++ g ++ ws ++ StockApi.yen ++ post.

Definition ogContent (a ws g post : str) : str :=
  $"content=" ++ [StockApi.quote] ++ a ++ StockApi.kijunKagaku ++ ws ++ g
    ++ post.

Definition dataAttribute (name g post : str) : str :=
  $"data-" ++ name ++ $"=" ++ [StockApi.quote] ++ g ++ [StockApi.quote]
    ++ post.

(** Every match of [r] reads the code unit [k]. *)
Fixpoint needs (k : char) (r : re) : Prop :=
  match r with
  | Cls p => forall c, p c = true -> c = k
  | Seq r1 r2 => needs k r1 \/ needs k r2
  | Alt r1 r2 => needs k r1 /\ needs k r2
  | Group r1 => needs k r1
  | _ => False
  end.

(** The code units of the literals of the five patterns. *)
Definition styledSpanLiterals : str :=
  $"class=" ++ [StockApi.quote] ++ $"StyledNumber" ++ $">" ++ $"</span>".
Definition yenSpanLiterals : str :=
  $"<span" ++ $">" ++ $"</span>" ++ StockApi.yen.
Definition labelledLiterals : str := StockApi.kijunKagaku ++ StockApi.yen.
Definition ogContentLiterals : str :=
  $"content=" ++ [StockApi.quote] ++ StockApi.kijunKagaku.
Definition dataAttributeLiterals : str :=
  $"data-" ++ $"=" ++ [StockApi.quote].

(** A page with markup that carries the labelled text in a paragraph. *)
Definition labelledPage : str :=
  $"<html><body><div id=" ++ [StockApi.quote] ++ $"nav" ++ [StockApi.quote]
    ++ $"><p>" ++ labelled $": " $"12,345" $" " $"</p></div></body></html>".

(** A page in which a styled span comes with the labelled text. *)
Definition styledPage : str :=
  $"<span " ++ styledSpan $"_" $"_" [] $"9,876" labelledNavText.

End Spec.

(* ------------------------------------------------------------------ *)
(** * Further code of the same files *)

(** ** [lib/exchangeRate.ts] and [lib/stockApi.ts]: helpers *)

Module Helpers.

Import Js Regex.

(** [convertJpyToUsd].  A division by [0] gives an infinity or NaN in the
    source and is outside the number model. *)
Definition convertJpyToUsd (jpyAmount rate : Q) : Q := jpyAmount / rate.

(** [/^\d{4}$/] *)
Definition re_four_digits : re := Cat [Bol; Rep 4 digit; Eol].

(** [formatJapaneseStockSymbol]: the template literal appends [.T]. *)
Definition formatJapaneseStockSymbol (code : jsstring) : jsstring :=
  if test re_four_digits code then code ++ $".T" else code.

(** [formatMutualFundSymbol] *)
Definition formatMutualFundSymbol (code : jsstring) : jsstring := code.

(** What [fetchStockPrice] reads of
    [data.quoteSummary.result[0].price]: the [raw] fields, the names and the
    currency. *)
Record PriceModule : Type := mkPriceModule {
  pm_regularMarketPrice : option Q;
  pm_regularMarketPreviousClose : option Q;
  pm_shortName : option jsstring;
  pm_longName : option jsstring;
  pm_currency : option jsstring
}.

(** [NoPrice]: [data.quoteSummary?.result?.[0]?.price] is missing;
    [BadSummary]: reading the body throws. *)
Inductive SummaryBody : Type :=
| BadSummary : SummaryBody
| NoPrice : SummaryBody
| PriceOf : PriceModule -> SummaryBody.

(** [fetchStockPrice], the quoteSummary variant of the equity fetch. *)
Definition fetchStockPrice (answer : Http SummaryBody) (symbol : jsstring)
  : option StockApi.StockQuote :=
  match answer with
  | NetworkError => None
  | NotOk => None
  | Body BadSummary => None
  | Body NoPrice => None
  | Body (PriceOf pm) =>
      let price := Num.or_undef (pm_regularMarketPrice pm) 0 in
      let previousClose :=
        Num.or_undef (pm_regularMarketPreviousClose pm) price in
      let change := price - previousClose in
      let changePercent :=
        if Num.gtb previousClose 0 then (change / previousClose) * 100
        else 0 in
      Some (StockApi.mkQuote symbol
              (StockApi.str_or (pm_longName pm)
                 (StockApi.str_or (pm_shortName pm) symbol))
              price (Some previousClose) (Some change) changePercent
              (match pm_currency pm with
               | Some cur => if str_eqb cur $"JPY" then $"JPY" else $"USD"
               | None => $"USD"
               end))
  end.

End Helpers.

(** ** The price cache ([getLatestPrices] of the store wrapper) *)

Module Sheets.

Import Js.

(** A row of a sheet: its cells, strings; a cell beyond the end of the row
    reads as [undefined] ([None]). *)
Definition Row : Type := list jsstring.
Definition cell (row : Row) (i : nat) : option jsstring := nth_error row i.

(** The entries of [priceMap].  A key is [row[1]] and may be [undefined]. *)
Record PriceEntry : Type := mkEntry {
  pe_price : Q;
  pe_currency : jsstring;
  pe_date : option jsstring
}.

Definition key_eqb (a b : option jsstring) : bool :=
  match a, b with
  | Some x, Some y => str_eqb x y
  | None, None => true
  | _, _ => false
  end.

(** A [Map] whose keys may be [undefined], entries in insertion order. *)
Definition KMap (V : Type) : Type := list (option jsstring * V).

Fixpoint kget (V : Type) (k : option jsstring) (mp : KMap V) : option V :=
  match mp with
  | [] => None
  | (k', v) :: mp' => if key_eqb k' k then Some v else kget k mp'
  end.

Fixpoint kset (V : Type) (k : option jsstring) (v : V) (mp : KMap V)
  : KMap V :=
  match mp with
  | [] => [(k, v)]
  | (k', v') :: mp' =>
      if key_eqb k' k then (k', v) :: mp' else (k', v') :: kset k v mp'
  end.

Section Parsers.

(** The two built-in parsers the function relies on: [parseFloat] of a cell
    ([None]: NaN) and the time value of [new Date(cell)] ([None]: an invalid
    date).  Both also receive [undefined] when the cell is missing. *)
Variable parseFloatOf : option jsstring -> option Q.
Variable timeOf : option jsstring -> option Z.

(** [new Date(a) > new Date(b)]: false when either date is invalid. *)
Definition laterThan (a b : option jsstring) : bool :=
  match timeOf a, timeOf b with
  | Some x, Some y => Z.ltb y x
  | _, _ => false
  end.

(** The callback of [rows.forEach]. *)
Definition recordRow (priceMap : KMap PriceEntry) (row : Row)
  : KMap PriceEntry :=
  let symbol := cell row 1 in
  let date := cell row 0 in
  let entry :=
    mkEntry (Num.or_undef (parseFloatOf (cell row 2)) 0)
      (StockApi.str_or (cell row 3) $"JPY") date in
  match kget symbol priceMap with
  | None => kset symbol entry priceMap
  | Some existing =>
      if laterThan date (pe_date existing) then kset symbol entry priceMap
      else priceMap
  end.

(** [getLatestPrices], given the cells [readSheet] returned. *)
Definition getLatestPrices (data : list Row) : KMap PriceData :=
  if Nat.leb (length data) 1 then []
  else
    let rows := tl data in
    let priceMap := fold_left recordRow rows [] in
    map (fun e : option jsstring * PriceEntry =>
           (fst e, mkPrice (pe_price (snd e)) (pe_currency (snd e))))
      priceMap.

End Parsers.

End Sheets.

(** ** The price-update job ([app/api/cron/update-prices/route.ts]) *)

Module Cron.

Import Js.

(** A row appended to the store. *)
Inductive Appended : Type :=
| PriceRow (date symbol : jsstring) (price : Q) (currency : jsstring)
| RateRow (date : jsstring) (rate : Q).

(** The JSON object of the response; a field the object lacks is [None].
    [exchangeRate] is [Some None] for [null]. *)
Record Response : Type := mkResponse {
  status : nat;
  error : option jsstring;
  success : bool;
  updatedSymbols : option nat;
  totalSymbols : option nat;
  exchangeRate : option (option Q)
}.

(** The job's surroundings: the secret of the environment ([None]: not
    set), the store and the network of the portfolio route, the date of the
    day, and whether an append to the store throws, given what was appended
    before. *)
Record Env : Type := mkEnv {
  cronSecret : option jsstring;
  world : Route.World;
  today : jsstring;
  appendThrows : list Appended -> option Thrown
}.

(** [`Bearer ${process.env.CRON_SECRET}`]: an unset secret is interpolated
    as [undefined]. *)
Definition expectedHeader (secret : option jsstring) : jsstring :=
  $"Bearer " ++ match secret with Some s => s | None => $"undefined" end.

(** [error instanceof Error ? error.message : 'Failed to update prices'] *)
Definition failure (e : Thrown) : Response :=
  mkResponse 500
    (Some (match e with
           | ErrorWith msg => msg
           | NotAnError => $"Failed to update prices"
           end))
    false None None None.

(** [appendToSheet]: the row is in the store unless the call throws. *)
Definition append (env : Env) (row : Appended) (store : list Appended)
  : Outcome (list Appended) :=
  match appendThrows env store with
  | Some e => Throws e
  | None => Returns (store ++ [row])
  end.

(** The loop of step 3: the store and [savedCount] after the entries, or
    the store as it was when an append threw. *)
Fixpoint savePrices (env : Env)
  (entries : list (jsstring * StockApi.StockQuote)) (store : list Appended)
  (savedCount : nat) : Outcome (list Appended * nat) * list Appended :=
  match entries with
  | [] => (Returns (store, savedCount), store)
  | (sym, data) :: rest =>
      match append env
              (PriceRow (today env) sym (StockApi.sq_price data)
                 (StockApi.sq_currency data)) store with
      | Throws e => (Throws e, store)
      | Returns store' => savePrices env rest store' (S savedCount)
      end
  end.

(** [GET] (and [POST], which calls it): the response and what the store has
    been appended with, starting from [store]. *)
Definition GET (env : Env) (authHeader : option jsstring)
  (store : list Appended) : Response * list Appended :=
  let authorized :=
    match authHeader with
    | Some h => str_eqb h (expectedHeader (cronSecret env))
    | None => false
    end in
  if negb authorized
  then (mkResponse 401 (Some $"Unauthorized") false None None None, store)
  else
    match Route.getHoldings (world env) with
    | Throws e => (failure e, store)
    | Returns holdings =>
        let symbols := map symbol holdings in
        let prices :=
          StockApi.fetchMultipleStockPrices (Route.net (world env))
            symbols in
        match savePrices env prices store 0 with
        | (Throws e, store') => (failure e, store')
        | (Returns (store', savedCount), _) =>
            match ExchangeRate.fetchUsdJpyRate
                    (Route.primaryRate (world env))
                    (Route.secondaryRate (world env)) with
            | Some rateData =>
                match append env
                        (RateRow (today env) (ExchangeRate.rate rateData))
                        store' with
                | Throws e => (failure e, store')
                | Returns store'' =>
                    (mkResponse 200 None true (Some savedCount)
                       (Some (length symbols))
                       (Some (Some (ExchangeRate.rate rateData))),
                     store'')
                end
            | None =>
                (mkResponse 200 None true (Some savedCount)
                   (Some (length symbols)) (Some None),
                 store')
            end
        end
    end.

End Cron.

(* ------------------------------------------------------------------ *)
(** * Vocabulary for the further properties *)

Module Props.

Import Js StockApi Route.

(** [l] has [x]. *)
Definition mem (x : jsstring) (l : list jsstring) : bool :=
  existsb (str_eqb x) l.

(** What the quote fetcher asks the network for one symbol: the fund page
    for a fund code, the chart otherwise. *)
Definition fetchOne (net : StockApi.Providers) (s : jsstring)
  : option StockApi.StockQuote :=
  if StockApi.isMutualFundCode s
  then StockApi.fetchMutualFundNAV (StockApi.fundPageOf net s) s
  else StockApi.fetchStockPriceV8 (StockApi.chartOf net s) s.

(** The body of the first loop of the fund step. *)
Definition addFund (mp : JsMap.t (list jsstring)) (h : Holding)
  : JsMap.t (list jsstring) :=
  match JsMap.get (symbol h) V2.FUND_CODE_MAP with
  | Some fundCode =>
      JsMap.set fundCode
        (match JsMap.get fundCode mp with Some l => l | None => [] end
           ++ [symbol h]) mp
  | None => mp
  end.

(** The invariant of [uniqueFundCodes]: one entry per code, and a symbol
    is only listed under the code the table gives it. *)
Definition fundEntriesOk (mp : JsMap.t (list jsstring)) : Prop :=
  NoDup (JsMap.keys mp)
  /\ (forall c l s,
        In (c, l) mp -> In s l -> JsMap.get s V2.FUND_CODE_MAP = Some c).

(** The fetch of the second loop of the fund step and its body. *)
Definition navOf (w : World) (c : jsstring) : option StockQuote :=
  fetchMutualFundNAV (fundPageOf (net w) c) c.

Definition applyEntry (w : World) (acc : V2.Quotes)
  (e : jsstring * list jsstring) : V2.Quotes :=
  let (fundCode, holdingSymbols) := e in
  match navOf w fundCode with
  | Some navData =>
      fold_left (fun a sym => V2.setQuote sym navData $"JPY" a)
        holdingSymbols acc
  | None => acc
  end.

(** [b] does not come before [a] by value: the order of the summaries. *)
Definition descByValue (a b : CategorySummary) : Prop :=
  cs_value b <= cs_value a.

Definition sameValue (v : Q) (c : CategorySummary) : bool :=
  Qeq_bool (cs_value c) v.

(** The JPY value of the holdings and of the other assets of a category. *)
Definition categoryValue (c : jsstring) (hs : list Holding)
  (others : list OtherAsset) (prices : PriceMap) (rate : Q) : Q :=
  Spec.sumQ
    (map (Calculations.holdingValueJPY prices rate)
       (filter (fun h => str_eqb (category h) c) hs))
  + Spec.sumQ
      (map (fun a => toJPY (oa_currency a) (oa_value a) rate)
         (filter (fun a => str_eqb (oa_type a) c) others)).

(** [Some v] or nothing, read as a number. *)
Definition valueOr0 (o : option Q) : Q :=
  match o with Some v => v | None => 0 end.

(** What one holding and one other asset book on their category. *)
Definition holdingItem (prices : PriceMap) (rate : Q) (h : Holding)
  : jsstring * Q :=
  (category h, Calculations.holdingValueJPY prices rate h).

Definition assetItem (rate : Q) (a : OtherAsset) : jsstring * Q :=
  (oa_type a, toJPY (oa_currency a) (oa_value a) rate).

(** Amounts booked on categories one after the other, as both loops of
    [generateCategorySummary] do. *)
Definition addAll (items : list (jsstring * Q)) (totals : JsMap.t Q)
  : JsMap.t Q :=
  fold_left (fun t e => Calculations.addToCategory (fst e) (snd e) t)
    items totals.

Definition amountFor (c : jsstring) (items : list (jsstring * Q)) : Q :=
  Spec.sumQ (map snd (filter (fun e => str_eqb (fst e) c) items)).

(** What the type [StockQuote] and the arithmetic of the fetchers promise
    of a quote returned for [sym]: its symbol, a currency of JPY or USD,
    and a change and a change percentage taken against its previous close
    (where these are numbers and not NaN). *)
Definition wellFormed (sym : jsstring) (q : StockQuote) : Prop :=
  sq_symbol q = sym
  /\ (sq_currency q = $"JPY" \/ sq_currency q = $"USD")
  /\ (forall pc ch,
        sq_previousClose q = Some pc -> sq_change q = Some ch ->
        ch == sq_price q - pc)
  /\ (forall pc,
        sq_previousClose q = Some pc ->
        sq_changePercent q
        == if Num.gtb pc 0 then (sq_price q - pc) / pc * 100 else 0).

(** The previous close of an equity quote falls back on the price: it is a
    number, and zero only when the price is. *)
Definition closeFallsBackOnPrice (q : StockQuote) : Prop :=
  exists pc, sq_previousClose q = Some pc /\ (pc == 0 -> sq_price q == 0).

(** The two maps of step 2 have the same keys in the same order. *)
Definition aligned (qs : V2.Quotes) : Prop :=
  JsMap.keys (fst qs) = JsMap.keys (snd qs).

(** The stored fields of a holding that identify it. *)
Definition stored (h : Holding) : jsstring * jsstring * Q * Q * jsstring :=
  (id h, symbol h, quantity h, avgCost h, currency h).

(** The first holding of the list with the given symbol. *)
Definition firstWithSymbol (k : jsstring) (hs : list Holding)
  : option Holding :=
  find (fun h => str_eqb (symbol h) k) hs.

(** Two fund holdings that share the code 47316169, a stock held at a
    second broker, and a world in which every chart quotes 2856 and every
    fund page shows the labelled text. *)
Definition ghqDist : Holding :=
  mkHolding $"4" $"ghq-dist" $"GHQ" $"mutual_fund" 10 11000 $"JPY" $"nisa"
    $"2024-04-01" None None None None None None.

Definition ghqReinv : Holding :=
  mkHolding $"5" $"ghq-reinv" $"GHQ" $"mutual_fund" 20 12000 $"JPY"
    $"specific" $"2024-04-02" None None None None None None.

Definition toyotaAtSbi : Holding :=
  mkHolding $"6" $"7203.T-sbi" $"Toyota" $"domestic_stock" 300 2500 $"JPY"
    $"nisa" $"2024-05-01" None None None None None None.

Definition allQuoted : World :=
  mkWorld (Returns [Spec.toyota; toyotaAtSbi; ghqDist; ghqReinv])
    (Returns [])
    (mkProviders
       (fun _ =>
          Body (Result (mkChart (Some 2856) (Some 2800) [] None None
                          (Some $"JPY"))))
       (fun _ => Body Spec.labelledNavText))
    NetworkError NetworkError 2024.

(** The holding has a quote with a usable (non-zero) price. *)
Definition quotedIn (prices : PriceMap) (h : Holding) : bool :=
  match JsMap.get (symbol h) prices with
  | Some q => Num.truthy (price q)
  | None => false
  end.

(** What [getLatestPrices] keeps of a row of the price history. *)
Definition entryOfRow (parseFloatOf : option jsstring -> option Q)
  (row : Sheets.Row) : Sheets.PriceEntry :=
  Sheets.mkEntry (Num.or_undef (parseFloatOf (Sheets.cell row 2)) 0)
    (str_or (Sheets.cell row 3) $"JPY") (Sheets.cell row 0).

Definition priceOfRow (parseFloatOf : option jsstring -> option Q)
  (row : Sheets.Row) : PriceData :=
  mkPrice (Sheets.pe_price (entryOfRow parseFloatOf row))
    (Sheets.pe_currency (entryOfRow parseFloatOf row)).

(** [row] carries the symbol [k] and no row of [rows] with that symbol is
    dated later. *)
Definition latestFor (timeOf : option jsstring -> option Z)
  (k : option jsstring) (rows : list Sheets.Row) (row : Sheets.Row) : Prop :=
  In row rows /\ Sheets.cell row 1 = k
  /\ forall row',
       In row' rows -> Sheets.cell row' 1 = k ->
       Sheets.laterThan timeOf (Sheets.cell row' 0) (Sheets.cell row 0)
       = false.

(** The rows the price-update job writes: one per fetched quote, and one
    for the exchange rate when a provider gave one. *)
Definition priceRowOf (env : Cron.Env) (e : jsstring * StockQuote)
  : Cron.Appended :=
  Cron.PriceRow (Cron.today env) (fst e) (sq_price (snd e))
    (sq_currency (snd e)).

Definition rateRowsOf (env : Cron.Env) : list Cron.Appended :=
  match ExchangeRate.fetchUsdJpyRate (primaryRate (Cron.world env))
          (secondaryRate (Cron.world env)) with
  | Some rateData =>
      [Cron.RateRow (Cron.today env) (ExchangeRate.rate rateData)]
  | None => []
  end.

Definition datedToday (env : Cron.Env) (row : Cron.Appended) : Prop :=
  match row with
  | Cron.PriceRow d _ _ _ => d = Cron.today env
  | Cron.RateRow d _ => d = Cron.today env
  end.

(** A job whose store takes every row, over the world of the example. *)
Definition cronEnv : Cron.Env :=
  Cron.mkEnv (Some $"s3cret") Spec.quoted $"2024-06-01" (fun _ => None).

(** A world whose providers are all unreachable and whose price cache
    holds the example quote. *)
Definition cacheOnly : World :=
  mkWorld (Returns [Spec.toyota]) (Returns Spec.toyotaQuote)
    (mkProviders (fun _ => NetworkError) (fun _ => NetworkError))
    NetworkError NetworkError 2024.

(** The symbols the stock step asks the quote fetcher for:
    [symbolToNormalized] filled from the holdings, its values, and their
    deduplication through a [Set]. *)
Definition uniqueNormalizedSymbols (stockHoldings : list Holding)
  : list jsstring :=
  V2.unique
    (JsMap.values
       (fold_left
          (fun mp h =>
             JsMap.set (symbol h)
               (V2.normalizeSymbolForPriceLookup (symbol h)) mp)
          stockHoldings JsMap.empty)).

(** The strings of a list in the order of their first occurrence: the
    head, then the first occurrences of the rest without the head. *)
Fixpoint firstOccurrences (l : list jsstring) : list jsstring :=
  match l with
  | [] => []
  | x :: l' =>
      x :: filter (fun y => negb (str_eqb y x)) (firstOccurrences l')
  end.

End Props.

(* ------------------------------------------------------------------ *)
(** * Facts about strings, maps and the matcher *)

Section StringFacts.

Import Js.

Lemma str_eqb_spec (a b : str) : reflect (a = b) (str_eqb a b).
Proof.
  revert b; induction a as [|x a IH]; intros [|y b]; simpl;
    try (constructor; congruence).
  destruct (N.eqb_spec x y) as [->|Hxy]; simpl.
  - destruct (IH b) as [->|Hab]; constructor; congruence.
  - constructor; congruence.
Qed.

Lemma str_eqb_refl (a : str) : str_eqb a a = true.
Proof. destruct (str_eqb_spec a a); congruence. Qed.

End StringFacts.

Section NumFacts.

Lemma gtb_pos (x : Q) : Num.gtb x 0 = true <-> 0 < x.
Proof.
  unfold Num.gtb. rewrite negb_true_iff.
  split; intros H.
  - apply Qnot_le_lt. intros Hle. apply Qle_bool_iff in Hle. congruence.
  - destruct (Qle_bool x 0) eqn:E; [|reflexivity].
    apply Qle_bool_iff in E. exfalso. apply (Qlt_not_le _ _ H E).
Qed.

Lemma truthy_zero (x : Q) : x == 0 -> Num.truthy x = false.
Proof.
  intros H. unfold Num.truthy. apply Qeq_bool_iff in H. rewrite H.
  reflexivity.
Qed.

Lemma truthy_nonzero (x : Q) : ~ x == 0 -> Num.truthy x = true.
Proof.
  intros H. unfold Num.truthy. destruct (Qeq_bool x 0) eqn:E; [|reflexivity].
  apply Qeq_bool_iff in E. contradiction.
Qed.



End NumFacts.

Section MatcherFacts.

Import Js Regex.
Local Open Scope nat_scope.

(** An anchored pattern can only match at index 0. *)
Lemma search_bol (r : re) (s : str) (n : nat) :
  n <> 0 -> search (Seq Bol r) s n = None.
Proof.
  revert n; induction s as [|x s IH]; intros n Hn; simpl;
    destruct (Nat.eqb_spec n 0); try contradiction; auto.
Qed.

Lemma exec_bol (r : re) (s : str) :
  exec (Seq Bol r) s = m r accept (MState s 0 None).
Proof.
  unfold exec. destruct s as [|x s]; simpl.
  - destruct (m r accept _); reflexivity.
  - destruct (m r accept _); [reflexivity|]. apply search_bol. lia.
Qed.

(** [p{n}] reads exactly [n] code units of class [p]. *)
Lemma m_Rep (A : Type) (p : cls) (k : cont A) (n : nat) :
  forall s i c,
    m (Rep n p) k (MState s i c) =
    if (n <=? length s) && forallb p (firstn n s)
    then k (MState (skipn n s) (n + i) c) else None.
Proof.
  induction n as [|n IH]; intros s i c; simpl.
  - reflexivity.
  - destruct s as [|x s]; simpl; [reflexivity|].
    destruct (p x); simpl; [|now rewrite andb_false_r].
    rewrite IH. rewrite Nat.add_succ_r. reflexivity.
Qed.

(** [p*$] succeeds exactly when everything left is of class [p]. *)
Lemma star_to_end (p : cls) (s : str) (i : nat) (c : option str) :
  star p (m (Seq Eol Eps) accept) s i c =
  if forallb p s then Some c else None.
Proof.
  revert i; induction s as [|x s IH]; intros i; simpl; [reflexivity|].
  destruct (p x); simpl; [|reflexivity].
  rewrite IH. destruct (forallb p s); reflexivity.
Qed.

(** A one-class pattern finds the first code unit of the class. *)
Lemma search_Cls (p : cls) (s : str) (n : nat) :
  search (Cls p) s n = if existsb p s then Some None else None.
Proof.
  revert n; induction s as [|x s IH]; intros n; simpl; [reflexivity|].
  destruct (p x); simpl; [reflexivity|apply IH].
Qed.

Lemma m_Seq (A : Type) (r1 r2 : re) (k : cont A) (st : mstate) :
  m (Seq r1 r2) k st = m r1 (m r2 k) st.
Proof. reflexivity. Qed.

Lemma m_Star (A : Type) (p : cls) (k : cont A) (st : mstate) :
  m (Star p) k st = star p k (rest st) (pos st) (cap st).
Proof. reflexivity. Qed.

(** A literal reads itself. *)
Lemma m_Lit (A : Type) (k : cont A) (l : str) :
  forall s n c,
    m (Lit l) k (MState (l ++ s) n c) = k (MState s (length l + n) c).
Proof.
  induction l as [|x l IH]; intros s n c; simpl; [reflexivity|].
  unfold is_char at 1. rewrite N.eqb_refl, IH, Nat.add_succ_r. reflexivity.
Qed.

(** A literal matches only where the input continues with it. *)
Lemma m_Lit_inv (A : Type) (k : cont A) (l : str) :
  forall s n c,
    m (Lit l) k (MState s n c) <> None -> exists s', s = l ++ s'.
Proof.
  induction l as [|x l IH]; intros s n c H; simpl in *.
  - exists s. reflexivity.
  - destruct s as [|y s]; [contradiction|].
    unfold is_char at 1 in H. destruct (N.eqb_spec y x) as [->|]; [|contradiction].
    apply IH in H. destruct H as [s' ->]. exists s'. reflexivity.
Qed.

(** A pattern that begins with a literal finds nothing in an input that
    lacks one of the literal's code units. *)
Lemma search_lit_absent (l : str) (r : re) (c0 : char) :
  In c0 l ->
  forall s n, ~ In c0 s -> search (Seq (Lit l) r) s n = None.
Proof.
  intros Hl s. induction s as [|x s IH]; intros n Hs.
  - simpl. destruct (m (Lit l) (m r accept) (MState [] n None)) eqn:E;
      [|reflexivity].
    exfalso. destruct (@m_Lit_inv _ (m r accept) l [] n None) as [s' Hs'];
      [congruence|].
    apply Hs. rewrite Hs'. apply in_or_app. left. exact Hl.
  - simpl. destruct (m (Lit l) (m r accept) (MState (x :: s) n None)) eqn:E.
    + exfalso.
      destruct (@m_Lit_inv _ (m r accept) l (x :: s) n None) as [s' Hs'];
        [congruence|].
      apply Hs. rewrite Hs'. apply in_or_app. left. exact Hl.
    + apply IH. intros H. apply Hs. right. exact H.
Qed.

(** The search passes over a prefix that lacks the literal's first code
    unit. *)
Lemma search_skip (c0 : char) (l : str) (r : re) (pre s : str) :
  ~ In c0 pre ->
  forall n,
    search (Seq (Lit (c0 :: l)) r) (pre ++ s) n
    = search (Seq (Lit (c0 :: l)) r) s (length pre + n).
Proof.
  induction pre as [|x pre IH]; intros Hn n; [reflexivity|].
  cbn [app search m Lit rest]. unfold is_char at 1.
  destruct (N.eqb_spec x c0) as [->|Hx].
  - exfalso. apply Hn. left. reflexivity.
  - rewrite IH; [|intros H; apply Hn; right; exact H].
    cbn [length]. rewrite Nat.add_succ_r. reflexivity.
Qed.

(** The greedy star reads a whole run of its class when what follows the
    run lets the rest of the pattern match. *)
Lemma star_run (A : Type) (p : cls) (k : cont A) (run s : str) :
  forallb p run = true ->
  match s with x :: _ => p x = false | [] => True end ->
  forall n c,
    k (MState s (length run + n) c) <> None ->
    star p k (run ++ s) n c = k (MState s (length run + n) c).
Proof.
  intros Hrun Hs. induction run as [|y run IH]; intros n c Hk; simpl.
  - destruct s as [|x s]; simpl; [reflexivity|]. rewrite Hs. reflexivity.
  - simpl in Hrun. apply andb_true_iff in Hrun. destruct Hrun as [Hy Hrun].
    rewrite Hy. simpl in Hk. rewrite <- Nat.add_succ_r in Hk.
    rewrite (IH Hrun _ _ Hk), <- Nat.add_succ_r.
    destruct (k (MState s (length run + S n) c)); [reflexivity|contradiction].
Qed.

Lemma forallb_firstn_skipn (A : Type) (p : A -> bool) (n : nat)
  (l : list A) :
  forallb p (firstn n l) && forallb p (skipn n l) = forallb p l.
Proof. rewrite <- forallb_app, firstn_skipn. reflexivity. Qed.

Lemma digit_not_letter (c : char) : digit c = true -> letter c = false.
Proof.
  unfold digit, letter, cls_or, upper, lower, in_range.
  rewrite !andb_true_iff, !N.leb_le. intros [H1 H2].
  apply orb_false_iff; split; apply andb_false_iff; left; apply N.leb_gt;
    lia.
Qed.

End MatcherFacts.

(* ------------------------------------------------------------------ *)
(** * Symbol Resolver: normalisation *)

Section NormalizeFacts.

Import Js Regex Spec Route.V2.
Local Open Scope nat_scope.

(** Every match of the pattern is a Tokyo code, [.T] and a rest, and
    group 1 is the code with [.T]. *)
Lemma exec_tokyo_inv (s g : str) :
  exec re_tokyo s = Some (Some g) ->
  exists code suffix,
    is_tokyo_code code = true /\ s = code ++ $".T" ++ suffix
    /\ g = code ++ $".T".
Proof.
  unfold re_tokyo. rewrite exec_bol.
  destruct s as [|a [|b [|c [|d r]]]]; try discriminate.
  - cbn -[digit letter N.eqb]. destruct (digit a); discriminate.
  - cbn -[digit letter N.eqb]. destruct (digit a); try discriminate.
    destruct (digit b); discriminate.
  - cbn -[digit letter N.eqb]. destruct (digit a); try discriminate.
    destruct (digit b); try discriminate. destruct (digit c); discriminate.
  - cbn -[digit letter N.eqb].
    destruct (digit a) eqn:Ha; try discriminate.
    destruct (digit b) eqn:Hb; try discriminate.
    destruct (digit c) eqn:Hc; try discriminate.
    destruct (digit d) eqn:Hd; try discriminate.
    unfold accept, is_char.
    destruct r as [|x r]; [discriminate|].
    destruct r as [|y r];
      [destruct (letter x), (N.eqb_spec x 46); discriminate|].
    destruct (letter x) eqn:Hx.
    + destruct (N.eqb_spec y 46) as [->|Hy].
      * destruct r as [|z r].
        -- destruct (N.eqb_spec x 46); [|discriminate].
           destruct (N.eqb_spec 46 84); discriminate.
        -- destruct (N.eqb_spec z 84) as [->|Hz].
           ++ cbn. intros H; injection H as <-.
              exists [a; b; c; d; x], r. cbn.
              rewrite Ha, Hb, Hc, Hd, Hx. auto.
           ++ destruct (N.eqb_spec x 46); [|discriminate].
              destruct (N.eqb_spec 46 84); discriminate.
      * destruct (N.eqb_spec x 46) as [->|Hx']; [|discriminate].
        destruct (N.eqb_spec y 84) as [->|Hy']; [|discriminate].
        cbn. intros H; injection H as <-.
        exists [a; b; c; d], r. cbn. rewrite Ha, Hb, Hc, Hd. auto.
    + destruct (N.eqb_spec x 46) as [->|Hx']; [|discriminate].
      destruct (N.eqb_spec y 84) as [->|Hy']; [|discriminate].
      cbn. intros H; injection H as <-.
      exists [a; b; c; d], r. cbn. rewrite Ha, Hb, Hc, Hd. auto.
Qed.

(** Group 1 takes part in every match. *)
Lemma re_tokyo_group_defined (s : str) : exec re_tokyo s <> Some None.
Proof.
  unfold re_tokyo. rewrite exec_bol. intros H.
  destruct s as [|a [|b [|c [|d r]]]]; cbn -[digit letter N.eqb] in H;
    repeat match type of H with
      | context [if ?b then _ else _] => destruct b
      | context [match ?l with [] => _ | _ :: _ => _ end] => destruct l
      end; cbn in H; discriminate.
Qed.

Lemma exec_tokyo_code (code suffix : str) :
  is_tokyo_code code = true ->
  exec re_tokyo (code ++ $".T" ++ suffix) = Some (Some (code ++ $".T")).
Proof.
  intros Hc. unfold re_tokyo. rewrite exec_bol.
  destruct code as [|a [|b [|c [|d [|l [|? ?]]]]]]; try discriminate.
  - cbn in Hc. rewrite !andb_true_iff in Hc.
    destruct Hc as [[[Ha Hb] Hc] Hd].
    cbn -[digit letter N.eqb]. rewrite Ha, Hb, Hc, Hd. reflexivity.
  - cbn in Hc. rewrite !andb_true_iff in Hc.
    destruct Hc as [[[[Ha Hb] Hc] Hd] Hl].
    cbn -[digit letter N.eqb]. rewrite Ha, Hb, Hc, Hd, Hl. reflexivity.
Qed.

(** C6.  A Tokyo-exchange code (four digits and an optional letter)
    followed by [.T] and any broker suffix normalises to the code with
    [.T]; a symbol that is not of that shape is returned unchanged.  So
    ["1234A.T-sbi"] and ["1234A.T-brokerX"] both give ["1234A.T"], and
    ["AAPL"] gives ["AAPL"]. *)
Theorem normalize_strips_broker_suffix :
  (forall code suffix,
      is_tokyo_code code = true ->
      normalizeSymbolForPriceLookup (code ++ $".T" ++ suffix)
      = code ++ $".T")
  /\ (forall symbol,
        (forall code suffix,
            is_tokyo_code code = true ->
            symbol <> code ++ $".T" ++ suffix) ->
        normalizeSymbolForPriceLookup symbol = symbol)
  /\ normalizeSymbolForPriceLookup $"1234A.T-sbi" = $"1234A.T"
  /\ normalizeSymbolForPriceLookup $"1234A.T-brokerX" = $"1234A.T"
  /\ normalizeSymbolForPriceLookup $"AAPL" = $"AAPL".
Proof.
  split; [|split; [|repeat split]].
  - intros code suffix Hc. unfold normalizeSymbolForPriceLookup.
    rewrite (exec_tokyo_code code suffix Hc). reflexivity.
  - intros symbol Hn. unfold normalizeSymbolForPriceLookup.
    destruct (exec re_tokyo symbol) as [[g|]|] eqn:E; try reflexivity.
    exfalso. apply exec_tokyo_inv in E.
    destruct E as (code & suffix & Hc & Hs & _).
    exact (Hn code suffix Hc Hs).
Qed.

Lemma normalize_strips_broker_suffix_witness :
  normalizeSymbolForPriceLookup ($"7034" ++ $".T" ++ $"-sbi") = $"7034" ++ $".T".
Proof.
  destruct normalize_strips_broker_suffix as (H & _).
  apply (H $"7034" $"-sbi"). reflexivity.
Defined.

End NormalizeFacts.

(* ------------------------------------------------------------------ *)
(** * Quote Fetcher: routing between the two paths *)

Section RoutingFacts.

Import Js Regex StockApi.
Local Open Scope nat_scope.

Lemma test_fund_shape (s : str) :
  test re_fund_shape s = (8 <=? length s) && forallb alnum s.
Proof.
  unfold test, re_fund_shape, Cat. rewrite exec_bol.
  change (m (Seq (Rep 8 alnum) (Seq (Star alnum) (Seq Eol Eps))) accept
            (MState s 0 None))
    with (m (Rep 8 alnum) (m (Seq (Star alnum) (Seq Eol Eps)) accept)
            (MState s 0 None)).
  rewrite m_Rep.
  destruct (8 <=? length s); cbn [andb]; [|reflexivity].
  rewrite <- (forallb_firstn_skipn alnum 8 s).
  destruct (forallb alnum (firstn 8 s)); cbn [andb]; [|reflexivity].
  change (m (Seq (Star alnum) (Seq Eol Eps)) accept
            (MState (skipn 8 s) (8 + 0) None))
    with (star alnum (m (Seq Eol Eps) accept) (skipn 8 s) (8 + 0) None).
  rewrite star_to_end. destruct (forallb alnum (skipn 8 s)); reflexivity.
Qed.

Lemma test_has_letter (s : str) : test re_has_letter s = existsb letter s.
Proof.
  unfold test, exec, re_has_letter. rewrite search_Cls.
  destruct (existsb letter s); reflexivity.
Qed.

Lemma isMutualFundCode_eq (s : str) :
  isMutualFundCode s
  = (8 <=? length s) && forallb alnum s && existsb letter s.
Proof.
  unfold isMutualFundCode. rewrite test_fund_shape, test_has_letter.
  reflexivity.
Qed.

(** C9.  A symbol goes to the fund path exactly when it is alphanumeric,
    at least eight code units long, and has a letter; a symbol of digits
    only, of any length, goes to the equity path (so does ["47316169"]);
    every requested symbol is on exactly one of the two paths. *)
Theorem isMutualFundCode_routing :
  (forall s, isMutualFundCode s = true <->
             (8 <= length s /\ Forall (fun c => alnum c = true) s
              /\ Exists (fun c => letter c = true) s))
  /\ (forall s, Forall (fun c => digit c = true) s ->
                isMutualFundCode s = false)
  /\ isMutualFundCode $"47316169" = false
  /\ (forall symbols s, In s symbols ->
        (In s (mutualFundsOf symbols) /\ ~ In s (stocksOf symbols))
        \/ (In s (stocksOf symbols) /\ ~ In s (mutualFundsOf symbols)))
  /\ (forall symbols,
        length (mutualFundsOf symbols) + length (stocksOf symbols)
        = length symbols).
Proof.
  split; [|split; [|split; [|split]]].
  - intros s. rewrite isMutualFundCode_eq, !andb_true_iff, Nat.leb_le,
      forallb_forall, existsb_exists, Forall_forall, Exists_exists.
    tauto.
  - intros s Hd. rewrite isMutualFundCode_eq.
    replace (existsb letter s) with false; [apply andb_false_r|].
    symmetry. induction Hd as [|c s Hc _ IH]; simpl; [reflexivity|].
    rewrite (digit_not_letter c Hc). exact IH.
  - reflexivity.
  - intros symbols s Hin. unfold mutualFundsOf, stocksOf.
    rewrite !filter_In. destruct (isMutualFundCode s) eqn:E; simpl.
    + left. split; [auto|]. intros [_ H]; discriminate.
    + right. split; [auto|]. intros [_ H]; discriminate.
  - intros symbols. unfold mutualFundsOf, stocksOf.
    induction symbols as [|x l IH]; simpl; [reflexivity|].
    destruct (isMutualFundCode x); simpl; lia.
Qed.

Lemma isMutualFundCode_routing_witness :
  isMutualFundCode $"9999999999" = false
  /\ (In $"9331107A" (mutualFundsOf [$"7203.T"; $"9331107A"])
      /\ ~ In $"9331107A" (stocksOf [$"7203.T"; $"9331107A"])
      \/ In $"9331107A" (stocksOf [$"7203.T"; $"9331107A"])
         /\ ~ In $"9331107A" (mutualFundsOf [$"7203.T"; $"9331107A"])).
Proof.
  destruct isMutualFundCode_routing as (_ & H2 & _ & H4 & _). split.
  - apply (H2 $"9999999999"). repeat constructor.
  - apply (H4 [$"7203.T"; $"9331107A"] $"9331107A").
    right. left. reflexivity.
Defined.

End RoutingFacts.

(* ------------------------------------------------------------------ *)
(** * The labelled-number pattern on labelled text *)

Section LabelFacts.

Import Js Regex StockApi.
Local Open Scope nat_scope.

Lemma space_not_digit_or_comma (c : char) :
  space c = true -> digit_or_comma c = false.
Proof.
  unfold space, digit_or_comma, cls_or, digit, in_range, is_char.
  rewrite !orb_true_iff, !andb_true_iff, !N.leb_le, !N.eqb_eq.
  intros H. apply orb_false_iff. split.
  - apply andb_false_iff.
    destruct (N.leb_spec 48 c); [right; apply N.leb_gt; lia|left; reflexivity].
  - apply N.eqb_neq. lia.
Qed.

Lemma head_not_in_class (p : cls) (ws : str) (c0 : char) (s : str) :
  (forall c, space c = true -> p c = false) -> p c0 = false ->
  forallb space ws = true ->
  match ws ++ c0 :: s with x :: _ => p x = false | [] => True end.
Proof.
  intros Hsp Hc Hws. destruct ws as [|x ws]; simpl; [exact Hc|].
  simpl in Hws. apply andb_true_iff in Hws. apply Hsp, Hws.
Qed.

(** Pattern 3 at the label: the gap is skipped, the number is captured
    whole, white space and the yen sign are read. *)
Lemma m_labelled (gap num ws post : str) (d : char) (n : nat) :
  forallb (cls_not digit) gap = true ->
  digit d = true ->
  forallb digit_or_comma num = true ->
  forallb space ws = true ->
  m priceMatch3_re accept
    (MState (kijunKagaku ++ gap ++ (d :: num) ++ ws ++ yen ++ post) n None)
  = Some (Some (d :: num)).
Proof.
  intros Hgap Hd Hnum Hws.
  assert (Hd_c : digit_or_comma d = true).
  { unfold digit_or_comma, cls_or. rewrite Hd. reflexivity. }
  set (R3 := Seq (Star space) (Seq (Lit yen) Eps)).
  set (R2 := Seq (Group (Seq (Cls digit_or_comma) (Star digit_or_comma))) R3).
  (* after the number *)
  assert (H3 : forall p cap,
             m R3 accept (MState (ws ++ yen ++ post) p cap) = Some cap).
  { intros p cap. unfold R3.
    change (m (Seq (Star space) (Seq (Lit yen) Eps)) accept
              (MState (ws ++ yen ++ post) p cap))
      with (star space (m (Seq (Lit yen) Eps) accept) (ws ++ yen ++ post)
              p cap).
    assert (Hk : forall q,
               m (Seq (Lit yen) Eps) accept (MState (yen ++ post) q cap)
               = Some cap).
    { intros q.
      change (m (Seq (Lit yen) Eps) accept (MState (yen ++ post) q cap))
        with (m (Lit yen) (m Eps accept) (MState (yen ++ post) q cap)).
      rewrite m_Lit. reflexivity. }
    rewrite star_run; [apply Hk|exact Hws|reflexivity|rewrite Hk; discriminate]. }
  (* the number *)
  assert (H2 : forall p,
             m R2 accept (MState ((d :: num) ++ ws ++ yen ++ post) p None)
             = Some (Some (d :: num))).
  { intros p. unfold R2.
    cbn [m rest pos cap app]. rewrite Hd_c.
    rewrite star_run.
    - cbn [rest pos]. rewrite H3. do 2 f_equal.
      replace (length num + S p - p) with (S (length num)) by lia.
      cbn [firstn]. f_equal. rewrite firstn_app, firstn_all, Nat.sub_diag.
      cbn [firstn]. apply app_nil_r.
    - exact Hnum.
    - change (yen ++ post) with (20870%N :: post).
      apply head_not_in_class;
        [exact space_not_digit_or_comma|reflexivity|exact Hws].
    - cbn [rest pos]. rewrite H3. discriminate. }
  unfold priceMatch3_re, Cat, Plus. fold R3. fold R2.
  rewrite m_Seq, m_Lit, m_Seq, m_Star. cbn [rest pos cap].
  rewrite star_run.
  - apply H2.
  - exact Hgap.
  - cbn [app]. unfold cls_not. rewrite Hd. reflexivity.
  - rewrite H2. discriminate.
Qed.

End LabelFacts.

(* ------------------------------------------------------------------ *)
(** * NAV Extractor *)

Section NavFacts.

Import Js Regex StockApi Spec.

(** The loop leaves [price] alone until a match yields a positive number. *)
Lemma firstPositive_firstSome (price : Q) (matches : list (option (option str))) :
  firstPositive price matches
  = match firstSome (map matchValue matches) with
    | Some v => v
    | None => price
    end.
Proof.
  induction matches as [|mt rest IH]; [reflexivity|].
  destruct mt as [[[|c g]|]|];
    cbn [firstPositive map firstSome matchValue]; try exact IH.
  destruct (parseFloat (stripCommas (c :: g))) as [x|]; [|exact IH].
  destruct (Num.gtb x 0); [reflexivity|exact IH].
Qed.

Lemma matchValue_pos (mt : option (option str)) (v : Q) :
  matchValue mt = Some v -> 0 < v.
Proof.
  destruct mt as [[[|c g]|]|]; cbn [matchValue]; try discriminate.
  destruct (parseFloat (stripCommas (c :: g))) as [x|]; [|discriminate].
  destruct (Num.gtb x 0) eqn:E; [|discriminate].
  intros H; injection H as <-. apply gtb_pos, E.
Qed.

Lemma firstSome_In (A : Type) (l : list (option A)) (v : A) :
  firstSome l = Some v -> In (Some v) l.
Proof.
  induction l as [|[a|] l IH]; simpl; intros H.
  - discriminate.
  - left. exact H.
  - right. exact (IH H).
Qed.

Lemma firstSome_None (A : Type) (l : list (option A)) :
  firstSome l = None <-> (forall o, In o l -> o = None).
Proof.
  induction l as [|[a|] l IH]; simpl.
  - split; [intros _ o []|reflexivity].
  - split; [discriminate|]. intros H. exact (H (Some a) (or_introl eq_refl)).
  - rewrite IH. split.
    + intros H o [<-|Ho]; [reflexivity|exact (H o Ho)].
    + intros H o Ho. exact (H o (or_intror Ho)).
Qed.

Lemma extractNAV_firstSome (html : str) :
  extractNAV html = firstSome (map (patternValue html) navPatterns).
Proof.
  unfold extractNAV. rewrite firstPositive_firstSome, map_map.
  fold (patternValue html).
  change (fun x : re => matchValue (exec x html)) with (patternValue html).
  destruct (firstSome (map (patternValue html) navPatterns)) as [v|] eqn:E.
  - apply firstSome_In in E. apply in_map_iff in E.
    destruct E as (r & Hr & _). apply matchValue_pos in Hr.
    destruct (Qeq_bool v 0) eqn:Ez; [|reflexivity].
    apply Qeq_bool_iff in Ez. rewrite Ez in Hr.
    exfalso. apply (Qlt_irrefl 0 Hr).
  - reflexivity.
Qed.

(** Content that an earlier pattern matches takes precedence over the
    labelled text, and a first match that parses to zero is passed over. *)
Example extractNAV_earlier_pattern_wins :
  extractNAV
    ($"<span class=" ++ [quote] ++ $"_StyledNumber_" ++ [quote]
       ++ $">9,876</span>" ++ labelledNavText) = Some 9876
  /\ extractNAV
       ($"<span class=" ++ [quote] ++ $"_StyledNumber_" ++ [quote]
          ++ $">0</span>" ++ labelledNavText) = Some 12345.
Proof. split; vm_compute; reflexivity. Qed.

(** [fetchMutualFundNAV] answers [null] exactly when the response is
    missing or the extractor finds nothing. *)
Lemma fetchMutualFundNAV_price (answer : Http str) (fundCode : jsstring) :
  option_map sq_price (fetchMutualFundNAV answer fundCode)
  = match answer with
    | Body html => extractNAV html
    | _ => None
    end.
Proof.
  destruct answer as [| |html]; simpl; try reflexivity.
  destruct (extractNAV html); reflexivity.
Qed.

End NavFacts.

(* ------------------------------------------------------------------ *)
(** * Valuation Engine: per-holding valuation *)

Section ValuationFacts.

Import Js Calculations Spec.

Lemma calculateHoldingsValue_from_fst (hs : list Holding) (prices : PriceMap)
  (rate : Q) :
  forall total,
    fst (calculateHoldingsValue_from total hs prices rate)
    = map (enrich prices) hs.
Proof.
  induction hs as [|h hs IH]; intros total; simpl; [reflexivity|].
  specialize (IH (total + holdingValueJPY prices rate h)).
  destruct (calculateHoldingsValue_from _ hs prices rate) as [es t].
  simpl in *. rewrite IH. reflexivity.
Qed.

Lemma calculateHoldingsValue_fst (hs : list Holding) (prices : PriceMap)
  (rate : Q) :
  fst (calculateHoldingsValue hs prices rate) = map (enrich prices) hs.
Proof. apply calculateHoldingsValue_from_fst. Qed.

Lemma enrich_valuedAs (prices : PriceMap) (h : Holding) :
  valuedAs h (enrich prices h).
Proof.
  unfold valuedAs, enrich. cbn [currentPrice totalValue unrealizedPL
                                 unrealizedPLPercent].
  do 4 eexists. do 5 (split; [reflexivity|]).
  split; [ring|]. split; intros H.
  - apply gtb_pos in H. rewrite H. reflexivity.
  - destruct (Num.gtb (avgCost h * quantity h) 0) eqn:E; [|reflexivity].
    apply gtb_pos in E. contradiction.
Qed.

(** The second scenario: 182.5 * 50 * 150 = 1368750 JPY. *)
Example usd_holding_converted :
  snd (calculateHoldingsValue [apple] appleQuote 150) == 1368750.
Proof. vm_compute. reflexivity. Qed.

(** Step 8 of the route recomputes the four fields.  The first three are
    the Valuation Engine's; the percentage is guarded by [avgCost > 0]
    instead of [avgCost * quantity > 0], which is the same guard, and the
    same value, when the quantity is positive. *)
Lemma route_step8_valuation (prices : PriceMap) (h : Holding) :
  0 < quantity h -> valuedAs h (Route.withPrices prices h).
Proof.
  intros Hq. unfold valuedAs, Route.withPrices.
  cbn [currentPrice totalValue unrealizedPL unrealizedPLPercent].
  assert (Hqn : ~ quantity h == 0).
  { intros E. rewrite E in Hq. apply (Qlt_irrefl 0 Hq). }
  do 4 eexists. do 6 (split; [reflexivity|]).
  split; intros H.
  - assert (Ha : 0 < avgCost h).
    { destruct (Qlt_le_dec 0 (avgCost h)) as [Hlt|Hle]; [exact Hlt|].
      exfalso. apply (Qlt_not_le _ _ H).
      apply Qle_trans with (0 * quantity h).
      - apply Qmult_le_compat_r; [exact Hle|apply Qlt_le_weak, Hq].
      - rewrite Qmult_0_l. apply Qle_refl. }
    apply gtb_pos in Ha as Hb. rewrite Hb. field. split; [exact Hqn|].
    intros E. rewrite E in Ha. apply (Qlt_irrefl 0 Ha).
  - destruct (Num.gtb (avgCost h) 0) eqn:E; [|reflexivity].
    apply gtb_pos in E. exfalso. apply H.
    apply Qle_lt_trans with (0 * quantity h).
    + rewrite Qmult_0_l. apply Qle_refl.
    + apply Qmult_lt_compat_r; assumption.
Qed.

(** With a quantity of zero the two guards differ: the Valuation Engine
    reports 0 percent, step 8 of the route 100 percent. *)
Example route_step8_percent_at_zero_quantity :
  let h := mkHolding $"3" $"9984.T" $"SoftBank" $"domestic_stock" 0 100 $"JPY"
             $"specific" $"2024-03-10" None None None None None None in
  let prices := [($"9984.T", mkPrice 200 $"JPY")] in
  unrealizedPLPercent (enrich prices h) = Some 0
  /\ holds (unrealizedPLPercent (Route.withPrices prices h)) 100.
Proof. vm_compute. split; reflexivity. Qed.

Lemma priceOrCost_zeroOrAbsent (P P' : PriceMap) (h : Holding) :
  zeroOrAbsent P P' h -> priceOrCost P h = priceOrCost P' h.
Proof.
  unfold zeroOrAbsent, priceOrCost.
  intros [->|[(q & -> & Hq) ->]]; [reflexivity|].
  simpl. unfold Num.or, Num.truthy.
  apply Qeq_bool_iff in Hq. rewrite Hq. reflexivity.
Qed.

Lemma calculateHoldingsValue_from_ext (P P' : PriceMap) (rate : Q)
  (hs : list Holding) :
  (forall h, In h hs -> priceOrCost P h = priceOrCost P' h) ->
  forall total,
    calculateHoldingsValue_from total hs P rate
    = calculateHoldingsValue_from total hs P' rate.
Proof.
  induction hs as [|h hs IH]; intros H total; simpl; [reflexivity|].
  unfold holdingValueJPY, enrich.
  rewrite (H h (or_introl eq_refl)).
  rewrite IH; [reflexivity|]. intros h' Hh'. apply H. right. exact Hh'.
Qed.

Lemma withPrices_ext (P P' : PriceMap) (h : Holding) :
  priceOrCost P h = priceOrCost P' h ->
  Route.withPrices P h = Route.withPrices P' h.
Proof. unfold Route.withPrices. intros ->. reflexivity. Qed.

(** C10.  A holding whose quote has price 0 is valued exactly as if the
    quote map had no entry for it: the current price is the average cost
    in both cases, in the Valuation Engine and in the route's step 8. *)
Theorem zero_price_valued_as_absent :
  forall (hs : list Holding) (P P' : PriceMap) (rate : Q),
    (forall h, In h hs -> zeroOrAbsent P P' h) ->
    calculateHoldingsValue hs P rate = calculateHoldingsValue hs P' rate
    /\ map (Route.withPrices P) hs = map (Route.withPrices P') hs
    /\ (forall h q,
          In h hs -> JsMap.get (symbol h) P = Some q -> price q == 0 ->
          currentPrice (enrich P h) = Some (avgCost h)
          /\ currentPrice (Route.withPrices P h) = Some (avgCost h)).
Proof.
  intros hs P P' rate H.
  assert (Hp : forall h, In h hs -> priceOrCost P h = priceOrCost P' h).
  { intros h Hh. apply priceOrCost_zeroOrAbsent, H, Hh. }
  split; [|split].
  - apply calculateHoldingsValue_from_ext, Hp.
  - apply map_ext_in. intros h Hh. apply withPrices_ext, Hp, Hh.
  - intros h q _ Hg Hq. unfold enrich, Route.withPrices, priceOrCost.
    cbn [currentPrice]. rewrite Hg. simpl. unfold Num.or, Num.truthy.
    apply Qeq_bool_iff in Hq. rewrite Hq. split; reflexivity.
Qed.

Lemma zero_price_valued_as_absent_witness :
  calculateHoldingsValue [toyota] [($"7203.T", mkPrice 0 $"JPY")] 150
  = calculateHoldingsValue [toyota] [] 150.
Proof.
  apply (@zero_price_valued_as_absent [toyota]
           [($"7203.T", mkPrice 0 $"JPY")] [] 150).
  intros h [<-|[]]. right. split; [|reflexivity].
  exists (mkPrice 0 $"JPY"). split; reflexivity.
Defined.

End ValuationFacts.

(* ------------------------------------------------------------------ *)
(** * Day change per holding (third revision of the route) *)

Section DayChangeFacts.

Import Js Calculations Spec Route.


Lemma zero_change_percent (cp : Q) :
  (if Num.gtb cp 0 then (cp - cp) / cp * 100 else 0) == 0.
Proof.
  destruct (Num.gtb cp 0) eqn:E; [|reflexivity].
  apply gtb_pos in E. field. intros H. rewrite H in E.
  apply (Qlt_irrefl 0 E).
Qed.


(** Quoted at 2856 after a close of 2800, 100 units gain 5600 on the day;
    without a previous close the day change is zero. *)
Example day_change_of_example_holding :
  map dayChange
    (V3.holdingsWithPrices [toyota] toyotaQuote toyotaPreviousClose 150)
  = [Some 5600]
  /\ map dayChange (V3.holdingsWithPrices [toyota] toyotaQuote [] 150)
     = [Some 0].
Proof. vm_compute. split; reflexivity. Qed.

(** The providers fall back the same way: a chart without a previous
    close reports the current price as the previous close, and a fund page
    without a 前日比 field reports a change of zero. *)
Lemma fetchStockPriceV8_no_previous_close (c : StockApi.Chart)
  (sym : jsstring) :
  StockApi.meta_previousClose c = None -> StockApi.closes c = [] ->
  exists q,
    StockApi.fetchStockPriceV8 (Body (StockApi.Result c)) sym = Some q
    /\ StockApi.sq_previousClose q = Some (StockApi.sq_price q)
    /\ holds (StockApi.sq_change q) 0.
Proof.
  intros Hp Hc. unfold StockApi.fetchStockPriceV8. rewrite Hp, Hc.
  eexists. split; [reflexivity|]. cbn. split; [reflexivity|]. ring.
Qed.

Lemma fetchMutualFundNAV_no_change_field (html : Js.str) (code : jsstring)
  (q : StockApi.StockQuote) :
  Regex.exec StockApi.changeMatch_re html = None ->
  StockApi.fetchMutualFundNAV (Body html) code = Some q ->
  StockApi.sq_change q = Some 0
  /\ holds (StockApi.sq_previousClose q) (StockApi.sq_price q).
Proof.
  intros Hc. unfold StockApi.fetchMutualFundNAV. rewrite Hc.
  destruct (StockApi.extractNAV html) as [p|]; [|discriminate].
  intros H; injection H as <-. cbn. split; [reflexivity|]. ring.
Qed.

End DayChangeFacts.

(* ------------------------------------------------------------------ *)
(** * Exchange-Rate Resolver *)

Section ExchangeRateFacts.

Import Js ExchangeRate.

(** Every failure of the primary provider hands over to the secondary. *)
Lemma primary_failure_falls_through (primary secondary : Http RateBody) :
  PrimaryFails primary ->
  fetchUsdJpyRate primary secondary = fetchFromAlternativeApi secondary.
Proof.
  intros H. destruct H as [| | |s d|r d|s r d Hz]; simpl; try reflexivity.
  - destruct r; reflexivity.
  - rewrite (truthy_zero Hz), andb_false_r. reflexivity.
Qed.

Lemma secondary_failure_is_null (secondary : Http RateBody) :
  SecondaryFails secondary -> fetchFromAlternativeApi secondary = None.
Proof.
  intros H. destruct H as [| | |s d|s r d Hz]; simpl; try reflexivity.
  rewrite (truthy_zero Hz). reflexivity.
Qed.

(** C5.  When the primary provider fails (network error, non-success
    status, malformed payload, missing currency field, falsy success flag or
    zero rate) the secondary is consulted: if it delivers a rate, that rate
    is the result, tagged [frankfurter.app]; if it fails too, the result is
    150 tagged [default].  A primary that delivers is not overridden. *)
Theorem exchange_rate_fallback_chain :
  (forall primary secondary,
      PrimaryFails primary ->
      fetchUsdJpyRate primary secondary = fetchFromAlternativeApi secondary)
  /\ (forall primary s r d,
        PrimaryFails primary -> ~ r == 0 ->
        fetchUsdJpyRate primary (Body (Payload s (Some r) d))
        = Some (mkRate r d $"frankfurter.app")
        /\ resolveRate primary (Body (Payload s (Some r) d))
           = (r, $"frankfurter.app"))
  /\ (forall primary secondary,
        PrimaryFails primary -> SecondaryFails secondary ->
        fetchUsdJpyRate primary secondary = None
        /\ resolveRate primary secondary = (150, $"default"))
  /\ (forall secondary r d,
        ~ r == 0 ->
        resolveRate (Body (Payload true (Some r) d)) secondary
        = (r, $"exchangerate.host")).
Proof.
  split; [|split; [|split]].
  - exact primary_failure_falls_through.
  - intros primary s r d Hp Hr. unfold resolveRate.
    rewrite (primary_failure_falls_through _ Hp). simpl.
    rewrite (truthy_nonzero Hr). split; reflexivity.
  - intros primary secondary Hp Hs. unfold resolveRate.
    rewrite (primary_failure_falls_through _ Hp).
    rewrite (secondary_failure_is_null Hs). split; reflexivity.
  - intros secondary r d Hr. unfold resolveRate. simpl.
    rewrite (truthy_nonzero Hr). reflexivity.
Qed.

Lemma exchange_rate_fallback_chain_witness :
  resolveRate NetworkError (Body (Payload false (Some (1495 # 10)) $"2024-05-01"))
  = (1495 # 10, $"frankfurter.app")
  /\ resolveRate NotOk (Body Malformed) = (150, $"default").
Proof.
  destruct exchange_rate_fallback_chain as (_ & H2 & H3 & _). split.
  - apply (H2 NetworkError false (1495 # 10) $"2024-05-01" pf_network).
    intros H; discriminate H.
  - apply (H3 NotOk (Body Malformed) pf_status sf_malformed).
Defined.

End ExchangeRateFacts.

(* ------------------------------------------------------------------ *)
(** * The response of the route *)

Section ResponseFacts.

Import Js Calculations Spec Route.

Lemma snapshot_valid (w : World) (hs : list Holding) (prices : PriceMap)
  (priceSrc : jsstring) (previousPrices : PriceMap)
  (step8 : Holding -> Holding) (transactions : list Transaction) :
  hs <> [] ->
  (forall h, valued (step8 h)) ->
  validSnapshot (length hs)
    (snapshot w hs prices priceSrc previousPrices step8 transactions).
Proof.
  intros Hne Hstep. unfold snapshot.
  destruct (ExchangeRate.resolveRate (primaryRate w) (secondaryRate w))
    as [usdJpyRate exchangeRateSrc].
  pose proof (calculateHoldingsValue_fst hs prices usdJpyRate) as Hfst.
  destruct (calculateHoldingsValue hs prices usdJpyRate)
    as [enrichedHoldings totalJPY].
  simpl in Hfst. subst enrichedHoldings.
  unfold validSnapshot.
  cbn [status error holdings summary categories exchangeRate
         exchangeRateSource priceSource totalValueJPY source].
  split; [reflexivity|]. split; [reflexivity|].
  split; [now rewrite !length_map|].
  split; [apply Forall_forall; intros h Hh; apply in_map_iff in Hh;
          destruct Hh as (h' & <- & _); apply Hstep|].
  split.
  - intros H0. apply length_zero_iff_nil in H0. contradiction.
  - intros _. repeat split; discriminate.
Qed.

Lemma withPrices_valued (prices : PriceMap) (h : Holding) :
  valued (withPrices prices h).
Proof. unfold valued, withPrices; simpl. repeat split; discriminate. Qed.

Lemma errorResponse_payload (e : Thrown) :
  errorPayload (errorResponse e) (messageOf e).
Proof. unfold errorPayload, errorResponse; simpl. repeat split. Qed.

Lemma emptyResponse_valid : validSnapshot 0 emptyResponse.
Proof.
  unfold validSnapshot, emptyResponse; simpl.
  split; [reflexivity|]. split; [reflexivity|]. split; [reflexivity|].
  split; [constructor|]. split.
  - intros _. repeat split.
  - intros H. contradiction.
Qed.

Lemma V1_GET_returns (w : World) (hs : list Holding) :
  getHoldings w = Returns hs -> validSnapshot (length hs) (V1.GET w).
Proof.
  intros H. unfold V1.GET. rewrite H.
  destruct hs as [|h hs]; [exact emptyResponse_valid|].
  destruct (V1.resolvePrices w (map toHolding (h :: hs))) as [prices src].
  rewrite <- (length_map toHolding (h :: hs)).
  apply snapshot_valid; [discriminate|apply withPrices_valued].
Qed.

Lemma V2_GET_returns (w : World) (hs : list Holding) :
  getHoldings w = Returns hs -> validSnapshot (length hs) (V2.GET w).
Proof.
  intros H. unfold V2.GET. rewrite H.
  destruct hs as [|h hs]; [exact emptyResponse_valid|].
  destruct (V2.resolvePrices w (map toHolding (h :: hs))) as [qs src].
  rewrite <- (length_map toHolding (h :: hs)).
  apply snapshot_valid; [discriminate|apply withPrices_valued].
Qed.

(** C8.  The route always answers.  When reading the holdings from the
    store throws, the one failure nothing recovers from, the answer is the
    error payload: status 500, the error message, no holdings, no
    categories, a null summary and the exchange rate 150.  In every other
    case it is a structurally valid snapshot with a success status and no
    error field, whatever the quote providers, the rate providers and the
    price cache do. *)
Theorem total_failure_yields_error_payload :
  (forall w e,
      getHoldings w = Throws e ->
      errorPayload (V1.GET w) (messageOf e)
      /\ errorPayload (V2.GET w) (messageOf e))
  /\ (forall w hs,
        getHoldings w = Returns hs ->
        validSnapshot (length hs) (V1.GET w)
        /\ validSnapshot (length hs) (V2.GET w))
  /\ (forall w,
        (error (V1.GET w) <> None <-> exists e, getHoldings w = Throws e)
        /\ (error (V2.GET w) <> None <-> exists e, getHoldings w = Throws e)).
Proof.
  split; [|split].
  - intros w e H. unfold V1.GET, V2.GET. rewrite H.
    split; apply errorResponse_payload.
  - intros w hs H. split; [apply V1_GET_returns|apply V2_GET_returns]; exact H.
  - intros w. destruct (getHoldings w) as [hs|e] eqn:H.
    + pose proof (V1_GET_returns w H) as (_ & E1 & _).
      pose proof (V2_GET_returns w H) as (_ & E2 & _).
      rewrite E1, E2.
      split; (split; [intros C; congruence|intros [e C]; discriminate]).
    + unfold V1.GET, V2.GET. rewrite H. simpl.
      split; (split; [intros _; eauto|intros _; discriminate]).
Qed.

Lemma total_failure_yields_error_payload_witness :
  errorPayload (V1.GET storeDown) $"store unreachable"
  /\ validSnapshot 1 (V2.GET quoted).
Proof.
  destruct total_failure_yields_error_payload as (H1 & H2 & _). split.
  - apply (H1 storeDown (ErrorWith $"store unreachable")). reflexivity.
  - apply (H2 quoted [toyota]). reflexivity.
Defined.

(** The end-to-end scenario through the route: the holding of 100 units at
    2400 JPY, quoted at 2856, comes back valued at 285600 with a gain of
    45600, 19 percent, from the live tier and at the default rate. *)
Example route_end_to_end :
  exists e,
    holdings (V2.GET quoted) = [e]
    /\ holds (totalValue e) 285600
    /\ holds (unrealizedPL e) 45600
    /\ holds (unrealizedPLPercent e) 19
    /\ priceSource (V2.GET quoted) = Some $"yahoo_finance"
    /\ exchangeRate (V2.GET quoted) = 150
    /\ exchangeRateSource (V2.GET quoted) = Some $"default".
Proof.
  eexists. split; [vm_compute; reflexivity|].
  vm_compute. repeat split; reflexivity.
Qed.

End ResponseFacts.

(* ------------------------------------------------------------------ *)
(** * Degradation Controller: coverage of the quote map *)

Section MapFacts.

Variable V : Type.

Lemma get_set_same (k : jsstring) (v : V) (mp : JsMap.t V) :
  JsMap.get k (JsMap.set k v mp) = Some v.
Proof.
  induction mp as [|[k' v'] mp IH]; simpl.
  - rewrite str_eqb_refl. reflexivity.
  - destruct (Js.str_eqb k' k) eqn:E; simpl; rewrite E; auto.
Qed.

Lemma get_set_other (k k' : jsstring) (v : V) (mp : JsMap.t V) :
  k <> k' -> JsMap.get k' (JsMap.set k v mp) = JsMap.get k' mp.
Proof.
  intros Hne. induction mp as [|[k0 v0] mp IH]; simpl.
  - destruct (str_eqb_spec k k'); [contradiction|reflexivity].
  - destruct (str_eqb_spec k0 k) as [->|Hk]; simpl.
    + destruct (str_eqb_spec k k'); [contradiction|reflexivity].
    + destruct (Js.str_eqb k0 k'); [reflexivity|exact IH].
Qed.



End MapFacts.

Section CoverageFacts.

Import Js Calculations Spec Route.






(** Step 6 of the second and third revision: the baseline of the
    portfolio's day change is, symbol by symbol, the previous close when the
    map has a usable one and the current price otherwise. *)
Lemma previousPrices_from_other (previousCloseMap : JsMap.t (option Q))
  (sym : jsstring) (prices : PriceMap) :
  ~ In sym (JsMap.keys prices) ->
  forall acc,
    JsMap.get sym
      (fold_left
         (fun pp (e : jsstring * PriceData) =>
            JsMap.set (fst e)
              (mkPrice
                 (Num.or_undef (V2.previousCloseOf previousCloseMap (fst e))
                    (price (snd e)))
                 (price_currency (snd e))) pp)
         prices acc)
    = JsMap.get sym acc.
Proof.
  induction prices as [|[k v] prices IH]; intros Hn acc; simpl;
    [reflexivity|].
  rewrite IH.
  - apply get_set_other. intros ->. apply Hn. left. reflexivity.
  - intros H. apply Hn. right. exact H.
Qed.

Lemma previousPrices_baseline (prices : PriceMap)
  (previousCloseMap : JsMap.t (option Q)) (sym : jsstring) (q : PriceData) :
  NoDup (JsMap.keys prices) ->
  JsMap.get sym prices = Some q ->
  JsMap.get sym (V2.previousPrices prices previousCloseMap)
  = Some (mkPrice
            (Num.or_undef (V2.previousCloseOf previousCloseMap sym) (price q))
            (price_currency q)).
Proof.
  unfold V2.previousPrices. generalize (@JsMap.empty PriceData).
  induction prices as [|[k v] prices IH]; intros acc Hnd Hget;
    [discriminate|].
  simpl in Hnd, Hget. inversion Hnd as [|? ? Hk Hnd']; subst. simpl.
  destruct (str_eqb_spec k sym) as [->|Hne].
  - injection Hget as ->.
    rewrite (previousPrices_from_other _ _ _ Hk). apply get_set_same.
  - apply IH; assumption.
Qed.

(** The first revision estimates the baseline instead: 0.998 of the
    current price, whatever the provider reported. *)
Example V1_previous_price_is_estimated :
  JsMap.get $"7203.T" (V1.previousPrices toyotaQuote)
  = Some (mkPrice (2856 * (998 # 1000)) $"JPY").
Proof. reflexivity. Qed.

(** The first revision does not patch: a holding whose fetch failed has no
    entry even though the live tier is reported. *)
Example V1_live_tier_can_miss_holding :
  V1.resolvePrices offline [toyota] = ([], $"yahoo_finance").
Proof. vm_compute. reflexivity. Qed.

End CoverageFacts.

(* ------------------------------------------------------------------ *)
(** * Valuation Engine: category percentages *)

Section CategoryFacts.

Import Js Calculations Spec.

Lemma insertByValue_perm (x : CategorySummary) (l : list CategorySummary) :
  Permutation (insertByValue x l) (x :: l).
Proof.
  induction l as [|y l IH]; simpl; [apply Permutation_refl|].
  destruct (Qle_bool (cs_value x) (cs_value y)).
  - apply perm_trans with (y :: x :: l).
    + apply perm_skip, IH.
    + apply perm_swap.
  - apply Permutation_refl.
Qed.

Lemma sort_from_perm (l : list CategorySummary) :
  forall sorted,
    Permutation (fold_left (fun acc x => insertByValue x acc) l sorted)
      (l ++ sorted).
Proof.
  induction l as [|x l IH]; intros sorted; simpl; [apply Permutation_refl|].
  apply perm_trans with (l ++ insertByValue x sorted); [apply IH|].
  apply perm_trans with (l ++ x :: sorted).
  - apply Permutation_app_head, insertByValue_perm.
  - apply Permutation_sym, Permutation_middle.
Qed.

Lemma sortByValueDesc_perm (l : list CategorySummary) :
  Permutation (sortByValueDesc l) l.
Proof.
  unfold sortByValueDesc.
  rewrite <- (app_nil_r l) at 2. apply sort_from_perm.
Qed.

Lemma sumQ_perm (l l' : list Q) : Permutation l l' -> sumQ l == sumQ l'.
Proof.
  induction 1 as [|x l l' _ IH|x y l|l l' l'' _ IH1 _ IH2]; simpl.
  - reflexivity.
  - rewrite IH. reflexivity.
  - ring.
  - rewrite IH1. exact IH2.
Qed.

(** [reduce((a, b) => a + b, init)] adds up from the left. *)
Lemma fold_left_Qplus (l : list Q) :
  forall init, fold_left Qplus l init == init + sumQ l.
Proof.
  induction l as [|x l IH]; intros init; simpl.
  - ring.
  - rewrite IH. ring.
Qed.

Lemma grandTotalOf_sumQ (totals : JsMap.t Q) :
  grandTotalOf totals == sumQ (JsMap.values totals).
Proof. unfold grandTotalOf. rewrite fold_left_Qplus. ring. Qed.

Lemma summarize_value (g : Q) (totals : JsMap.t Q) :
  map cs_value (map (summarize g) totals) = JsMap.values totals.
Proof.
  unfold JsMap.values. rewrite map_map. apply map_ext.
  intros [c v]. reflexivity.
Qed.



(** The values of the summaries add up to the grand total the code
    divides by. *)
Lemma category_values_total (hs : list Holding) (others : list OtherAsset)
  (prices : PriceMap) (rate : Q) :
  sumQ (map cs_value (generateCategorySummary hs others prices rate))
  == grandTotalOf (categoryTotals hs others prices rate).
Proof.
  unfold generateCategorySummary. cbv zeta.
  rewrite (sumQ_perm (Permutation_map cs_value (sortByValueDesc_perm _))).
  rewrite summarize_value, grandTotalOf_sumQ. reflexivity.
Qed.



End CategoryFacts.

(* ------------------------------------------------------------------ *)
(** * Maps: keys and lookups *)

Section MoreMapFacts.

Variable V : Type.

Lemma keys_set (k : jsstring) (v : V) (mp : JsMap.t V) :
  JsMap.keys (JsMap.set k v mp)
  = if JsMap.has k mp then JsMap.keys mp else JsMap.keys mp ++ [k].
Proof.
  unfold JsMap.has, JsMap.keys.
  induction mp as [|[k' v'] mp IH]; simpl; [reflexivity|].
  destruct (Js.str_eqb k' k) eqn:E; simpl; [reflexivity|].
  rewrite IH. destruct (JsMap.get k mp); reflexivity.
Qed.

Lemma has_In_keys (k : jsstring) (mp : JsMap.t V) :
  JsMap.has k mp = true <-> In k (JsMap.keys mp).
Proof.
  unfold JsMap.has, JsMap.keys.
  induction mp as [|[k' v'] mp IH]; simpl.
  - split; [discriminate|intros []].
  - destruct (str_eqb_spec k' k) as [->|Hne].
    + split; auto.
    + rewrite IH. split; [auto|]. intros [H|H]; [contradiction|exact H].
Qed.

Lemma set_NoDup (k : jsstring) (v : V) (mp : JsMap.t V) :
  NoDup (JsMap.keys mp) -> NoDup (JsMap.keys (JsMap.set k v mp)).
Proof.
  intros H. rewrite keys_set. destruct (JsMap.has k mp) eqn:E; [exact H|].
  apply NoDup_app; [exact H|repeat constructor; intros []|].
  intros x Hx [<-|[]]. apply has_In_keys in Hx. congruence.
Qed.

Lemma get_In (k : jsstring) (v : V) (mp : JsMap.t V) :
  JsMap.get k mp = Some v -> In (k, v) mp.
Proof.
  induction mp as [|[k' v'] mp IH]; simpl; [discriminate|].
  destruct (str_eqb_spec k' k) as [->|Hne].
  - intros H; injection H as ->. left. reflexivity.
  - intros H. right. exact (IH H).
Qed.

Lemma In_get (k : jsstring) (v : V) (mp : JsMap.t V) :
  NoDup (JsMap.keys mp) -> In (k, v) mp -> JsMap.get k mp = Some v.
Proof.
  unfold JsMap.keys.
  induction mp as [|[k' v'] mp IH]; simpl; intros Hnd Hin; [contradiction|].
  inversion Hnd as [|? ? Hk Hnd']; subst.
  destruct Hin as [E|Hin].
  - injection E as -> ->. rewrite str_eqb_refl. reflexivity.
  - destruct (str_eqb_spec k' k) as [->|Hne]; [|exact (IH Hnd' Hin)].
    exfalso. apply Hk. apply in_map_iff. exists (k, v). split; auto.
Qed.

Lemma get_None_keys (k : jsstring) (mp : JsMap.t V) :
  JsMap.get k mp = None <-> ~ In k (JsMap.keys mp).
Proof.
  rewrite <- has_In_keys. unfold JsMap.has.
  destruct (JsMap.get k mp); split; intros H; congruence.
Qed.

End MoreMapFacts.

(* ------------------------------------------------------------------ *)
(** * Quote Fetcher: batching and the result map *)

Section BatchFacts.

Import Js StockApi Props.
Local Open Scope nat_scope.

Lemma batches_fuel_concat (n : nat) :
  0 < n ->
  forall fuel l, length l <= fuel -> concat (batches_fuel fuel n l) = l.
Proof.
  intros Hn. induction fuel as [|fuel IH]; intros l Hl.
  - destruct l; [reflexivity|simpl in Hl; lia].
  - destruct l as [|x l]; [reflexivity|].
    cbn [batches_fuel concat]. rewrite IH.
    + apply firstn_skipn.
    + rewrite length_skipn. cbn [length] in *. lia.
Qed.

Lemma batches_fuel_bounds (n : nat) :
  0 < n ->
  forall fuel l,
    Forall (fun b => 1 <= length b <= n) (batches_fuel fuel n l).
Proof.
  intros Hn. induction fuel as [|fuel IH]; intros l; [constructor|].
  destruct l as [|x l]; [constructor|].
  cbn [batches_fuel]. constructor; [|apply IH].
  rewrite length_firstn. simpl length. lia.
Qed.

Lemma batches_fuel_full (n : nat) :
  0 < n ->
  forall fuel l b rest,
    length l <= fuel ->
    batches_fuel fuel n l = b :: rest -> rest <> [] -> length b = n.
Proof.
  intros Hn fuel l b rest Hl H Hrest.
  destruct fuel as [|fuel]; [discriminate|].
  destruct l as [|x l]; [discriminate|].
  cbn [batches_fuel] in H. injection H as <- <-.
  rewrite length_firstn. apply Nat.min_l.
  destruct (Nat.le_gt_cases n (length (x :: l))) as [Hle|Hgt]; [exact Hle|].
  exfalso. apply Hrest. rewrite skipn_all2 by lia.
  destruct fuel; reflexivity.
Qed.

Lemma batches_concat (n : nat) (l : list jsstring) :
  0 < n -> concat (batches n l) = l.
Proof.
  intros Hn. apply batches_fuel_concat; [exact Hn|apply Nat.le_refl].
Qed.

(** X1.  The batches of a list, for a positive batch size, are the list cut
    into consecutive pieces: put together they give the list back, no
    batch is empty or longer than the batch size, and a batch that is not
    the last is full. *)
Theorem batches_partition :
  forall (n : nat) (l : list jsstring),
    0 < n ->
    concat (batches n l) = l
    /\ Forall (fun b => 1 <= length b <= n) (batches n l)
    /\ (forall pre b post,
          batches n l = pre ++ b :: post -> post <> [] -> length b = n).
Proof.
  intros n l Hn. unfold batches. split; [|split].
  - apply batches_concat, Hn.
  - apply batches_fuel_bounds, Hn.
  - generalize (Nat.le_refl (length l)).
    generalize (length l) at 2 3 as fuel.
    intros fuel. revert l.
    induction fuel as [|fuel IH]; intros l Hl pre b post H Hpost.
    + destruct pre; discriminate.
    + destruct pre as [|p pre].
      * exact (batches_fuel_full Hn _ Hl H Hpost).
      * destruct l as [|x l]; [discriminate|].
        cbn [batches_fuel app] in H. injection H as _ H.
        apply (IH (skipn n (x :: l))) with (pre := pre) (post := post);
          [|exact H|exact Hpost].
        rewrite length_skipn. cbn [length] in *. lia.
Qed.

Lemma batches_partition_witness :
  concat (batches 5 [$"a"; $"b"; $"c"; $"d"; $"e"; $"f"; $"g"])
  = [$"a"; $"b"; $"c"; $"d"; $"e"; $"f"; $"g"].
Proof.
  apply (@batches_partition 5 [$"a"; $"b"; $"c"; $"d"; $"e"; $"f"; $"g"]).
  lia.
Defined.

End BatchFacts.

(* ------------------------------------------------------------------ *)
(** * Quote Fetcher: the map of quotes *)

Section FetchMapFacts.

Import Js StockApi Props.

Lemma mem_In (x : jsstring) (l : list jsstring) : mem x l = true <-> In x l.
Proof.
  unfold mem. rewrite existsb_exists. split.
  - intros (y & Hy & E). destruct (str_eqb_spec x y); [subst; exact Hy|discriminate].
  - intros H. exists x. split; [exact H|apply str_eqb_refl].
Qed.

Lemma mem_app (x : jsstring) (l l' : list jsstring) :
  mem x (l ++ l') = mem x l || mem x l'.
Proof. apply existsb_app. Qed.

(** The requests of a batch run one after the other into the map. *)
Lemma fetchBatch_app (fetch : jsstring -> option StockQuote)
  (results : JsMap.t StockQuote) (l l' : list jsstring) :
  fetchBatch fetch results (l ++ l')
  = fetchBatch fetch (fetchBatch fetch results l) l'.
Proof. unfold fetchBatch. rewrite map_app, fold_left_app. reflexivity. Qed.

Lemma fetchBatch_batches (fetch : jsstring -> option StockQuote)
  (bs : list (list jsstring)) :
  forall results,
    fold_left (fetchBatch fetch) bs results
    = fetchBatch fetch results (concat bs).
Proof.
  induction bs as [|b bs IH]; intros results; simpl; [reflexivity|].
  rewrite IH, fetchBatch_app. reflexivity.
Qed.

Lemma get_fetchBatch (fetch : jsstring -> option StockQuote) (s : jsstring) :
  (forall x q, fetch x = Some q -> sq_symbol q = x) ->
  forall l results,
    JsMap.get s (fetchBatch fetch results l)
    = if mem s l
      then match fetch s with
           | Some q => Some q
           | None => JsMap.get s results
           end
      else JsMap.get s results.
Proof.
  intros Hsym. unfold fetchBatch.
  induction l as [|x l IH]; intros results; [reflexivity|].
  cbn [map fold_left mem existsb]. fold (mem s l). rewrite IH.
  destruct (str_eqb_spec s x) as [<-|Hne]; cbn [orb].
  - destruct (fetch s) as [q|] eqn:E.
    + rewrite (Hsym _ _ E), get_set_same. destruct (mem s l); reflexivity.
    + destruct (mem s l); reflexivity.
  - assert (Hx : JsMap.get s
                   match fetch x with
                   | Some q => JsMap.set (sq_symbol q) q results
                   | None => results
                   end = JsMap.get s results).
    { destruct (fetch x) as [q|] eqn:E; [|reflexivity].
      rewrite (Hsym _ _ E). apply get_set_other. congruence. }
    rewrite Hx. reflexivity.
Qed.

Lemma fetchBatch_NoDup (fetch : jsstring -> option StockQuote) :
  forall l results,
    NoDup (JsMap.keys results) ->
    NoDup (JsMap.keys (fetchBatch fetch results l)).
Proof.
  unfold fetchBatch.
  induction l as [|x l IH]; intros results H; [exact H|].
  cbn [map fold_left]. apply IH.
  destruct (fetch x); [apply set_NoDup, H|exact H].
Qed.

Lemma fetchStockPriceV8_symbol (answer : Http ChartBody) (x : jsstring)
  (q : StockQuote) :
  fetchStockPriceV8 answer x = Some q -> sq_symbol q = x.
Proof.
  destruct answer as [| |[| |c]]; simpl; try discriminate.
  intros H; injection H as <-. reflexivity.
Qed.

Lemma fetchMutualFundNAV_symbol (answer : Http str) (x : jsstring)
  (q : StockQuote) :
  fetchMutualFundNAV answer x = Some q -> sq_symbol q = x.
Proof.
  destruct answer as [| |html]; simpl; try discriminate.
  destruct (extractNAV html); [|discriminate].
  intros H; injection H as <-. reflexivity.
Qed.

Lemma mem_filter (f : jsstring -> bool) (s : jsstring) (l : list jsstring) :
  mem s (filter f l) = mem s l && f s.
Proof.
  destruct (mem s (filter f l)) eqn:E.
  - apply mem_In, filter_In in E. destruct E as [Hin Hf].
    apply mem_In in Hin. rewrite Hin, Hf. reflexivity.
  - destruct (mem s l) eqn:El; [|reflexivity].
    destruct (f s) eqn:Ef; [|reflexivity].
    exfalso. apply mem_In in El.
    assert (H : mem s (filter f l) = true)
      by (apply mem_In, filter_In; auto).
    congruence.
Qed.

Lemma get_fetchMultipleStockPrices (net : Providers)
  (symbols : list jsstring) (s : jsstring) :
  JsMap.get s (fetchMultipleStockPrices net symbols)
  = if mem s symbols then fetchOne net s else None.
Proof.
  unfold fetchMultipleStockPrices. rewrite !fetchBatch_batches.
  rewrite !batches_concat by (unfold batchSize; lia).
  rewrite get_fetchBatch
    by (intros x q; apply fetchMutualFundNAV_symbol).
  rewrite get_fetchBatch
    by (intros x q; apply fetchStockPriceV8_symbol).
  unfold mutualFundsOf, stocksOf, fetchOne. rewrite !mem_filter.
  simpl JsMap.get.
  destruct (mem s symbols); cbn [andb]; [|reflexivity].
  destruct (isMutualFundCode s); cbn [negb].
  - destruct (fetchMutualFundNAV (fundPageOf net s) s); reflexivity.
  - destruct (fetchStockPriceV8 (chartOf net s) s); reflexivity.
Qed.

Lemma fetchMultipleStockPrices_NoDup (net : Providers)
  (symbols : list jsstring) :
  NoDup (JsMap.keys (fetchMultipleStockPrices net symbols)).
Proof.
  unfold fetchMultipleStockPrices. rewrite !fetchBatch_batches.
  apply fetchBatch_NoDup, fetchBatch_NoDup. constructor.
Qed.

Lemma fetchMultipleStockPrices_In (net : Providers)
  (symbols : list jsstring) (s : jsstring) (q : StockQuote) :
  JsMap.get s (fetchMultipleStockPrices net symbols) = Some q ->
  fetchOne net s = Some q /\ In s symbols.
Proof.
  rewrite get_fetchMultipleStockPrices.
  destruct (mem s symbols) eqn:E; [|discriminate].
  apply mem_In in E. intros H. split; assumption.
Qed.

Lemma fetchOne_symbol (net : Providers) (s : jsstring) (q : StockQuote) :
  fetchOne net s = Some q -> sq_symbol q = s.
Proof.
  unfold fetchOne. destruct (isMutualFundCode s); intros H.
  - exact (fetchMutualFundNAV_symbol _ _ H).
  - exact (fetchStockPriceV8_symbol _ _ H).
Qed.

Lemma fetchMultipleStockPrices_size (net : Providers)
  (symbols : list jsstring) :
  (JsMap.size (fetchMultipleStockPrices net symbols) <= length symbols)%nat.
Proof.
  unfold JsMap.size.
  rewrite <- (length_map fst (fetchMultipleStockPrices net symbols)).
  apply NoDup_incl_length; [apply fetchMultipleStockPrices_NoDup|].
  intros k Hk. apply has_In_keys in Hk. unfold JsMap.has in Hk.
  destruct (JsMap.get k (fetchMultipleStockPrices net symbols)) as [q|] eqn:E;
    [|discriminate].
  exact (proj2 (fetchMultipleStockPrices_In _ _ _ E)).
Qed.

(** X2.  The quote fetcher answers for exactly the requested symbols whose
    fetch succeeded: the map holds, for a requested symbol, the quote its
    own fetch returned (the fund page for a fund code, the chart otherwise)
    and nothing when that fetch failed; it holds nothing for a symbol that
    was not requested; every quote is filed under its own symbol; and the
    map is no larger than the request. *)
Theorem fetchMultipleStockPrices_result :
  forall (net : Providers) (symbols : list jsstring),
    (forall s,
        JsMap.get s (fetchMultipleStockPrices net symbols)
        = if mem s symbols then fetchOne net s else None)
    /\ (forall s q,
          JsMap.get s (fetchMultipleStockPrices net symbols) = Some q ->
          sq_symbol q = s /\ In s symbols)
    /\ NoDup (JsMap.keys (fetchMultipleStockPrices net symbols))
    /\ (JsMap.size (fetchMultipleStockPrices net symbols)
        <= length symbols)%nat.
Proof.
  intros net symbols.
  split; [apply get_fetchMultipleStockPrices|].
  split; [|split].
  - intros s q H. apply fetchMultipleStockPrices_In in H.
    destruct H as [H Hin]. split; [exact (fetchOne_symbol _ _ H)|exact Hin].
  - apply fetchMultipleStockPrices_NoDup.
  - apply fetchMultipleStockPrices_size.
Qed.

End FetchMapFacts.

(* ------------------------------------------------------------------ *)
(** * Symbol Resolver: deduplication and the reverse mapping *)

Section DedupeFacts.

Import Js StockApi Props Route.

Lemma existsb_str_eqb_In (x : jsstring) (l : list jsstring) :
  existsb (str_eqb x) l = true <-> In x l.
Proof. apply mem_In. Qed.

Lemma unique_from_In (l : list jsstring) :
  forall seen x,
    In x (V2.unique_from seen l) <-> In x l /\ ~ In x seen.
Proof.
  induction l as [|y l IH]; intros seen x; simpl; [tauto|].
  destruct (existsb (str_eqb y) seen) eqn:E.
  - apply existsb_str_eqb_In in E. rewrite IH. split.
    + intros [H1 H2]. auto.
    + intros [[<-|H1] H2]; [contradiction|auto].
  - assert (Hy : ~ In y seen).
    { intros H. apply existsb_str_eqb_In in H. congruence. }
    simpl. rewrite IH. simpl. split.
    + intros [<-|[H1 H2]]; [auto|]. split; [auto|]. intros H; apply H2; auto.
    + intros [[<-|H1] H2]; [auto|].
      destruct (str_eqb_spec y x) as [->|Hne]; [auto|].
      right. split; [exact H1|]. intros [H|H]; [contradiction|auto].
Qed.

Lemma unique_from_NoDup (l : list jsstring) :
  forall seen, NoDup (V2.unique_from seen l).
Proof.
  induction l as [|y l IH]; intros seen; simpl; [constructor|].
  destruct (existsb (str_eqb y) seen); [apply IH|].
  constructor; [|apply IH].
  rewrite unique_from_In. intros [_ H]. apply H. left. reflexivity.
Qed.

Lemma unique_from_fixed (l : list jsstring) :
  forall seen,
    NoDup l -> (forall x, In x l -> ~ In x seen) ->
    V2.unique_from seen l = l.
Proof.
  induction l as [|y l IH]; intros seen Hnd Hd; simpl; [reflexivity|].
  inversion Hnd as [|? ? Hy Hnd']; subst.
  destruct (existsb (str_eqb y) seen) eqn:E.
  - apply existsb_str_eqb_In in E. exfalso. apply (Hd y); simpl; auto.
  - f_equal. apply IH; [exact Hnd'|].
    intros x Hx [<-|H]; [contradiction|]. apply (Hd x); simpl; auto.
Qed.

Lemma fold_left_pointwise (A B : Type) (f g : A -> B -> A) (l : list B) :
  (forall a x, f a x = g a x) ->
  forall a, fold_left f l a = fold_left g l a.
Proof.
  intros H. induction l as [|x l IH]; intros a; simpl; [reflexivity|].
  rewrite H. apply IH.
Qed.

(** [symbolToNormalized]: a map whose value is a function of the key. *)
Lemma get_fold_set_fun (V : Type) (g : jsstring -> V) (l : list Holding) :
  forall (mp : JsMap.t V) (k : jsstring),
    JsMap.get k
      (fold_left (fun mp h => JsMap.set (symbol h) (g (symbol h)) mp) l mp)
    = if mem k (map symbol l) then Some (g k) else JsMap.get k mp.
Proof.
  induction l as [|h l IH]; intros mp k; [reflexivity|].
  cbn [fold_left map mem existsb]. fold (mem k (map symbol l)).
  rewrite IH. destruct (str_eqb_spec k (symbol h)) as [->|Hne]; cbn [orb].
  - rewrite get_set_same. destruct (mem _ _); reflexivity.
  - rewrite get_set_other by congruence. reflexivity.
Qed.

(** Filling the two maps from a quote that depends on the symbol only. *)
Lemma get_fold_setQuote (F : jsstring -> option StockQuote)
  (cur : StockQuote -> jsstring) (l : list Holding) :
  forall (acc : V2.Quotes) (k : jsstring),
    let result :=
      fold_left
        (fun acc h =>
           match F (symbol h) with
           | Some q => V2.setQuote (symbol h) q (cur q) acc
           | None => acc
           end) l acc in
    JsMap.get k (fst result)
    = (if mem k (map symbol l)
       then match F k with
            | Some q => Some (mkPrice (sq_price q) (cur q))
            | None => JsMap.get k (fst acc)
            end
       else JsMap.get k (fst acc))
    /\ JsMap.get k (snd result)
       = (if mem k (map symbol l)
          then match F k with
               | Some q => Some (sq_previousClose q)
               | None => JsMap.get k (snd acc)
               end
          else JsMap.get k (snd acc)).
Proof.
  induction l as [|h l IH]; intros acc k; [split; reflexivity|].
  cbn zeta. cbn [fold_left map mem existsb]. fold (mem k (map symbol l)).
  specialize (IH (match F (symbol h) with
                  | Some q => V2.setQuote (symbol h) q (cur q) acc
                  | None => acc
                  end) k).
  cbn zeta in IH. destruct IH as [IH1 IH2]. rewrite IH1, IH2. clear IH1 IH2.
  destruct (str_eqb_spec k (symbol h)) as [->|Hne]; cbn [orb].
  - destruct (F (symbol h)) as [q|]; unfold V2.setQuote; cbn [fst snd].
    + rewrite !get_set_same. destruct (mem _ _); split; reflexivity.
    + destruct (mem _ _); split; reflexivity.
  - destruct (F (symbol h)) as [q|]; unfold V2.setQuote; cbn [fst snd].
    + rewrite !get_set_other by congruence. split; reflexivity.
    + split; reflexivity.
Qed.

Lemma In_values (V : Type) (k : jsstring) (v : V) (mp : JsMap.t V) :
  JsMap.get k mp = Some v -> In v (JsMap.values mp).
Proof.
  intros H. apply get_In in H. unfold JsMap.values.
  apply in_map_iff. exists (k, v). auto.
Qed.

Lemma mem_map_symbol (h : Holding) (l : list Holding) :
  In h l -> mem (symbol h) (map symbol l) = true.
Proof. intros H. apply mem_In, in_map, H. Qed.

Lemma stockQuotesInto_get (w : World) (sh : list Holding) (qs : V2.Quotes)
  (k : jsstring) :
  let result := V2.stockQuotesInto w sh qs in
  JsMap.get k (fst result)
  = (if mem k (map symbol sh)
     then match fetchOne (net w) (V2.normalizeSymbolForPriceLookup k) with
          | Some q => Some (mkPrice (sq_price q) (sq_currency q))
          | None => JsMap.get k (fst qs)
          end
     else JsMap.get k (fst qs))
  /\ JsMap.get k (snd result)
     = (if mem k (map symbol sh)
        then match fetchOne (net w) (V2.normalizeSymbolForPriceLookup k) with
             | Some q => Some (sq_previousClose q)
             | None => JsMap.get k (snd qs)
             end
        else JsMap.get k (snd qs)).
Proof.
  cbn zeta. unfold V2.stockQuotesInto.
  destruct sh as [|h0 sh0]; [split; reflexivity|].
  set (sh := h0 :: sh0).
  set (stn := fold_left
                (fun mp h =>
                   JsMap.set (symbol h)
                     (V2.normalizeSymbolForPriceLookup (symbol h)) mp)
                sh JsMap.empty).
  set (sq := fetchMultipleStockPrices (net w)
               (V2.unique (JsMap.values stn))).
  set (F := fun s : jsstring =>
              match JsMap.get s stn with
              | Some normalized => JsMap.get normalized sq
              | None => None
              end).
  rewrite (fold_left_pointwise
             (fun acc h =>
                match JsMap.get (symbol h) stn with
                | Some normalized =>
                    match JsMap.get normalized sq with
                    | Some q =>
                        V2.setQuote (symbol h) q (sq_currency q) acc
                    | None => acc
                    end
                | None => acc
                end)
             (fun acc h =>
                match F (symbol h) with
                | Some q => V2.setQuote (symbol h) q (sq_currency q) acc
                | None => acc
                end)).
  2:{ intros a x. unfold F. destruct (JsMap.get (symbol x) stn); reflexivity. }
  destruct (get_fold_setQuote F sq_currency sh qs k) as [H1 H2].
  cbn zeta in H1, H2. rewrite H1, H2. clear H1 H2.
  destruct (mem k (map symbol sh)) eqn:Ek; [|split; reflexivity].
  assert (HF : F k = fetchOne (net w) (V2.normalizeSymbolForPriceLookup k)).
  { unfold F.
    assert (Hg : JsMap.get k stn
                 = Some (V2.normalizeSymbolForPriceLookup k)).
    { unfold stn. rewrite get_fold_set_fun, Ek. reflexivity. }
    rewrite Hg. unfold sq. rewrite get_fetchMultipleStockPrices.
    replace (mem (V2.normalizeSymbolForPriceLookup k)
               (V2.unique (JsMap.values stn))) with true; [reflexivity|].
    symmetry. apply mem_In. unfold V2.unique. apply unique_from_In.
    split; [|intros []]. exact (In_values _ _ Hg). }
  rewrite HF. split; reflexivity.
Qed.

(** X4.  After the stock step, a stock holding carries the quote fetched
    for its normalised symbol, and keeps what the maps held for it when
    that fetch failed; a symbol of no stock holding is left alone.  So two
    holdings whose symbols normalise alike (the same share at two brokers)
    receive the same quote. *)
Theorem stock_quotes_follow_normalized_symbol :
  forall (w : World) (sh : list Holding) (qs : V2.Quotes),
    (forall h, In h sh ->
       JsMap.get (symbol h) (fst (V2.stockQuotesInto w sh qs))
       = match fetchOne (net w)
                 (V2.normalizeSymbolForPriceLookup (symbol h)) with
         | Some q => Some (mkPrice (sq_price q) (sq_currency q))
         | None => JsMap.get (symbol h) (fst qs)
         end)
    /\ (forall k, ~ In k (map symbol sh) ->
          JsMap.get k (fst (V2.stockQuotesInto w sh qs))
          = JsMap.get k (fst qs))
    /\ (forall h1 h2 q,
          In h1 sh -> In h2 sh ->
          V2.normalizeSymbolForPriceLookup (symbol h1)
          = V2.normalizeSymbolForPriceLookup (symbol h2) ->
          fetchOne (net w) (V2.normalizeSymbolForPriceLookup (symbol h1))
          = Some q ->
          JsMap.get (symbol h1) (fst (V2.stockQuotesInto w sh qs))
          = Some (mkPrice (sq_price q) (sq_currency q))
          /\ JsMap.get (symbol h2) (fst (V2.stockQuotesInto w sh qs))
             = Some (mkPrice (sq_price q) (sq_currency q))).
Proof.
  intros w sh qs.
  assert (H1 : forall h, In h sh ->
     JsMap.get (symbol h) (fst (V2.stockQuotesInto w sh qs))
     = match fetchOne (net w)
               (V2.normalizeSymbolForPriceLookup (symbol h)) with
       | Some q => Some (mkPrice (sq_price q) (sq_currency q))
       | None => JsMap.get (symbol h) (fst qs)
       end).
  { intros h Hh. destruct (stockQuotesInto_get w sh qs (symbol h)) as [E _].
    cbn zeta in E. rewrite E, (mem_map_symbol _ _ Hh). reflexivity. }
  split; [exact H1|]. split.
  - intros k Hk. destruct (stockQuotesInto_get w sh qs k) as [E _].
    cbn zeta in E. rewrite E.
    destruct (mem k (map symbol sh)) eqn:Em; [|reflexivity].
    apply mem_In in Em. contradiction.
  - intros h1 h2 q Hh1 Hh2 Hn Hq. rewrite (H1 h1 Hh1), (H1 h2 Hh2).
    rewrite <- Hn, Hq. split; reflexivity.
Qed.

Lemma stock_quotes_follow_normalized_symbol_witness :
  JsMap.get $"7203.T"
    (fst (V2.stockQuotesInto allQuoted [Spec.toyota; toyotaAtSbi]
            (JsMap.empty, JsMap.empty)))
  = Some (mkPrice 2856 $"JPY")
  /\ JsMap.get $"7203.T-sbi"
       (fst (V2.stockQuotesInto allQuoted [Spec.toyota; toyotaAtSbi]
               (JsMap.empty, JsMap.empty)))
     = Some (mkPrice 2856 $"JPY").
Proof.
  destruct (stock_quotes_follow_normalized_symbol allQuoted
              [Spec.toyota; toyotaAtSbi] (JsMap.empty, JsMap.empty))
    as (_ & _ & H).
  apply (H Spec.toyota toyotaAtSbi
           (mkQuote $"7203.T" $"7203.T" 2856 (Some 2800)
              (Some (2856 - 2800)) ((2856 - 2800) / 2800 * 100) $"JPY")).
  - left. reflexivity.
  - right. left. reflexivity.
  - reflexivity.
  - reflexivity.
Defined.

End DedupeFacts.

(* ------------------------------------------------------------------ *)
(** * Fund codes: one fetch for the holdings that share a code *)

Section FundFacts.

Import Js StockApi Props Route.

Lemma In_set (V : Type) (k k' : jsstring) (v v' : V) (mp : JsMap.t V) :
  In (k', v') (JsMap.set k v mp) -> (k' = k /\ v' = v) \/ In (k', v') mp.
Proof.
  induction mp as [|[k0 v0] mp IH]; simpl.
  - intros [E|[]]. injection E as <- <-. auto.
  - destruct (str_eqb_spec k0 k) as [->|Hne]; simpl.
    + intros [E|H]; [injection E as <- <-; auto|auto].
    + intros [E|H]; [auto|]. destruct (IH H); auto.
Qed.

Lemma addFund_ok (mp : JsMap.t (list jsstring)) (h : Holding) :
  fundEntriesOk mp -> fundEntriesOk (addFund mp h).
Proof.
  intros [Hnd Hs]. unfold addFund.
  destruct (JsMap.get (symbol h) V2.FUND_CODE_MAP) as [c|] eqn:Ec;
    [|split; assumption].
  split; [apply set_NoDup, Hnd|].
  intros c' l s Hin Hsl. apply In_set in Hin.
  destruct Hin as [[-> ->]|Hin]; [|exact (Hs _ _ _ Hin Hsl)].
  apply in_app_or in Hsl. destruct Hsl as [Hsl|[<-|[]]]; [|exact Ec].
  destruct (JsMap.get c mp) as [l0|] eqn:E0; [|destruct Hsl].
  exact (Hs _ _ _ (get_In _ _ E0) Hsl).
Qed.

Lemma addFund_keeps (mp : JsMap.t (list jsstring)) (h : Holding)
  (c s : jsstring) :
  (exists l, JsMap.get c mp = Some l /\ In s l) ->
  exists l, JsMap.get c (addFund mp h) = Some l /\ In s l.
Proof.
  intros (l & Hl & Hs). unfold addFund.
  destruct (JsMap.get (symbol h) V2.FUND_CODE_MAP) as [c'|];
    [|exists l; auto].
  destruct (str_eqb_spec c' c) as [->|Hne].
  - rewrite get_set_same, Hl. eexists. split; [reflexivity|].
    apply in_or_app. auto.
  - rewrite get_set_other by exact Hne. exists l; auto.
Qed.

Lemma uniqueFundCodes_from (mf : list Holding) :
  forall mp,
    fundEntriesOk mp ->
    fundEntriesOk (fold_left addFund mf mp)
    /\ (forall c s,
          (exists l, JsMap.get c mp = Some l /\ In s l) ->
          exists l, JsMap.get c (fold_left addFund mf mp) = Some l
                    /\ In s l)
    /\ (forall h c,
          In h mf -> JsMap.get (symbol h) V2.FUND_CODE_MAP = Some c ->
          exists l, JsMap.get c (fold_left addFund mf mp) = Some l
                    /\ In (symbol h) l).
Proof.
  induction mf as [|h0 mf IH]; intros mp Hok; cbn [fold_left].
  - split; [exact Hok|]. split; [auto|]. intros h c [].
  - destruct (IH (addFund mp h0) (addFund_ok h0 Hok)) as (I1 & I2 & I3).
    split; [exact I1|]. split.
    + intros c s H. apply I2, addFund_keeps, H.
    + intros h c [<-|Hin] Hc; [|exact (I3 h c Hin Hc)].
      apply I2. unfold addFund. rewrite Hc, get_set_same.
      eexists. split; [reflexivity|]. apply in_or_app. right. left.
      reflexivity.
Qed.

Lemma uniqueFundCodes_fold (mf : list Holding) :
  V2.uniqueFundCodes mf = fold_left addFund mf JsMap.empty.
Proof. reflexivity. Qed.

(** One entry of the second loop. *)
Lemma get_setQuote_list (nav : StockQuote) (k : jsstring)
  (l : list jsstring) :
  forall acc : V2.Quotes,
    JsMap.get k
      (fst (fold_left (fun a sym => V2.setQuote sym nav $"JPY" a) l acc))
    = if mem k l then Some (mkPrice (sq_price nav) $"JPY")
      else JsMap.get k (fst acc).
Proof.
  induction l as [|x l IH]; intros acc; [reflexivity|].
  cbn [fold_left mem existsb]. fold (mem k l). rewrite IH.
  unfold V2.setQuote. cbn [fst].
  destruct (str_eqb_spec k x) as [->|Hne]; cbn [orb].
  - rewrite get_set_same. destruct (mem x l); reflexivity.
  - rewrite get_set_other by congruence. reflexivity.
Qed.

Lemma get_applyEntries (w : World) (k : jsstring) (code : option jsstring)
  (es : JsMap.t (list jsstring)) :
  JsMap.get k V2.FUND_CODE_MAP = code ->
  fundEntriesOk es ->
  forall acc,
    JsMap.get k (fst (fold_left (applyEntry w) es acc))
    = match code with
      | Some c =>
          match JsMap.get c es with
          | Some l =>
              if mem k l
              then match navOf w c with
                   | Some nav => Some (mkPrice (sq_price nav) $"JPY")
                   | None => JsMap.get k (fst acc)
                   end
              else JsMap.get k (fst acc)
          | None => JsMap.get k (fst acc)
          end
      | None => JsMap.get k (fst acc)
      end.
Proof.
  intros Hcode. induction es as [|[c' l'] es IH]; intros Hok acc.
  - simpl. destruct code; reflexivity.
  - destruct Hok as [Hnd Hs]. simpl in Hnd.
    inversion Hnd as [|? ? Hc' Hnd']; subst.
    assert (Hok' : fundEntriesOk es).
    { split; [exact Hnd'|]. intros c l s Hin. apply Hs. right. exact Hin. }
    cbn [fold_left]. rewrite (IH Hok').
    assert (Hstep : JsMap.get k (fst (applyEntry w acc (c', l')))
                    = if mem k l'
                      then match navOf w c' with
                           | Some nav => Some (mkPrice (sq_price nav) $"JPY")
                           | None => JsMap.get k (fst acc)
                           end
                      else JsMap.get k (fst acc)).
    { unfold applyEntry. destruct (navOf w c') as [nav|].
      - apply get_setQuote_list.
      - destruct (mem k l'); reflexivity. }
    assert (Hmem : mem k l' = true ->
                   JsMap.get k V2.FUND_CODE_MAP = Some c').
    { intros Hm. apply mem_In in Hm.
      apply (Hs c' l' k); [left; reflexivity|exact Hm]. }
    destruct (JsMap.get k V2.FUND_CODE_MAP) as [c|] eqn:Ek.
    + cbn [JsMap.get]. destruct (str_eqb_spec c' c) as [->|Hne].
      * assert (En : JsMap.get c es = None).
        { apply get_None_keys. exact Hc'. }
        rewrite En, Hstep. reflexivity.
      * rewrite Hstep.
        destruct (mem k l') eqn:Em; [|reflexivity].
        specialize (Hmem eq_refl). congruence.
    + rewrite Hstep. destruct (mem k l') eqn:Em; [|reflexivity].
      specialize (Hmem eq_refl). discriminate.
Qed.

Lemma fundQuotesInto_fold (w : World) (mf : list Holding) (qs : V2.Quotes) :
  V2.fundQuotesInto w mf qs
  = fold_left (applyEntry w) (V2.uniqueFundCodes mf) qs.
Proof.
  unfold V2.fundQuotesInto. destruct mf as [|h mf]; [reflexivity|].
  apply fold_left_pointwise. intros a [c l]. reflexivity.
Qed.

Lemma empty_fund_entries_ok : fundEntriesOk JsMap.empty.
Proof. split; [constructor|intros c l s []]. Qed.

Lemma fundQuotesInto_get (w : World) (mf : list Holding) (qs : V2.Quotes)
  (h : Holding) (c : jsstring) :
  In h mf -> JsMap.get (symbol h) V2.FUND_CODE_MAP = Some c ->
  JsMap.get (symbol h) (fst (V2.fundQuotesInto w mf qs))
  = match navOf w c with
    | Some nav => Some (mkPrice (sq_price nav) $"JPY")
    | None => JsMap.get (symbol h) (fst qs)
    end.
Proof.
  intros Hin Hc. rewrite fundQuotesInto_fold, uniqueFundCodes_fold.
  destruct (uniqueFundCodes_from mf empty_fund_entries_ok)
    as (Hok & _ & Hcov).
  destruct (Hcov h c Hin Hc) as (l & Hl & Hsl).
  rewrite get_applyEntries with (code := Some c); [|exact Hc|exact Hok].
  rewrite Hl.
  apply mem_In in Hsl. rewrite Hsl. reflexivity.
Qed.

(** X5.  After the fund step, a fund holding whose symbol the table maps to
    a code carries the NAV fetched for that code, in JPY, and keeps what
    the map held for it when that fetch failed.  So the holdings that share
    a fund code receive the same price. *)
Theorem fund_quotes_follow_fund_code :
  forall (w : World) (mf : list Holding) (qs : V2.Quotes),
    (forall h c,
        In h mf -> JsMap.get (symbol h) V2.FUND_CODE_MAP = Some c ->
        JsMap.get (symbol h) (fst (V2.fundQuotesInto w mf qs))
        = match fetchMutualFundNAV (fundPageOf (net w) c) c with
          | Some nav => Some (mkPrice (sq_price nav) $"JPY")
          | None => JsMap.get (symbol h) (fst qs)
          end)
    /\ (forall h1 h2 c nav,
          In h1 mf -> In h2 mf ->
          JsMap.get (symbol h1) V2.FUND_CODE_MAP = Some c ->
          JsMap.get (symbol h2) V2.FUND_CODE_MAP = Some c ->
          fetchMutualFundNAV (fundPageOf (net w) c) c = Some nav ->
          JsMap.get (symbol h1) (fst (V2.fundQuotesInto w mf qs))
          = JsMap.get (symbol h2) (fst (V2.fundQuotesInto w mf qs))).
Proof.
  intros w mf qs. split.
  - intros h c. apply fundQuotesInto_get.
  - intros h1 h2 c nav H1 H2 C1 C2 Hn.
    rewrite (fundQuotesInto_get w mf qs h1 H1 C1).
    rewrite (fundQuotesInto_get w mf qs h2 H2 C2).
    unfold navOf. rewrite Hn. reflexivity.
Qed.

Lemma fund_quotes_follow_fund_code_witness :
  JsMap.get $"ghq-dist"
    (fst (V2.fundQuotesInto allQuoted [ghqDist; ghqReinv]
            (JsMap.empty, JsMap.empty)))
  = JsMap.get $"ghq-reinv"
      (fst (V2.fundQuotesInto allQuoted [ghqDist; ghqReinv]
              (JsMap.empty, JsMap.empty))).
Proof.
  destruct (fund_quotes_follow_fund_code allQuoted [ghqDist; ghqReinv]
              (JsMap.empty, JsMap.empty)) as (_ & H).
  eapply (H ghqDist ghqReinv $"47316169").
  - left. reflexivity.
  - right. left. reflexivity.
  - reflexivity.
  - reflexivity.
  - vm_compute. reflexivity.
Defined.

(** The shared NAV of the example is 12345 for both holdings. *)
Example shared_fund_code_example :
  map (fun h => option_map price
                  (JsMap.get (symbol h)
                     (fst (fst (V2.resolvePrices allQuoted
                                  [ghqDist; ghqReinv])))))
    [ghqDist; ghqReinv]
  = [Some 12345; Some 12345].
Proof. vm_compute. reflexivity. Qed.

End FundFacts.

(* ------------------------------------------------------------------ *)
(** * Degradation Controller: what each tier puts in the quote map *)

Section TierFacts.

Import Js Calculations StockApi Props Route Spec.

Lemma has_get_Some (V : Type) (k : jsstring) (mp : JsMap.t V) :
  JsMap.has k mp = true <-> exists v, JsMap.get k mp = Some v.
Proof.
  unfold JsMap.has. destruct (JsMap.get k mp) as [v|].
  - split; [eauto|reflexivity].
  - split; [discriminate|intros [v H]; discriminate].
Qed.

Lemma patchMissing_get (hs : list Holding) :
  forall (P : PriceMap) (k : jsstring),
    JsMap.get k (V2.patchMissing hs P)
    = match JsMap.get k P with
      | Some q => Some q
      | None => option_map costBasisPrice (firstWithSymbol k hs)
      end.
Proof.
  unfold V2.patchMissing, firstWithSymbol.
  induction hs as [|h hs IH]; intros P k; cbn [fold_left find].
  - destruct (JsMap.get k P); reflexivity.
  - rewrite IH. unfold JsMap.has.
    destruct (str_eqb_spec (symbol h) k) as [<-|Hne].
    + destruct (JsMap.get (symbol h) P) as [q|] eqn:E.
      * rewrite E. reflexivity.
      * rewrite get_set_same. reflexivity.
    + destruct (JsMap.get (symbol h) P) as [q|] eqn:E; [reflexivity|].
      rewrite get_set_other by exact Hne. reflexivity.
Qed.

(** X6.  In the live tier the patch never replaces a quote: a symbol that
    has one keeps it, and a symbol without one receives the cost basis of
    the first holding that carries it (none if no holding does). *)
Theorem patch_keeps_fetched_quotes :
  forall (hs : list Holding) (P : PriceMap),
    (forall k q,
        JsMap.get k P = Some q ->
        JsMap.get k (V2.patchMissing hs P) = Some q)
    /\ (forall k,
          JsMap.get k P = None ->
          JsMap.get k (V2.patchMissing hs P)
          = option_map costBasisPrice (firstWithSymbol k hs))
    /\ (forall k,
          JsMap.get k P = None -> ~ In k (map symbol hs) ->
          JsMap.get k (V2.patchMissing hs P) = None).
Proof.
  intros hs P. split; [|split].
  - intros k q H. rewrite patchMissing_get, H. reflexivity.
  - intros k H. rewrite patchMissing_get, H. reflexivity.
  - intros k H Hn. rewrite patchMissing_get, H.
    unfold firstWithSymbol.
    destruct (find (fun h => str_eqb (symbol h) k) hs) as [h|] eqn:E;
      [|reflexivity].
    apply find_some in E. destruct E as [Hin E].
    destruct (str_eqb_spec (symbol h) k) as [<-|]; [|discriminate].
    exfalso. apply Hn, in_map, Hin.
Qed.

Lemma patch_keeps_fetched_quotes_witness :
  JsMap.get $"7203.T" (V2.patchMissing [toyota; apple] toyotaQuote)
  = Some (mkPrice 2856 $"JPY")
  /\ JsMap.get $"AAPL" (V2.patchMissing [toyota; apple] toyotaQuote)
     = Some (mkPrice 150 $"USD").
Proof.
  destruct (patch_keeps_fetched_quotes [toyota; apple] toyotaQuote)
    as (H1 & H2 & _).
  split; [apply H1|apply H2]; reflexivity.
Defined.

Lemma setCostBasis_other (hs : list Holding) (k : jsstring) :
  ~ In k (map symbol hs) ->
  forall P, JsMap.get k (setCostBasis hs P) = JsMap.get k P.
Proof.
  unfold setCostBasis.
  induction hs as [|h hs IH]; intros Hn P; cbn [fold_left]; [reflexivity|].
  rewrite IH by (intros H; apply Hn; right; exact H).
  apply get_set_other. intros E. apply Hn. left. exact E.
Qed.

Lemma setCostBasis_get (hs : list Holding) :
  NoDup (map symbol hs) ->
  forall P h,
    In h hs ->
    JsMap.get (symbol h) (setCostBasis hs P) = Some (costBasisPrice h).
Proof.
  induction hs as [|h0 hs IH]; intros Hnd P h Hin; [destruct Hin|].
  simpl in Hnd. inversion Hnd as [|? ? H0 Hnd']; subst.
  destruct Hin as [<-|Hin].
  - change (setCostBasis (h0 :: hs) P)
      with (setCostBasis hs (JsMap.set (symbol h0) (costBasisPrice h0) P)).
    rewrite setCostBasis_other by exact H0. apply get_set_same.
  - change (setCostBasis (h0 :: hs) P)
      with (setCostBasis hs (JsMap.set (symbol h0) (costBasisPrice h0) P)).
    apply IH; assumption.
Qed.

Lemma or_same (x : Q) : Num.or x x = x.
Proof. unfold Num.or. destruct (Num.truthy x); reflexivity. Qed.

Lemma zero_pl_percent (cb : Q) (pl : Q) :
  pl == 0 -> (if Num.gtb cb 0 then pl / cb * 100 else 0) == 0.
Proof.
  intros H. destruct (Num.gtb cb 0) eqn:E; [|reflexivity].
  rewrite H. apply gtb_pos in E. field. intros Hz. rewrite Hz in E.
  apply (Qlt_irrefl 0 E).
Qed.

(** X7.  In the cost-basis tier, when no two holdings share a symbol, every
    holding is valued at its average cost: its unrealized P&L and the
    percentage are zero. *)
Theorem cost_basis_tier_has_no_unrealized_pl :
  forall (hs : list Holding) (P : PriceMap) (rate : Q),
    NoDup (map symbol hs) ->
    Forall (fun e => currentPrice e = Some (avgCost e)
                     /\ holds (unrealizedPL e) 0
                     /\ holds (unrealizedPLPercent e) 0)
      (fst (calculateHoldingsValue hs (setCostBasis hs P) rate)).
Proof.
  intros hs P rate Hnd. rewrite calculateHoldingsValue_fst.
  apply Forall_forall. intros e He. apply in_map_iff in He.
  destruct He as (h & <- & Hh).
  unfold enrich, priceOrCost. rewrite setCostBasis_get; [|exact Hnd|exact Hh].
  cbn [option_map costBasisPrice price Num.or_undef currentPrice avgCost
         unrealizedPL unrealizedPLPercent holds].
  rewrite or_same. split; [reflexivity|]. split; [ring|].
  apply zero_pl_percent. ring.
Qed.

Lemma cost_basis_tier_has_no_unrealized_pl_witness :
  Forall (fun e => currentPrice e = Some (avgCost e)
                   /\ holds (unrealizedPL e) 0
                   /\ holds (unrealizedPLPercent e) 0)
    (fst (calculateHoldingsValue [toyota; apple]
            (setCostBasis [toyota; apple] []) 150)).
Proof.
  apply (@cost_basis_tier_has_no_unrealized_pl [toyota; apple] [] 150).
  repeat constructor; simpl; intuition discriminate.
Defined.

(** The same share held at two brokers at different costs breaks the
    precondition: the later holding's cost is the quote of both. *)
Example cost_basis_tier_with_shared_symbol :
  let held := [toyota; toyotaAtSbi] in
  let sameSymbol :=
    map (fun h => mkHolding (id h) $"7203.T" (name h) (category h)
                   (quantity h) (avgCost h) (currency h) (accountType h)
                   (createdAt h) None None None None None None) held in
  match map unrealizedPL
          (fst (calculateHoldingsValue sameSymbol
                  (setCostBasis sameSymbol []) 150)) with
  | [first; second] => holds first 10000 /\ holds second 0
  | _ => False
  end.
Proof. vm_compute. split; reflexivity. Qed.

End TierFacts.

(* ------------------------------------------------------------------ *)
(** * Valuation Engine: the category roll-up *)

Section RollupFacts.

Import Js Calculations Props Spec.

Lemma or_x_0 (x : Q) : Num.or x 0 == x.
Proof.
  unfold Num.or, Num.truthy. destruct (Qeq_bool x 0) eqn:E; simpl.
  - apply Qeq_bool_iff in E. rewrite E. reflexivity.
  - reflexivity.
Qed.

Lemma or_undef_0 (o : option Q) : Num.or_undef o 0 == valueOr0 o.
Proof. destruct o; simpl; [apply or_x_0|reflexivity]. Qed.

Lemma fold_left_sum (A : Type) (f : A -> Q) (l : list A) :
  forall init,
    fold_left (fun t x => t + f x) l init == init + sumQ (map f l).
Proof.
  induction l as [|x l IH]; intros init; simpl.
  - ring.
  - rewrite IH. ring.
Qed.

Lemma fold_left_map (A B C : Type) (f : A -> B -> A) (g : C -> B)
  (l : list C) :
  forall a, fold_left f (map g l) a = fold_left (fun a x => f a (g x)) l a.
Proof. induction l as [|x l IH]; intros a; simpl; [reflexivity|apply IH]. Qed.

Lemma addAll_has (c : jsstring) (items : list (jsstring * Q)) :
  forall t,
    JsMap.has c (addAll items t)
    = JsMap.has c t || mem c (map fst items).
Proof.
  unfold addAll.
  induction items as [|[k a] items IH]; intros t; cbn [fold_left map fst snd].
  - cbn. rewrite orb_false_r. reflexivity.
  - rewrite IH. cbn [mem existsb]. fold (mem c (map fst items)).
    unfold addToCategory, JsMap.has.
    destruct (str_eqb_spec c k) as [->|Hne]; cbn [orb].
    + rewrite get_set_same. rewrite orb_true_r. reflexivity.
    + rewrite get_set_other by congruence. reflexivity.
Qed.

Lemma addAll_get (c : jsstring) (items : list (jsstring * Q)) :
  forall t,
    valueOr0 (JsMap.get c (addAll items t))
    == valueOr0 (JsMap.get c t) + amountFor c items.
Proof.
  unfold addAll, amountFor.
  induction items as [|[k a] items IH]; intros t;
    cbn [fold_left map fst snd filter].
  - unfold sumQ. simpl. ring.
  - rewrite IH. unfold addToCategory.
    destruct (str_eqb_spec k c) as [->|Hne].
    + rewrite get_set_same. unfold sumQ. cbn [valueOr0 map snd fold_right].
      rewrite or_undef_0. ring.
    + rewrite get_set_other by exact Hne. reflexivity.
Qed.

Lemma addAll_NoDup (items : list (jsstring * Q)) :
  forall t, NoDup (JsMap.keys t) -> NoDup (JsMap.keys (addAll items t)).
Proof.
  unfold addAll.
  induction items as [|[k a] items IH]; intros t H; cbn [fold_left];
    [exact H|].
  apply IH. unfold addToCategory. apply set_NoDup, H.
Qed.

Lemma sum_values_set (k : jsstring) (v : Q) (t : JsMap.t Q) :
  sumQ (JsMap.values (JsMap.set k v t))
  == sumQ (JsMap.values t) - valueOr0 (JsMap.get k t) + v.
Proof.
  unfold JsMap.values.
  induction t as [|[k' v'] t IH]; simpl.
  - ring.
  - destruct (Js.str_eqb k' k); simpl.
    + ring.
    + rewrite IH. ring.
Qed.

Lemma addAll_sum (items : list (jsstring * Q)) :
  forall t,
    sumQ (JsMap.values (addAll items t))
    == sumQ (JsMap.values t) + sumQ (map snd items).
Proof.
  unfold addAll.
  induction items as [|[k a] items IH]; intros t;
    cbn [fold_left map fst snd].
  - unfold sumQ. simpl. ring.
  - rewrite IH. unfold addToCategory. rewrite sum_values_set, or_undef_0.
    unfold sumQ. simpl. ring.
Qed.

Lemma categoryTotals_addAll (hs : list Holding) (others : list OtherAsset)
  (prices : PriceMap) (rate : Q) :
  categoryTotals hs others prices rate
  = addAll (map (assetItem rate) others)
      (addAll (map (holdingItem prices rate) hs) JsMap.empty).
Proof.
  unfold categoryTotals, addAll. rewrite !fold_left_map. reflexivity.
Qed.

Lemma amountFor_map (A : Type) (key : A -> jsstring) (val : A -> Q)
  (c : jsstring) (l : list A) :
  amountFor c (map (fun x => (key x, val x)) l)
  = sumQ (map val (filter (fun x => Js.str_eqb (key x) c) l)).
Proof.
  unfold amountFor. induction l as [|x l IH]; simpl; [reflexivity|].
  destruct (Js.str_eqb (key x) c); simpl; rewrite IH; reflexivity.
Qed.

Lemma categoryTotals_get (hs : list Holding) (others : list OtherAsset)
  (prices : PriceMap) (rate : Q) (c : jsstring) :
  valueOr0 (JsMap.get c (categoryTotals hs others prices rate))
  == categoryValue c hs others prices rate.
Proof.
  rewrite categoryTotals_addAll, !addAll_get. unfold categoryValue.
  unfold assetItem, holdingItem. rewrite !amountFor_map. simpl. ring.
Qed.

Lemma categoryTotals_NoDup (hs : list Holding) (others : list OtherAsset)
  (prices : PriceMap) (rate : Q) :
  NoDup (JsMap.keys (categoryTotals hs others prices rate)).
Proof.
  rewrite categoryTotals_addAll. apply addAll_NoDup, addAll_NoDup.
  constructor.
Qed.

Lemma categoryTotals_has (hs : list Holding) (others : list OtherAsset)
  (prices : PriceMap) (rate : Q) (c : jsstring) :
  JsMap.has c (categoryTotals hs others prices rate)
  = mem c (map category hs) || mem c (map oa_type others).
Proof.
  rewrite categoryTotals_addAll, !addAll_has.
  unfold assetItem, holdingItem. rewrite !map_map. reflexivity.
Qed.

Lemma summarize_category (g : Q) (totals : JsMap.t Q) :
  map cs_category (map (summarize g) totals) = JsMap.keys totals.
Proof.
  unfold JsMap.keys. rewrite map_map. apply map_ext. intros [c v].
  reflexivity.
Qed.

(** X8.  The category summary has one entry per category that a holding or
    another asset carries, and no other; the value of an entry is the sum
    of the JPY values of the holdings and other assets of its category. *)
Theorem category_rollup :
  forall (hs : list Holding) (others : list OtherAsset) (prices : PriceMap)
         (rate : Q),
    let cats := generateCategorySummary hs others prices rate in
    NoDup (map cs_category cats)
    /\ (forall c,
          In c (map cs_category cats) <->
          (exists h, In h hs /\ category h = c)
          \/ (exists a, In a others /\ oa_type a = c))
    /\ (forall s,
          In s cats ->
          cs_value s == categoryValue (cs_category s) hs others prices rate
          /\ cs_valueJPY s = cs_value s).
Proof.
  intros hs others prices rate. cbv zeta.
  unfold generateCategorySummary. cbv zeta.
  set (totals := categoryTotals hs others prices rate).
  set (g := grandTotalOf totals).
  pose proof (sortByValueDesc_perm (map (summarize g) totals)) as Hp.
  split; [|split].
  - apply (Permutation_NoDup
             (Permutation_sym (Permutation_map cs_category Hp))).
    rewrite summarize_category. apply categoryTotals_NoDup.
  - intros c. split.
    + intros H.
      apply (Permutation_in _ (Permutation_map cs_category Hp)) in H.
      rewrite summarize_category in H. apply has_In_keys in H.
      unfold totals in H. rewrite categoryTotals_has in H.
      apply orb_true_iff in H. destruct H as [H|H]; apply mem_In in H;
        apply in_map_iff in H; destruct H as (x & Hx & Hin); eauto.
    + intros H.
      apply (Permutation_in _
               (Permutation_sym (Permutation_map cs_category Hp))).
      rewrite summarize_category. apply has_In_keys.
      unfold totals. rewrite categoryTotals_has. apply orb_true_iff.
      destruct H as [(h & Hin & <-)|(a & Hin & <-)];
        [left|right]; apply mem_In, in_map, Hin.
  - intros s Hs. apply (Permutation_in _ Hp) in Hs.
    apply in_map_iff in Hs. destruct Hs as ([c v] & <- & Hin).
    cbn [summarize cs_value cs_category cs_valueJPY]. split; [|reflexivity].
    rewrite <- categoryTotals_get. fold totals.
    rewrite In_get with (v := v);
      [reflexivity|apply categoryTotals_NoDup|exact Hin].
Qed.

Lemma calculateHoldingsValue_snd (hs : list Holding) (prices : PriceMap)
  (rate : Q) :
  snd (calculateHoldingsValue hs prices rate)
  == sumQ (map (holdingValueJPY prices rate) hs).
Proof.
  unfold calculateHoldingsValue.
  assert (H : forall total,
             snd (calculateHoldingsValue_from total hs prices rate)
             == total + sumQ (map (holdingValueJPY prices rate) hs)).
  { induction hs as [|h hs IH]; intros total; simpl; [ring|].
    specialize (IH (total + holdingValueJPY prices rate h)).
    destruct (calculateHoldingsValue_from _ hs prices rate) as [es t].
    simpl in *. rewrite IH. ring. }
  rewrite H. ring.
Qed.

Lemma calculateOtherAssetsValue_sum (others : list OtherAsset) (rate : Q) :
  calculateOtherAssetsValue others rate
  == sumQ (map (fun a => toJPY (oa_currency a) (oa_value a) rate) others).
Proof.
  unfold calculateOtherAssetsValue. rewrite fold_left_sum. ring.
Qed.

Lemma category_values_sum (hs : list Holding) (others : list OtherAsset)
  (prices : PriceMap) (rate : Q) :
  sumQ (map cs_value (generateCategorySummary hs others prices rate))
  == snd (calculateHoldingsValue hs prices rate)
     + calculateOtherAssetsValue others rate.
Proof.
  rewrite category_values_total, grandTotalOf_sumQ, categoryTotals_addAll.
  rewrite !addAll_sum, calculateHoldingsValue_snd,
    calculateOtherAssetsValue_sum.
  unfold assetItem, holdingItem. rewrite !map_map. simpl.
  rewrite Qplus_0_l. reflexivity.
Qed.

(** X9.  The values of the category summary add up to the JPY total of the
    holdings plus the JPY total of the other assets: the roll-up neither
    loses nor double-counts a value. *)
Theorem category_values_add_up_to_total :
  forall (hs : list Holding) (others : list OtherAsset) (prices : PriceMap)
         (rate : Q),
    sumQ (map cs_value (generateCategorySummary hs others prices rate))
    == snd (calculateHoldingsValue hs prices rate)
       + calculateOtherAssetsValue others rate
    /\ snd (calculateHoldingsValue hs prices rate)
       == sumQ (map (holdingValueJPY prices rate) hs)
    /\ (forall hs',
          snd (calculateHoldingsValue (hs ++ hs') prices rate)
          == snd (calculateHoldingsValue hs prices rate)
             + snd (calculateHoldingsValue hs' prices rate)).
Proof.
  intros hs others prices rate. split; [apply category_values_sum|].
  split; [apply calculateHoldingsValue_snd|].
  intros hs'. rewrite !calculateHoldingsValue_snd, map_app.
  unfold sumQ. rewrite fold_right_app.
  induction (map (holdingValueJPY prices rate) hs) as [|x l IH]; simpl.
  - ring.
  - rewrite IH. ring.
Qed.

End RollupFacts.

(* ------------------------------------------------------------------ *)
(** * Valuation Engine: the order of the category summary *)

Section SortFacts.

Import Js Calculations Props Spec.

Lemma Forall_insertByValue (P : CategorySummary -> Prop)
  (x : CategorySummary) (l : list CategorySummary) :
  P x -> Forall P l -> Forall P (insertByValue x l).
Proof.
  intros Hx Hl. apply Forall_forall. intros y Hy.
  apply (Permutation_in _ (insertByValue_perm x l)) in Hy.
  destruct Hy as [<-|Hy]; [exact Hx|].
  rewrite Forall_forall in Hl. exact (Hl y Hy).
Qed.

Lemma Qle_bool_false (x y : Q) : Qle_bool x y = false -> y < x.
Proof.
  intros H. apply Qnot_le_lt. intros Hle. apply Qle_bool_iff in Hle.
  congruence.
Qed.

Lemma insertByValue_sorted (x : CategorySummary)
  (l : list CategorySummary) :
  StronglySorted descByValue l ->
  StronglySorted descByValue (insertByValue x l).
Proof.
  induction 1 as [|y l Hs IH Hy]; simpl.
  - constructor; constructor.
  - destruct (Qle_bool (cs_value x) (cs_value y)) eqn:E.
    + constructor; [exact IH|].
      apply Forall_insertByValue; [|exact Hy].
      apply Qle_bool_iff, E.
    + apply Qle_bool_false in E.
      constructor; [constructor; assumption|].
      constructor; [apply Qlt_le_weak, E|].
      apply Forall_forall. intros z Hz. rewrite Forall_forall in Hy.
      unfold descByValue in *.
      apply Qle_trans with (cs_value y); [exact (Hy z Hz)|].
      apply Qlt_le_weak, E.
Qed.

Lemma sort_from_sorted (l : list CategorySummary) :
  forall sorted,
    StronglySorted descByValue sorted ->
    StronglySorted descByValue
      (fold_left (fun acc x => insertByValue x acc) l sorted).
Proof.
  induction l as [|x l IH]; intros sorted H; simpl; [exact H|].
  apply IH, insertByValue_sorted, H.
Qed.

Lemma sameValue_below (v : Q) (x y : CategorySummary) :
  cs_value y < cs_value x -> sameValue v x = true -> sameValue v y = false.
Proof.
  unfold sameValue. intros Hlt Hx. apply Qeq_bool_iff in Hx.
  destruct (Qeq_bool (cs_value y) v) eqn:E; [|reflexivity].
  apply Qeq_bool_iff in E. rewrite Hx, E in Hlt.
  exfalso. apply (Qlt_irrefl v Hlt).
Qed.

(** An element goes behind the elements of its own value. *)
Lemma insertByValue_stable (v : Q) (x : CategorySummary)
  (l : list CategorySummary) :
  StronglySorted descByValue l ->
  filter (sameValue v) (insertByValue x l)
  = filter (sameValue v) l ++ filter (sameValue v) [x].
Proof.
  induction 1 as [|y l Hs IH Hy]; [reflexivity|].
  cbn [insertByValue].
  destruct (Qle_bool (cs_value x) (cs_value y)) eqn:E.
  - cbn [filter]. rewrite IH.
    destruct (sameValue v y); reflexivity.
  - apply Qle_bool_false in E.
    cbn [filter]. destruct (sameValue v x) eqn:Ex.
    + rewrite sameValue_below with (x := x); [|exact E|exact Ex].
      replace (filter (sameValue v) l) with (@nil CategorySummary);
        [reflexivity|].
      symmetry. clear IH Hs.
      induction Hy as [|z l Hz Hy' IHl]; [reflexivity|].
      cbn [filter].
      rewrite sameValue_below with (x := x); [exact IHl| |exact Ex].
      apply Qle_lt_trans with (cs_value y); [exact Hz|exact E].
    + rewrite app_nil_r. reflexivity.
Qed.

Lemma sort_from_stable (v : Q) (l : list CategorySummary) :
  forall sorted,
    StronglySorted descByValue sorted ->
    filter (sameValue v)
      (fold_left (fun acc x => insertByValue x acc) l sorted)
    = filter (sameValue v) sorted ++ filter (sameValue v) l.
Proof.
  induction l as [|x l IH]; intros sorted H; simpl.
  - rewrite app_nil_r. reflexivity.
  - rewrite IH by (apply insertByValue_sorted, H).
    rewrite insertByValue_stable by exact H.
    rewrite <- app_assoc. cbn [filter]. destruct (sameValue v x); reflexivity.
Qed.

(** X10.  The category summary comes sorted by value, the largest first, and
    the sort is stable: summaries of equal value stay in the order in which
    their categories were first met. *)
Theorem category_summary_sorted :
  forall (hs : list Holding) (others : list OtherAsset) (prices : PriceMap)
         (rate : Q),
    let totals := categoryTotals hs others prices rate in
    let cats := generateCategorySummary hs others prices rate in
    StronglySorted descByValue cats
    /\ (forall v,
          filter (sameValue v) cats
          = filter (sameValue v)
              (map (summarize (grandTotalOf totals)) totals)).
Proof.
  intros hs others prices rate. cbv zeta.
  unfold generateCategorySummary, sortByValueDesc. cbv zeta. split.
  - apply sort_from_sorted. constructor.
  - intros v. rewrite sort_from_stable by constructor. reflexivity.
Qed.

End SortFacts.

(* ------------------------------------------------------------------ *)
(** * Valuation Engine: the portfolio summary *)

Section SummaryFacts.

Import Js Calculations Props Spec Route.

Lemma generatePortfolioSummary_fields (year : Z) (hs : list Holding)
  (others : list OtherAsset) (txs : list Transaction)
  (divs : list Dividend) (prices previous : PriceMap) (rate : Q) :
  let s := generatePortfolioSummary year hs others txs divs prices previous
             rate in
  let total := snd (calculateHoldingsValue hs prices rate) in
  let before := snd (calculateHoldingsValue hs previous rate) in
  let other := calculateOtherAssetsValue others rate in
  let cost :=
    fold_left
      (fun sum h => sum + toJPY (currency h) (avgCost h * quantity h) rate)
      (map (enrich prices) hs) 0 in
  ps_totalValue s = total + other
  /\ ps_totalValueJPY s = total + other
  /\ ps_previousDayValue s = before + other
  /\ ps_dayChange s = (total + other) - (before + other)
  /\ ps_dayChangePercent s
     = (if Num.gtb (before + other) 0
        then ((total + other) - (before + other)) / (before + other) * 100
        else 0)
  /\ ps_totalUnrealizedPL s = total - cost.
Proof.
  cbv zeta. unfold generatePortfolioSummary.
  pose proof (calculateHoldingsValue_fst hs prices rate) as Hf.
  destruct (calculateHoldingsValue hs prices rate) as [es total].
  simpl in Hf. subst es. cbn [snd ps_totalValue ps_totalValueJPY
    ps_previousDayValue ps_dayChange ps_dayChangePercent
    ps_totalUnrealizedPL].
  repeat split.
Qed.

Lemma total_value_parts (year : Z) (hs : list Holding)
  (others : list OtherAsset) (txs : list Transaction)
  (divs : list Dividend) (prices previous : PriceMap) (rate : Q) :
  let s := generatePortfolioSummary year hs others txs divs prices previous
             rate in
  ps_totalValue s
  = snd (calculateHoldingsValue hs prices rate)
    + calculateOtherAssetsValue others rate
  /\ ps_dayChange s = ps_totalValue s - ps_previousDayValue s.
Proof.
  cbv zeta.
  destruct (generatePortfolioSummary_fields year hs others txs divs prices
              previous rate) as (H1 & _ & H3 & H4 & _).
  cbv zeta in *. rewrite H1, H3, H4. split; reflexivity.
Qed.

Lemma toJPY_minus (cur : jsstring) (a b rate : Q) :
  toJPY cur (a - b) rate == toJPY cur a rate - toJPY cur b rate.
Proof.
  unfold toJPY, convertUsdToJpy. destruct (str_eqb cur $"USD"); ring.
Qed.

Lemma sumQ_minus (A : Type) (f g d : A -> Q) (l : list A) :
  (forall x, d x == f x - g x) ->
  sumQ (map d l) == sumQ (map f l) - sumQ (map g l).
Proof.
  intros H. induction l as [|x l IH]; simpl; [ring|].
  rewrite IH, H. ring.
Qed.

(** X11.  The total unrealized P&L of the summary is the sum, over the
    holdings, of each holding's unrealized P&L converted to JPY; and the
    summary's day change is its total value less the value at the previous
    prices. *)
Theorem total_unrealized_pl_is_sum :
  forall (year : Z) (hs : list Holding) (others : list OtherAsset)
         (txs : list Transaction) (divs : list Dividend)
         (prices previous : PriceMap) (rate : Q),
    let s := generatePortfolioSummary year hs others txs divs prices
               previous rate in
    ps_totalUnrealizedPL s
    == sumQ (map (fun e => toJPY (currency e) (valueOr0 (unrealizedPL e))
                             rate)
               (fst (calculateHoldingsValue hs prices rate)))
    /\ ps_dayChange s == ps_totalValue s - ps_previousDayValue s
    /\ ps_totalValue s
       == snd (calculateHoldingsValue hs prices rate)
          + calculateOtherAssetsValue others rate.
Proof.
  intros year hs others txs divs prices previous rate. cbv zeta.
  destruct (generatePortfolioSummary_fields year hs others txs divs prices
              previous rate) as (H1 & _ & H3 & H4 & _ & H6).
  cbv zeta in *. rewrite H1, H3, H4, H6. clear H1 H3 H4 H6.
  split; [|split; reflexivity].
  rewrite calculateHoldingsValue_fst, calculateHoldingsValue_snd,
    fold_left_sum, !map_map.
  cbn [enrich currency avgCost quantity unrealizedPL valueOr0].
  rewrite (sumQ_minus
             (fun h => holdingValueJPY prices rate h)
             (fun h => toJPY (currency h) (avgCost h * quantity h) rate)
             (fun h => toJPY (currency h)
                         (priceOrCost prices h * quantity h
                          - avgCost h * quantity h) rate));
    [rewrite Qplus_0_l; reflexivity|].
  intros h. unfold holdingValueJPY. apply toJPY_minus.
Qed.

Lemma previousPrices_get (prices : PriceMap)
  (pcm : JsMap.t (option Q)) (k : jsstring) :
  NoDup (JsMap.keys prices) ->
  JsMap.get k (V2.previousPrices prices pcm)
  = option_map
      (fun q => mkPrice (Num.or_undef (V2.previousCloseOf pcm k) (price q))
                  (price_currency q))
      (JsMap.get k prices).
Proof.
  intros Hnd. destruct (JsMap.get k prices) as [q|] eqn:E.
  - apply previousPrices_baseline; assumption.
  - unfold V2.previousPrices.
    rewrite previousPrices_from_other; [reflexivity|].
    apply get_None_keys, E.
Qed.

Lemma priceOrCost_without_previous_close (prices : PriceMap)
  (pcm : JsMap.t (option Q)) (h : Holding) :
  NoDup (JsMap.keys prices) ->
  V2.previousCloseOf pcm (symbol h) = None ->
  priceOrCost (V2.previousPrices prices pcm) h = priceOrCost prices h.
Proof.
  intros Hnd Hn. unfold priceOrCost.
  rewrite previousPrices_get by exact Hnd. rewrite Hn.
  destruct (JsMap.get (symbol h) prices); reflexivity.
Qed.

Lemma zero_over (x : Q) :
  (if Num.gtb x 0 then (x - x) / x * 100 else 0) == 0.
Proof. apply zero_change_percent. Qed.

(** X12.  Where no holding has a previous close on record, the summary
    reports no day change: the previous-day value is the total value, and
    the day change and its percentage are zero. *)
Theorem no_previous_close_no_day_change :
  forall (year : Z) (hs : list Holding) (others : list OtherAsset)
         (txs : list Transaction) (divs : list Dividend)
         (prices : PriceMap) (pcm : JsMap.t (option Q)) (rate : Q),
    NoDup (JsMap.keys prices) ->
    (forall h, In h hs -> V2.previousCloseOf pcm (symbol h) = None) ->
    let s := generatePortfolioSummary year hs others txs divs prices
               (V2.previousPrices prices pcm) rate in
    ps_previousDayValue s = ps_totalValue s
    /\ ps_dayChange s == 0
    /\ ps_dayChangePercent s == 0.
Proof.
  intros year hs others txs divs prices pcm rate Hnd Hnone. cbv zeta.
  destruct (generatePortfolioSummary_fields year hs others txs divs prices
              (V2.previousPrices prices pcm) rate)
    as (H1 & _ & H3 & H4 & H5 & _).
  cbv zeta in *. rewrite H1, H3, H4, H5. clear H1 H3 H4 H5.
  assert (E : calculateHoldingsValue hs (V2.previousPrices prices pcm) rate
              = calculateHoldingsValue hs prices rate).
  { apply calculateHoldingsValue_from_ext. intros h Hh.
    apply priceOrCost_without_previous_close; auto. }
  rewrite E. split; [reflexivity|]. split; [ring|apply zero_over].
Qed.

Lemma no_previous_close_no_day_change_witness :
  ps_dayChange
    (generatePortfolioSummary 2024 [toyota; apple] [] [] [] toyotaQuote
       (V2.previousPrices toyotaQuote []) 150) == 0.
Proof.
  apply (@no_previous_close_no_day_change 2024 [toyota; apple] [] [] []
           toyotaQuote [] 150).
  - repeat constructor. intros [].
  - intros h _. reflexivity.
Defined.

End SummaryFacts.

(* ------------------------------------------------------------------ *)
(** * The route: consistency of the snapshot *)

Section SnapshotFacts.

Import Js Calculations Props Spec Route.

Lemma has_keys_eq (V W : Type) (k : jsstring) (m1 : JsMap.t V)
  (m2 : JsMap.t W) :
  JsMap.keys m1 = JsMap.keys m2 -> JsMap.has k m1 = JsMap.has k m2.
Proof.
  intros E. destruct (JsMap.has k m1) eqn:E1, (JsMap.has k m2) eqn:E2;
    try reflexivity.
  - apply has_In_keys in E1. rewrite E in E1. apply has_In_keys in E1.
    congruence.
  - apply has_In_keys in E2. rewrite <- E in E2. apply has_In_keys in E2.
    congruence.
Qed.

Lemma setQuote_aligned (sym : jsstring) (q : StockApi.StockQuote)
  (cur : jsstring) (qs : V2.Quotes) :
  aligned qs -> aligned (V2.setQuote sym q cur qs).
Proof.
  unfold aligned, V2.setQuote. intros E. cbn [fst snd].
  rewrite !keys_set, (has_keys_eq sym _ _ E), E. reflexivity.
Qed.

Lemma fold_left_inv (A B : Type) (P : A -> Prop) (f : A -> B -> A)
  (l : list B) :
  (forall a x, P a -> P (f a x)) -> forall a, P a -> P (fold_left f l a).
Proof.
  intros H. induction l as [|x l IH]; intros a Ha; simpl; [exact Ha|].
  apply IH, H, Ha.
Qed.

Lemma stockQuotesInto_aligned (w : World) (sh : list Holding)
  (qs : V2.Quotes) :
  aligned qs -> aligned (V2.stockQuotesInto w sh qs).
Proof.
  intros H. unfold V2.stockQuotesInto. destruct sh as [|h sh]; [exact H|].
  apply (fold_left_inv aligned); [|exact H].
  intros a x Ha. destruct (JsMap.get (symbol x) _); [|exact Ha].
  destruct (JsMap.get _ _); [apply setQuote_aligned, Ha|exact Ha].
Qed.

Lemma fundQuotesInto_aligned (w : World) (mf : list Holding)
  (qs : V2.Quotes) :
  aligned qs -> aligned (V2.fundQuotesInto w mf qs).
Proof.
  intros H. unfold V2.fundQuotesInto. destruct mf as [|h mf]; [exact H|].
  apply (fold_left_inv aligned); [|exact H].
  intros a [c l] Ha. destruct (StockApi.fetchMutualFundNAV _ _); [|exact Ha].
  apply (fold_left_inv aligned); [|exact Ha].
  intros a' sym Ha'. apply setQuote_aligned, Ha'.
Qed.

Lemma setCostBasis_NoDup (hs : list Holding) :
  forall P, NoDup (JsMap.keys P) -> NoDup (JsMap.keys (setCostBasis hs P)).
Proof.
  unfold setCostBasis.
  apply (fold_left_inv (fun P : PriceMap => NoDup (JsMap.keys P))).
  intros a x Ha. apply set_NoDup, Ha.
Qed.

Lemma snapshot_fields (w : World) (hs : list Holding) (prices : PriceMap)
  (priceSrc : jsstring) (previous : PriceMap)
  (step8 : Holding -> Holding) (txs : list Transaction) :
  let r := snapshot w hs prices priceSrc previous step8 txs in
  let rate :=
    fst (ExchangeRate.resolveRate (primaryRate w) (secondaryRate w)) in
  summary r
  = Some (generatePortfolioSummary (currentYear w) hs [] txs [] prices
            previous rate)
  /\ totalValueJPY r = Some (snd (calculateHoldingsValue hs prices rate))
  /\ categories r = generateCategorySummary hs [] prices rate
  /\ holdings r = map step8 (map (enrich prices) hs)
  /\ exchangeRate r = rate
  /\ priceSource r = Some priceSrc.
Proof.
  cbv zeta. unfold snapshot.
  destruct (ExchangeRate.resolveRate (primaryRate w) (secondaryRate w))
    as [rate src].
  cbn [fst].
  pose proof (calculateHoldingsValue_fst hs prices rate) as Hf.
  destruct (calculateHoldingsValue hs prices rate) as [es t] eqn:E.
  simpl in Hf. subst es. cbn. repeat split.
Qed.

Lemma resolveRate_nonzero (primary secondary : Http ExchangeRate.RateBody) :
  ~ fst (ExchangeRate.resolveRate primary secondary) == 0.
Proof.
  unfold ExchangeRate.resolveRate.
  destruct (ExchangeRate.fetchUsdJpyRate primary secondary) as [d|] eqn:E;
    cbn [fst]; [|intros H; discriminate H].
  assert (Ht : Num.truthy (ExchangeRate.rate d) = true).
  { unfold ExchangeRate.fetchUsdJpyRate, ExchangeRate.fetchFromAlternativeApi
      in E.
    repeat match type of E with
      | context [match ?x with _ => _ end] => destruct x eqn:?
      end; try discriminate; injection E as <-; cbn;
      try assumption;
      match goal with
      | H : _ && _ = true |- _ => apply andb_true_iff in H; apply H
      end. }
  intros Hz. rewrite (truthy_zero Hz) in Ht. discriminate.
Qed.

Lemma stored_toHolding (hs : list Holding) :
  map stored (map toHolding hs) = map stored hs.
Proof. rewrite map_map. apply map_ext. intros h. reflexivity. Qed.

(** X13.  A snapshot of a non-empty portfolio is consistent with itself: the
    summary's total value, the values of the categories added up and the
    reported JPY total are the same amount; the holdings come back in the
    stored order with their identifier, symbol, quantity, average cost and
    currency untouched; and the exchange rate is never zero. *)
Theorem snapshot_is_consistent :
  forall (w : World) (hs : list Holding),
    getHoldings w = Returns hs -> hs <> [] ->
    let r := V2.GET w in
    exists s t,
      summary r = Some s /\ totalValueJPY r = Some t
      /\ ps_totalValue s == t
      /\ sumQ (map cs_value (categories r)) == t
      /\ map stored (holdings r) = map stored hs
      /\ ~ exchangeRate r == 0.
Proof.
  intros w hs Hg Hne. cbv zeta. unfold V2.GET. rewrite Hg.
  destruct hs as [|h0 hs0]; [contradiction|].
  set (hs := h0 :: hs0) in *.
  destruct (V2.resolvePrices w (map toHolding hs)) as [qs src].
  destruct (snapshot_fields w (map toHolding hs) (fst qs) src
              (V2.previousPrices (fst qs) (snd qs))
              (withPrices (fst qs)) [])
    as (F1 & F2 & F3 & F4 & F5 & _).
  cbv zeta in *. do 2 eexists.
  split; [exact F1|]. split; [exact F2|].
  rewrite F3, F4, F5. split; [|split; [|split]].
  - destruct (total_value_parts (currentYear w) (map toHolding hs) []
                [] [] (fst qs) (V2.previousPrices (fst qs) (snd qs))
                (fst (ExchangeRate.resolveRate (primaryRate w)
                        (secondaryRate w)))) as [E _].
    rewrite E. unfold calculateOtherAssetsValue. simpl. ring.
  - rewrite category_values_sum.
    unfold calculateOtherAssetsValue. simpl. ring.
  - rewrite !map_map. rewrite <- (stored_toHolding hs), map_map.
    apply map_ext. intros h. reflexivity.
  - apply resolveRate_nonzero.
Qed.

Lemma snapshot_is_consistent_witness :
  exists s t,
    summary (V2.GET quoted) = Some s /\ totalValueJPY (V2.GET quoted) = Some t
    /\ ps_totalValue s == t
    /\ sumQ (map cs_value (categories (V2.GET quoted))) == t
    /\ map stored (holdings (V2.GET quoted)) = map stored [toyota]
    /\ ~ exchangeRate (V2.GET quoted) == 0.
Proof.
  apply (@snapshot_is_consistent quoted [toyota]);
    [reflexivity|discriminate].
Defined.

Lemma size_0_empty (V : Type) (m : JsMap.t V) :
  Nat.eqb (JsMap.size m) 0 = true -> m = [].
Proof.
  destruct m as [|e m]; [reflexivity|]. intros H. discriminate H.
Qed.

Lemma resolvePrices_aligned (w : World) (hs : list Holding) :
  aligned
    (V2.fundQuotesInto w (filter V2.isFund hs)
       (V2.stockQuotesInto w (filter (fun h => negb (V2.isFund h)) hs)
          (JsMap.empty, JsMap.empty))).
Proof.
  apply fundQuotesInto_aligned, stockQuotesInto_aligned. reflexivity.
Qed.

Lemma degraded_tier_maps (w : World) (hs : list Holding) (qs : V2.Quotes)
  (src : jsstring) :
  (forall cached,
      getLatestPrices w = Returns cached -> NoDup (JsMap.keys cached)) ->
  V2.resolvePrices w hs = (qs, src) ->
  src <> $"yahoo_finance" ->
  NoDup (JsMap.keys (fst qs)) /\ snd qs = [].
Proof.
  intros Hc E Hsrc. unfold V2.resolvePrices, V2.settleTiers in E.
  pose proof (resolvePrices_aligned w hs) as Ha.
  destruct (V2.fundQuotesInto _ _ _) as [p c]. cbn [fst snd] in *.
  destruct (Nat.eqb (JsMap.size p) 0) eqn:Es.
  - apply size_0_empty in Es. subst p. unfold aligned in Ha.
    cbn [fst snd] in Ha.
    assert (c = []) by (destruct c; [reflexivity|discriminate Ha]).
    subst c.
    destruct (getLatestPrices w) as [cached|e] eqn:Eg;
      injection E as <- <-; cbn [fst snd].
    + split; [apply Hc; reflexivity|reflexivity].
    + split; [apply setCostBasis_NoDup; constructor|reflexivity].
  - injection E as <- <-. contradiction Hsrc. reflexivity.
Qed.

(** X14.  When the price fetch brings no quote at all, the snapshot is priced
    from the cache or from the cost basis, and it reports no day change:
    both the day change of the summary and its percentage are zero. *)
Theorem degraded_tiers_report_no_day_change :
  forall (w : World) (hs : list Holding),
    getHoldings w = Returns hs -> hs <> [] ->
    (forall cached,
        getLatestPrices w = Returns cached -> NoDup (JsMap.keys cached)) ->
    priceSource (V2.GET w) <> Some $"yahoo_finance" ->
    exists s,
      summary (V2.GET w) = Some s
      /\ ps_previousDayValue s = ps_totalValue s
      /\ ps_dayChange s == 0 /\ ps_dayChangePercent s == 0.
Proof.
  intros w hs Hg Hne Hc Hsrc. revert Hsrc. unfold V2.GET. rewrite Hg.
  destruct hs as [|h0 hs0]; [contradiction|].
  set (hs := h0 :: hs0) in *.
  destruct (V2.resolvePrices w (map toHolding hs)) as [qs src] eqn:E.
  destruct (snapshot_fields w (map toHolding hs) (fst qs) src
              (V2.previousPrices (fst qs) (snd qs))
              (withPrices (fst qs)) [])
    as (F1 & _ & _ & _ & _ & F6).
  cbv zeta in *. rewrite F6. intros Hsrc.
  destruct (degraded_tier_maps w (map toHolding hs) Hc E) as [Hnd Hpc].
  { intros ->. apply Hsrc. reflexivity. }
  eexists. split; [exact F1|].
  set (rate := fst (ExchangeRate.resolveRate (primaryRate w)
                      (secondaryRate w))).
  destruct (generatePortfolioSummary_fields (currentYear w)
              (map toHolding hs) [] [] [] (fst qs)
              (V2.previousPrices (fst qs) (snd qs)) rate)
    as (H1 & _ & H3 & H4 & H5 & _).
  cbv zeta in *. rewrite H1, H3, H4, H5.
  assert (Ev : calculateHoldingsValue (map toHolding hs)
                 (V2.previousPrices (fst qs) (snd qs)) rate
               = calculateHoldingsValue (map toHolding hs) (fst qs) rate).
  { apply calculateHoldingsValue_from_ext. intros h _.
    apply priceOrCost_without_previous_close; [exact Hnd|].
    rewrite Hpc. reflexivity. }
  rewrite Ev. split; [reflexivity|]. split; [ring|apply zero_over].
Qed.

Lemma degraded_tiers_report_no_day_change_witness :
  exists s,
    summary (V2.GET cacheOnly) = Some s
    /\ ps_previousDayValue s = ps_totalValue s
    /\ ps_dayChange s == 0 /\ ps_dayChangePercent s == 0.
Proof.
  apply (@degraded_tiers_report_no_day_change cacheOnly [toyota]).
  - reflexivity.
  - discriminate.
  - intros cached H. injection H as <-. repeat constructor. intros [].
  - vm_compute. discriminate.
Defined.

End SnapshotFacts.

(* ------------------------------------------------------------------ *)
(** * Currency conversion *)

Section ConversionFacts.

Import Js Helpers.

Lemma convert_there_and_back (x rate : Q) :
  ~ rate == 0 ->
  convertJpyToUsd (convertUsdToJpy x rate) rate == x
  /\ convertUsdToJpy (convertJpyToUsd x rate) rate == x.
Proof.
  intros H. unfold convertJpyToUsd, convertUsdToJpy. split; field; exact H.
Qed.

(** X15.  The exchange rate the route settles on is never zero and its source
    tag is one of the three the code knows; so converting an amount to JPY
    and back to USD at that rate, or the other way round, gives the amount
    again. *)
Theorem resolved_rate_converts_both_ways :
  forall (primary secondary : Http ExchangeRate.RateBody) (x : Q),
    let r := ExchangeRate.resolveRate primary secondary in
    ~ fst r == 0
    /\ (snd r = $"exchangerate.host" \/ snd r = $"frankfurter.app"
        \/ snd r = $"default")
    /\ convertJpyToUsd (convertUsdToJpy x (fst r)) (fst r) == x
    /\ convertUsdToJpy (convertJpyToUsd x (fst r)) (fst r) == x.
Proof.
  intros primary secondary x. cbv zeta.
  pose proof (resolveRate_nonzero primary secondary) as Hz.
  split; [exact Hz|]. split; [|apply convert_there_and_back, Hz].
  unfold ExchangeRate.resolveRate, ExchangeRate.fetchUsdJpyRate,
    ExchangeRate.fetchFromAlternativeApi.
  destruct primary as [| |[|s [p|] d]], secondary as [| |[|s' [p'|] d']];
    cbn [fst snd]; try destruct (s && Num.truthy p);
    try destruct (Num.truthy p'); cbn; auto.
Qed.

End ConversionFacts.

(* ------------------------------------------------------------------ *)
(** * Quote Fetcher: the quotes *)

Section QuoteFacts.

Import Js StockApi Props.

Lemma currency_tag (o : option jsstring) :
  let c := match o with
           | Some cur => if str_eqb cur $"JPY" then $"JPY" else $"USD"
           | None => $"USD"
           end in
  c = $"JPY" \/ c = $"USD".
Proof.
  cbv zeta. destruct o as [cur|]; [|right; reflexivity].
  destruct (str_eqb cur $"JPY"); [left|right]; reflexivity.
Qed.

Lemma or_falls_back (x y : Q) : Num.or x y == 0 -> y == 0.
Proof.
  unfold Num.or. destruct (Num.truthy x) eqn:E; [|tauto].
  intros H. rewrite (truthy_zero H) in E. discriminate.
Qed.

Lemma or_undef_falls_back (o : option Q) (y : Q) :
  Num.or_undef o y == 0 -> y == 0.
Proof. destruct o as [x|]; [apply or_falls_back|tauto]. Qed.

Lemma fetchStockPriceV8_wellFormed (answer : Http ChartBody)
  (sym : jsstring) (q : StockQuote) :
  fetchStockPriceV8 answer sym = Some q ->
  wellFormed sym q /\ closeFallsBackOnPrice q.
Proof.
  unfold fetchStockPriceV8.
  destruct answer as [| |[| |c]]; try discriminate.
  intros H; injection H as <-. unfold wellFormed, closeFallsBackOnPrice.
  cbn [sq_symbol sq_currency sq_previousClose sq_change sq_price
       sq_changePercent].
  split; [split; [reflexivity|split; [apply currency_tag|split]]|].
  - intros pc ch Hpc Hch. injection Hpc as <-. injection Hch as <-.
    reflexivity.
  - intros pc Hpc. injection Hpc as <-. reflexivity.
  - eexists. split; [reflexivity|]. intros Hz.
    apply or_undef_falls_back, or_undef_falls_back in Hz. exact Hz.
Qed.

Lemma fetchMutualFundNAV_wellFormed (answer : Http str) (code : jsstring)
  (q : StockQuote) :
  fetchMutualFundNAV answer code = Some q ->
  wellFormed code q /\ sq_currency q = $"JPY" /\ 0 < sq_price q.
Proof.
  unfold fetchMutualFundNAV. destruct answer as [| |html]; try discriminate.
  destruct (extractNAV html) as [p|] eqn:E; [|discriminate].
  intros H; injection H as <-. unfold wellFormed.
  cbn [sq_symbol sq_currency sq_previousClose sq_change sq_price
       sq_changePercent].
  split; [split; [reflexivity|split; [left; reflexivity|split]]|split].
  - intros pc ch Hpc Hch. rewrite Hch in Hpc. cbn in Hpc.
    injection Hpc as <-. ring.
  - intros pc Hpc.
    destruct (match Regex.exec changeMatch_re html with
              | Some (Some g) => parseFloat (stripCommas g)
              | _ => Some 0
              end) as [ch|]; [|discriminate Hpc].
    cbn in Hpc. injection Hpc as <-. cbn [Num.nan_sub option_map].
    destruct (Num.gtb (p - ch) 0) eqn:Eg; [|reflexivity].
    apply gtb_pos in Eg.
    assert (Hne : ~ p - ch == 0)
      by (intros Hz; rewrite Hz in Eg; exact (Qlt_irrefl 0 Eg)).
    field. exact Hne.
  - reflexivity.
  - rewrite extractNAV_firstSome in E.
    apply firstSome_In, in_map_iff in E. destruct E as (r & Hr & _).
    exact (matchValue_pos _ Hr).
Qed.

(** X16.  Every quote in the map the quote fetcher returns is well formed:
    it is filed under its own symbol, its currency is JPY or USD, and its
    change and change percentage are taken against its previous close.  A
    quote for a fund code is in JPY with a positive price; the previous
    close of any other quote is a number, and zero only when the price is
    zero. *)
Theorem fetched_quotes_are_well_formed :
  forall (net : Providers) (symbols : list jsstring) (k : jsstring)
         (q : StockQuote),
    JsMap.get k (fetchMultipleStockPrices net symbols) = Some q ->
    wellFormed k q
    /\ (isMutualFundCode k = true ->
        sq_currency q = $"JPY" /\ 0 < sq_price q)
    /\ (isMutualFundCode k = false -> closeFallsBackOnPrice q).
Proof.
  intros net symbols k q H.
  apply fetchMultipleStockPrices_In in H. destruct H as [H _].
  unfold fetchOne in H. destruct (isMutualFundCode k).
  - apply fetchMutualFundNAV_wellFormed in H. destruct H as (Hw & Hc & Hp).
    split; [exact Hw|]. split; [intros _; split; assumption|discriminate].
  - apply fetchStockPriceV8_wellFormed in H. destruct H as [Hw Hc].
    split; [exact Hw|]. split; [discriminate|intros _; exact Hc].
Qed.

Lemma fetched_quotes_are_well_formed_witness :
  exists q,
    JsMap.get $"7203.T"
      (fetchMultipleStockPrices (Route.net Spec.quoted) [$"7203.T"])
    = Some q
    /\ wellFormed $"7203.T" q.
Proof.
  eexists. split; [vm_compute; reflexivity|].
  refine (proj1 (@fetched_quotes_are_well_formed (Route.net Spec.quoted)
                   [$"7203.T"] $"7203.T" _ _)).
  vm_compute. reflexivity.
Defined.

(** X17.  The quote-summary variant of the equity fetch returns well-formed
    quotes too, with a previous close that falls back on the price; and it
    returns nothing exactly when the request fails, the body cannot be
    read or the body has no price module. *)
Theorem summary_quote_is_well_formed :
  forall (answer : Http Helpers.SummaryBody) (sym : jsstring),
    match Helpers.fetchStockPrice answer sym with
    | Some q =>
        wellFormed sym q /\ closeFallsBackOnPrice q
        /\ exists pm, answer = Body (Helpers.PriceOf pm)
    | None => forall pm, answer <> Body (Helpers.PriceOf pm)
    end.
Proof.
  intros answer sym. unfold Helpers.fetchStockPrice.
  destruct answer as [| |[| |pm]]; try (intros pm' H; discriminate H).
  unfold wellFormed, closeFallsBackOnPrice.
  cbn [sq_symbol sq_currency sq_previousClose sq_change sq_price
       sq_changePercent].
  split; [split; [reflexivity|split; [apply currency_tag|split]]|split].
  - intros pc ch Hpc Hch. injection Hpc as <-. injection Hch as <-.
    reflexivity.
  - intros pc Hpc. injection Hpc as <-. reflexivity.
  - eexists. split; [reflexivity|]. apply or_undef_falls_back.
  - exists pm. reflexivity.
Qed.

End QuoteFacts.

(* ------------------------------------------------------------------ *)
(** * Symbol helpers *)

Section SymbolFacts.

Import Js Regex Spec Route.V2 Helpers.
Local Open Scope nat_scope.

Lemma test_four_digits (s : str) :
  test re_four_digits s = (length s =? 4) && forallb digit s.
Proof.
  unfold test, re_four_digits. cbn [Cat]. rewrite exec_bol, m_Seq, m_Rep.
  destruct s as [|a [|b [|c [|d [|e r]]]]]; try reflexivity.
  - cbn -[digit]. rewrite andb_true_r.
    destruct (digit a && (digit b && (digit c && digit d))); reflexivity.
  - cbn -[digit].
    destruct (digit a && (digit b && (digit c && (digit d && true))));
      reflexivity.
Qed.

Lemma four_digits_tokyo (code : str) :
  (length code =? 4) && forallb digit code = true ->
  is_tokyo_code code = true.
Proof.
  destruct code as [|a [|b [|c [|d [|e r]]]]]; try discriminate.
  cbn -[digit]. rewrite andb_true_r. intros H. rewrite <- H.
  destruct (digit a), (digit b), (digit c), (digit d); reflexivity.
Qed.

Lemma normalize_tokyo (code : str) :
  is_tokyo_code code = true ->
  normalizeSymbolForPriceLookup (code ++ $".T") = code ++ $".T".
Proof.
  intros H. unfold normalizeSymbolForPriceLookup.
  rewrite <- (app_nil_r (code ++ $".T")) at 1. rewrite <- app_assoc.
  rewrite (exec_tokyo_code code [] H). reflexivity.
Qed.

(** X18.  [formatJapaneseStockSymbol] appends [.T] to a code of exactly four
    digits and leaves every other string alone; it changes nothing when
    applied a second time; and a code it has completed is its own key for
    the price lookup and takes the equity path of the quote fetcher. *)
Theorem formatJapaneseStockSymbol_completes_codes :
  forall code : jsstring,
    formatJapaneseStockSymbol code
    = (if (length code =? 4) && forallb digit code
       then code ++ $".T" else code)
    /\ formatJapaneseStockSymbol (formatJapaneseStockSymbol code)
       = formatJapaneseStockSymbol code
    /\ ((length code =? 4) && forallb digit code = true ->
        normalizeSymbolForPriceLookup (formatJapaneseStockSymbol code)
        = formatJapaneseStockSymbol code
        /\ StockApi.isMutualFundCode (formatJapaneseStockSymbol code)
           = false).
Proof.
  intros code. unfold formatJapaneseStockSymbol.
  rewrite !test_four_digits.
  destruct ((length code =? 4) && forallb digit code) eqn:E.
  - split; [reflexivity|]. split.
    + rewrite length_app.
      apply andb_true_iff in E. destruct E as [El _].
      apply Nat.eqb_eq in El. rewrite El. reflexivity.
    + intros _. split; [apply normalize_tokyo, four_digits_tokyo, E|].
      rewrite isMutualFundCode_eq.
      apply andb_true_iff in E. destruct E as [El _].
      apply Nat.eqb_eq in El.
      rewrite length_app, El. reflexivity.
  - split; [reflexivity|]. split; [|discriminate].
    rewrite E. reflexivity.
Qed.

Lemma formatJapaneseStockSymbol_completes_codes_witness :
  normalizeSymbolForPriceLookup (formatJapaneseStockSymbol $"7203")
  = formatJapaneseStockSymbol $"7203"
  /\ StockApi.isMutualFundCode (formatJapaneseStockSymbol $"7203") = false.
Proof.
  apply (proj2 (proj2 (formatJapaneseStockSymbol_completes_codes $"7203"))).
  reflexivity.
Defined.

(** X19.  Normalising a symbol for the price lookup only ever cuts a suffix
    off, and a normalised symbol normalises to itself. *)
Theorem normalize_is_idempotent :
  forall symbol : jsstring,
    normalizeSymbolForPriceLookup (normalizeSymbolForPriceLookup symbol)
    = normalizeSymbolForPriceLookup symbol
    /\ exists suffix,
         symbol = normalizeSymbolForPriceLookup symbol ++ suffix.
Proof.
  intros symbol.
  destruct (exec re_tokyo symbol) as [[g|]|] eqn:E.
  - destruct (exec_tokyo_inv _ E) as (code & suffix & Hc & Hs & Hg).
    assert (En : normalizeSymbolForPriceLookup symbol = g)
      by (unfold normalizeSymbolForPriceLookup; rewrite E; reflexivity).
    rewrite En. subst g. split; [apply normalize_tokyo, Hc|].
    exists suffix. rewrite Hs, app_assoc. reflexivity.
  - exfalso. exact (re_tokyo_group_defined _ E).
  - assert (En : normalizeSymbolForPriceLookup symbol = symbol)
      by (unfold normalizeSymbolForPriceLookup; rewrite E; reflexivity).
    rewrite !En. split; [reflexivity|]. exists []. rewrite app_nil_r.
    reflexivity.
Qed.

End SymbolFacts.

(* ------------------------------------------------------------------ *)
(** * The price-update job *)

Section CronFacts.

Import Js StockApi Props.
Local Open Scope nat_scope.

Lemma savePrices_spec (env : Cron.Env) :
  forall entries store n,
    match Cron.savePrices env entries store n with
    | (Returns (store', n'), final) =>
        store' = store ++ map (priceRowOf env) entries
        /\ n' = n + length entries /\ final = store'
    | (Throws e, final) =>
        exists k,
          k < length entries
          /\ final = store ++ map (priceRowOf env) (firstn k entries)
          /\ Cron.appendThrows env final = Some e
    end.
Proof.
  induction entries as [|[sym data] rest IH]; intros store n.
  - cbn. rewrite app_nil_r. auto.
  - cbn [Cron.savePrices]. unfold Cron.append.
    destruct (Cron.appendThrows env store) as [e|] eqn:Et.
    + exists 0. cbn. rewrite app_nil_r. split; [lia|auto].
    + specialize (IH (store ++
                        [Cron.PriceRow (Cron.today env) sym (sq_price data)
                           (sq_currency data)]) (S n)).
      destruct (Cron.savePrices env rest _ (S n)) as [[[s' n']|e] final].
      * destruct IH as (H1 & H2 & H3). cbn [map length].
        rewrite H3, H1, <- app_assoc. split; [reflexivity|].
        split; [lia|reflexivity].
      * destruct IH as (k & Hk & Hf & He). exists (S k).
        cbn [length firstn map]. split; [lia|].
        rewrite Hf, <- app_assoc. split; [reflexivity|].
        rewrite <- He, Hf, <- app_assoc. reflexivity.
Qed.

Lemma priceRows_dated (env : Cron.Env)
  (entries : list (jsstring * StockQuote)) :
  Forall (datedToday env) (map (priceRowOf env) entries).
Proof.
  apply Forall_forall. intros row Hr. apply in_map_iff in Hr.
  destruct Hr as (e & <- & _). reflexivity.
Qed.

Lemma rateRows_dated (env : Cron.Env) : Forall (datedToday env) (rateRowsOf env).
Proof.
  unfold rateRowsOf. destruct (ExchangeRate.fetchUsdJpyRate _ _).
  - repeat constructor.
  - constructor.
Qed.

(** X20.  The price-update job only ever appends to the store, and only rows
    dated today.  A request whose authorization header is not the expected
    one is answered 401 and appends nothing; any other request is answered
    200 or 500.  Where no secret is configured, the header
    [Bearer undefined] is the expected one. *)
Theorem cron_only_appends :
  forall (env : Cron.Env) (authHeader : option jsstring)
         (store : list Cron.Appended),
    let r := Cron.GET env authHeader store in
    (exists added,
        snd r = store ++ added /\ Forall (datedToday env) added
        /\ (Cron.status (fst r) = 401 -> added = []))
    /\ (Cron.status (fst r) = 401 <->
        authHeader <> Some (Cron.expectedHeader (Cron.cronSecret env)))
    /\ (Cron.status (fst r) = 401 \/ Cron.status (fst r) = 200
        \/ Cron.status (fst r) = 500)
    /\ (Cron.cronSecret env = None ->
        Cron.expectedHeader (Cron.cronSecret env) = $"Bearer undefined").
Proof.
  intros env authHeader store. cbv zeta. unfold Cron.GET.
  set (authorized :=
         match authHeader with
         | Some h => str_eqb h (Cron.expectedHeader (Cron.cronSecret env))
         | None => false
         end).
  assert (Ha : authorized = true <->
               authHeader = Some (Cron.expectedHeader (Cron.cronSecret env))).
  { unfold authorized. destruct authHeader as [h|].
    - destruct (str_eqb_spec h (Cron.expectedHeader (Cron.cronSecret env)))
        as [->|Hn]; split; try reflexivity; try discriminate.
      intros H; injection H as ->. contradiction.
    - split; discriminate. }
  split; [|split; [|split]].
  4: { intros ->. reflexivity. }
  - destruct authorized; cbn [negb].
    2: { exists []. rewrite app_nil_r. cbn. auto. }
    destruct (Route.getHoldings (Cron.world env)) as [hs|e].
    2: { exists []. rewrite app_nil_r. cbn. split; [reflexivity|].
         split; [constructor|reflexivity]. }
    pose proof (savePrices_spec env
                  (fetchMultipleStockPrices (Route.net (Cron.world env))
                     (map symbol hs)) store 0) as Hs.
    destruct (Cron.savePrices env _ store 0) as [[[s' n']|e] final].
    + destruct Hs as (H1 & H2 & H3). subst s'.
      destruct (ExchangeRate.fetchUsdJpyRate _ _) as [rd|].
      * unfold Cron.append.
        destruct (Cron.appendThrows env _) as [e|]; cbn [fst snd].
        -- eexists. split; [reflexivity|].
           split; [apply priceRows_dated|discriminate].
        -- eexists. rewrite <- app_assoc. split; [reflexivity|].
           split; [|discriminate].
           apply Forall_app. split; [apply priceRows_dated|].
           repeat constructor.
      * cbn [fst snd]. eexists. split; [reflexivity|].
        split; [apply priceRows_dated|discriminate].
    + destruct Hs as (k & _ & Hf & _). cbn [fst snd]. eexists.
      split; [exact Hf|]. split; [apply priceRows_dated|discriminate].
  - destruct authorized; cbn [negb].
    + assert (Hok : authHeader
                    = Some (Cron.expectedHeader (Cron.cronSecret env)))
        by (apply Ha; reflexivity).
      split; [|intros Hn; contradiction].
      destruct (Route.getHoldings (Cron.world env)) as [hs|e];
        [|discriminate].
      destruct (Cron.savePrices env _ store 0) as [[[s' n']|e] final];
        [|discriminate].
      destruct (ExchangeRate.fetchUsdJpyRate _ _) as [rd|]; [|discriminate].
      destruct (Cron.append env _ s'); discriminate.
    + split; [|reflexivity]. intros _ Hh. apply Ha in Hh. discriminate.
  - destruct authorized; cbn [negb]; [|left; reflexivity].
    right.
    destruct (Route.getHoldings (Cron.world env)) as [hs|e];
      [|right; reflexivity].
    destruct (Cron.savePrices env _ store 0) as [[[s' n']|e] final];
      [|right; reflexivity].
    destruct (ExchangeRate.fetchUsdJpyRate _ _) as [rd|]; [|left; reflexivity].
    destruct (Cron.append env _ s'); [left|right]; reflexivity.
Qed.

(** X21.  A run of the price-update job that answers 200 has saved every
    fetched quote once, in the order of the quote map, followed by the
    exchange rate when there is one; it reports as [updatedSymbols] the
    number of quotes, which is never more than [totalSymbols], the number of
    holdings. *)
Theorem cron_success_saves_every_quote :
  forall (env : Cron.Env) (authHeader : option jsstring)
         (store : list Cron.Appended),
    let r := Cron.GET env authHeader store in
    Cron.status (fst r) = 200 ->
    exists hs,
      Route.getHoldings (Cron.world env) = Returns hs
      /\ let prices :=
           fetchMultipleStockPrices (Route.net (Cron.world env))
             (map symbol hs) in
         snd r = store ++ map (priceRowOf env) prices ++ rateRowsOf env
         /\ Cron.success (fst r) = true
         /\ Cron.updatedSymbols (fst r) = Some (length prices)
         /\ Cron.totalSymbols (fst r) = Some (length hs)
         /\ length prices <= length hs
         /\ Cron.exchangeRate (fst r)
            = Some (option_map ExchangeRate.rate
                      (ExchangeRate.fetchUsdJpyRate
                         (Route.primaryRate (Cron.world env))
                         (Route.secondaryRate (Cron.world env)))).
Proof.
  intros env authHeader store. cbv zeta. unfold Cron.GET, rateRowsOf.
  destruct (negb _); [discriminate|].
  destruct (Route.getHoldings (Cron.world env)) as [hs|e]; [|discriminate].
  pose proof (savePrices_spec env
                (fetchMultipleStockPrices (Route.net (Cron.world env))
                   (map symbol hs)) store 0) as Hs.
  pose proof (fetchMultipleStockPrices_size (Route.net (Cron.world env))
                (map symbol hs)) as Hle.
  unfold JsMap.size in Hle. rewrite length_map in Hle.
  destruct (Cron.savePrices env _ store 0) as [[[s' n']|e] final];
    [|discriminate].
  destruct Hs as (H1 & H2 & _). subst s' n'.
  destruct (ExchangeRate.fetchUsdJpyRate _ _) as [rd|].
  - unfold Cron.append.
    destruct (Cron.appendThrows env _) as [e|]; [discriminate|].
    intros _. exists hs. split; [reflexivity|]. cbn.
    rewrite <- app_assoc, length_map. repeat split. exact Hle.
  - intros _. exists hs. split; [reflexivity|]. cbn.
    rewrite app_nil_r, length_map. repeat split. exact Hle.
Qed.

Lemma cron_success_saves_every_quote_witness :
  exists hs,
    Route.getHoldings (Cron.world cronEnv) = Returns hs
    /\ snd (Cron.GET cronEnv (Some $"Bearer s3cret") [])
       = [] ++ map (priceRowOf cronEnv)
                 (fetchMultipleStockPrices (Route.net (Cron.world cronEnv))
                    (map symbol hs))
            ++ rateRowsOf cronEnv.
Proof.
  destruct (@cron_success_saves_every_quote cronEnv
              (Some $"Bearer s3cret") []) as (hs & Hg & Hs & _).
  - vm_compute. reflexivity.
  - exists hs. split; [exact Hg|exact Hs].
Defined.

End CronFacts.

(* ------------------------------------------------------------------ *)
(** * The price cache *)

Section CacheFacts.

Import Js Sheets Props.

Variable parseFloatOf : option jsstring -> option Q.
Variable timeOf : option jsstring -> option Z.

Lemma key_eqb_spec (a b : option jsstring) : reflect (a = b) (key_eqb a b).
Proof.
  destruct a as [x|], b as [y|]; cbn; try (constructor; congruence).
  destruct (str_eqb_spec x y); constructor; congruence.
Qed.

Lemma kget_kset_same (V : Type) (k : option jsstring) (v : V) (mp : KMap V) :
  kget k (kset k v mp) = Some v.
Proof.
  induction mp as [|[k' v'] mp IH]; cbn.
  - destruct (key_eqb_spec k k); congruence.
  - destruct (key_eqb_spec k' k) as [E|E]; cbn;
      destruct (key_eqb_spec k' k); congruence.
Qed.

Lemma kget_kset_other (V : Type) (k k0 : option jsstring) (v : V)
  (mp : KMap V) :
  k <> k0 -> kget k0 (kset k v mp) = kget k0 mp.
Proof.
  intros Hne. induction mp as [|[k' v'] mp IH]; cbn.
  - destruct (key_eqb_spec k k0); congruence.
  - destruct (key_eqb_spec k' k) as [E|E]; cbn;
      destruct (key_eqb_spec k' k0); congruence.
Qed.

Lemma kget_map (V W : Type) (f : V -> W) (k : option jsstring)
  (mp : KMap V) :
  kget k (map (fun e : option jsstring * V => (fst e, f (snd e))) mp)
  = option_map f (kget k mp).
Proof.
  induction mp as [|[k' v'] mp IH]; cbn; [reflexivity|].
  destruct (key_eqb k' k); [reflexivity|exact IH].
Qed.

Lemma laterThan_irrefl (d : option jsstring) : laterThan timeOf d d = false.
Proof.
  unfold laterThan. destruct (timeOf d); [apply Z.ltb_irrefl|reflexivity].
Qed.

Lemma laterThan_displaced (a b c : option jsstring) :
  laterThan timeOf a b = false -> laterThan timeOf c b = true ->
  laterThan timeOf a c = false.
Proof.
  unfold laterThan.
  destruct (timeOf a) as [x|], (timeOf b) as [y|], (timeOf c) as [z|];
    try reflexivity; try discriminate.
  rewrite Z.ltb_ge, Z.ltb_lt. intros H1 H2. apply Z.ltb_ge. lia.
Qed.

(** The invariant of the loop over the rows. *)
Lemma recordRow_latest (seen : list Row) (mp : KMap PriceEntry) (row : Row) :
  (forall k,
      match kget k mp with
      | Some e =>
          exists r, latestFor timeOf k seen r /\ e = entryOfRow parseFloatOf r
      | None => forall r, In r seen -> cell r 1 <> k
      end) ->
  forall k,
    match kget k (recordRow parseFloatOf timeOf mp row) with
    | Some e =>
        exists r,
          latestFor timeOf k (seen ++ [row]) r
          /\ e = entryOfRow parseFloatOf r
    | None => forall r, In r (seen ++ [row]) -> cell r 1 <> k
    end.
Proof.
  intros Inv k. unfold recordRow.
  fold (entryOfRow parseFloatOf row).
  destruct (key_eqb_spec (cell row 1) k) as [<-|Hne].
  - pose proof (Inv (cell row 1)) as I.
    destruct (kget (cell row 1) mp) as [e|] eqn:Eg.
    + destruct I as (r & (Hin & Hk & Hl) & ->). cbn [pe_date entryOfRow].
      destruct (laterThan timeOf (cell row 0) (cell r 0)) eqn:El.
      * rewrite kget_kset_same. exists row. split; [|reflexivity].
        split; [apply in_or_app; right; left; reflexivity|].
        split; [reflexivity|]. intros r' Hr' Hk'.
        apply in_app_or in Hr'. destruct Hr' as [Hr'|[<-|[]]].
        -- exact (laterThan_displaced _ _ _ (Hl r' Hr' Hk') El).
        -- apply laterThan_irrefl.
      * rewrite Eg. exists r. split; [|reflexivity].
        split; [apply in_or_app; left; exact Hin|].
        split; [exact Hk|]. intros r' Hr' Hk'.
        apply in_app_or in Hr'. destruct Hr' as [Hr'|[<-|[]]].
        -- exact (Hl r' Hr' Hk').
        -- exact El.
    + rewrite kget_kset_same. exists row. split; [|reflexivity].
      split; [apply in_or_app; right; left; reflexivity|].
      split; [reflexivity|]. intros r' Hr' Hk'.
      apply in_app_or in Hr'. destruct Hr' as [Hr'|[<-|[]]].
      * exfalso. exact (I r' Hr' Hk').
      * apply laterThan_irrefl.
  - assert (Ek : kget k
                   match kget (cell row 1) mp with
                   | Some existing =>
                       if laterThan timeOf (cell row 0) (pe_date existing)
                       then kset (cell row 1) (entryOfRow parseFloatOf row) mp
                       else mp
                   | None =>
                       kset (cell row 1) (entryOfRow parseFloatOf row) mp
                   end
                 = kget k mp).
    { destruct (kget (cell row 1) mp) as [e|].
      - destruct (laterThan timeOf (cell row 0) (pe_date e));
          [apply kget_kset_other, Hne|reflexivity].
      - apply kget_kset_other, Hne. }
    rewrite Ek. pose proof (Inv k) as I.
    destruct (kget k mp) as [e|].
    + destruct I as (r & (Hin & Hk & Hl) & ->). exists r.
      split; [|reflexivity].
      split; [apply in_or_app; left; exact Hin|].
      split; [exact Hk|]. intros r' Hr' Hk'.
      apply in_app_or in Hr'. destruct Hr' as [Hr'|[<-|[]]].
      * exact (Hl r' Hr' Hk').
      * contradiction.
    + intros r Hr. apply in_app_or in Hr. destruct Hr as [Hr|[<-|[]]].
      * exact (I r Hr).
      * exact Hne.
Qed.

Lemma rows_latest (rows : list Row) :
  forall (seen : list Row) (mp : KMap PriceEntry),
    (forall k,
        match kget k mp with
        | Some e =>
            exists r,
              latestFor timeOf k seen r /\ e = entryOfRow parseFloatOf r
        | None => forall r, In r seen -> cell r 1 <> k
        end) ->
    forall k,
      match kget k (fold_left (recordRow parseFloatOf timeOf) rows mp) with
      | Some e =>
          exists r,
            latestFor timeOf k (seen ++ rows) r
            /\ e = entryOfRow parseFloatOf r
      | None => forall r, In r (seen ++ rows) -> cell r 1 <> k
      end.
Proof.
  induction rows as [|row rows IH]; intros seen mp Inv k.
  - cbn [fold_left]. rewrite app_nil_r. apply Inv.
  - cbn [fold_left].
    replace (seen ++ row :: rows) with ((seen ++ [row]) ++ rows)
      by (rewrite <- app_assoc; reflexivity).
    apply IH. apply recordRow_latest, Inv.
Qed.

End CacheFacts.

(* ------------------------------------------------------------------ *)
(** * The price cache: the latest row *)

Section LatestPriceFacts.

Import Js Sheets Props.

(** X22.  The price cache answers, for a symbol, with the price and currency
    of a row of the price history that carries the symbol and that no other
    row of the symbol is dated later than; it has no entry exactly for the
    symbols no row carries.  The header row is not read, so a sheet of at
    most one row gives an empty cache. *)
Theorem cache_keeps_latest_row :
  forall (parseFloatOf : option jsstring -> option Q)
         (timeOf : option jsstring -> option Z)
         (data : list Row) (k : option jsstring),
    match kget k (getLatestPrices parseFloatOf timeOf data) with
    | Some p =>
        exists row,
          latestFor timeOf k (tl data) row
          /\ p = priceOfRow parseFloatOf row
    | None => forall row, In row (tl data) -> cell row 1 <> k
    end.
Proof.
  intros parseFloatOf timeOf data k. unfold getLatestPrices.
  destruct (Nat.leb (length data) 1) eqn:El.
  - cbn [kget]. destruct data as [|hd [|r rs]]; try discriminate El;
      intros row [].
  - rewrite (kget_map (fun e => mkPrice (pe_price e) (pe_currency e))).
    pose proof (@rows_latest parseFloatOf timeOf (tl data) [] []) as H.
    cbn [app] in H.
    specialize (H (fun k' r (F : In r []) => match F with end) k).
    destruct (kget k (fold_left (recordRow parseFloatOf timeOf) (tl data) []))
      as [e|]; cbn [option_map].
    + destruct H as (r & Hl & ->). exists r. split; [exact Hl|reflexivity].
    + exact H.
Qed.

End LatestPriceFacts.

(* ------------------------------------------------------------------ *)
(** * Valuation Engine: the totals of the year *)

Section YearFacts.

Import Js Calculations Spec.

Lemma sumQ_app (l l' : list Q) : sumQ (l ++ l') == sumQ l + sumQ l'.
Proof.
  induction l as [|x l IH]; simpl; [ring|]. rewrite IH. ring.
Qed.

(** X23.  The realized P&L of the year and the dividends of the year are sums
    over the records: a list in two parts gives the sum of the parts; a
    purchase, a record of another year and a record with an invalid date
    change nothing; and a sale of the year adds its realized P&L (zero when
    the record has none), converted to JPY. *)
Theorem year_totals_are_sums :
  forall (txs txs' : list Transaction) (divs divs' : list Dividend)
         (year : Z) (rate : Q),
    calculateYearRealizedPL (txs ++ txs') year rate
    == calculateYearRealizedPL txs year rate
       + calculateYearRealizedPL txs' year rate
    /\ calculateYearDividends (divs ++ divs') year rate
       == calculateYearDividends divs year rate
          + calculateYearDividends divs' year rate
    /\ (forall t,
          tx_type t = buy \/ tx_year t <> Some year ->
          calculateYearRealizedPL (t :: txs) year rate
          = calculateYearRealizedPL txs year rate)
    /\ (forall t,
          tx_type t = sell -> tx_year t = Some year ->
          calculateYearRealizedPL (t :: txs) year rate
          == toJPY (tx_currency t) (Num.or_undef (tx_realizedPL t) 0) rate
             + calculateYearRealizedPL txs year rate)
    /\ (forall d,
          dv_year d <> Some year ->
          calculateYearDividends (d :: divs) year rate
          = calculateYearDividends divs year rate)
    /\ (forall d,
          dv_year d = Some year ->
          calculateYearDividends (d :: divs) year rate
          == toJPY (dv_currency d) (dv_amount d) rate
             + calculateYearDividends divs year rate).
Proof.
  intros txs txs' divs divs' year rate.
  unfold calculateYearRealizedPL, calculateYearDividends.
  split; [|split; [|split; [|split; [|split]]]].
  - rewrite filter_app, !fold_left_sum, map_app, sumQ_app. ring.
  - rewrite filter_app, !fold_left_sum, map_app, sumQ_app. ring.
  - intros t Ht. cbn [filter].
    replace (year_is (tx_year t) year
             && match tx_type t with sell => true | buy => false end)
      with false; [reflexivity|].
    destruct Ht as [->|Hy]; [apply eq_sym, andb_false_r|].
    unfold year_is. destruct (tx_year t) as [v|]; [|reflexivity].
    destruct (Z.eqb_spec v year) as [->|]; [|reflexivity].
    contradiction Hy. reflexivity.
  - intros t Ht Hy. cbn [filter]. rewrite Ht, Hy. unfold year_is.
    rewrite Z.eqb_refl. cbn [andb fold_left].
    rewrite !fold_left_sum. ring.
  - intros d Hy. cbn [filter].
    replace (year_is (dv_year d) year) with false; [reflexivity|].
    unfold year_is. destruct (dv_year d) as [v|]; [|reflexivity].
    destruct (Z.eqb_spec v year) as [->|]; [|reflexivity].
    contradiction Hy. reflexivity.
  - intros d Hy. cbn [filter]. rewrite Hy. unfold year_is.
    rewrite Z.eqb_refl. cbn [fold_left]. rewrite !fold_left_sum. ring.
Qed.

End YearFacts.

(* ------------------------------------------------------------------ *)
(** * The route, first revision: the estimated day change *)

Section EstimateFacts.

Import Js Calculations Props Spec Route.

Lemma get_fold_set_entries (V W : Type) (g : jsstring * V -> W)
  (k : jsstring) (mp : JsMap.t V) :
  NoDup (JsMap.keys mp) ->
  forall acc,
    JsMap.get k
      (fold_left (fun pp (e : jsstring * V) => JsMap.set (fst e) (g e) pp)
         mp acc)
    = match JsMap.get k mp with
      | Some v => Some (g (k, v))
      | None => JsMap.get k acc
      end.
Proof.
  induction mp as [|[k0 v0] mp IH]; intros Hnd acc; [reflexivity|].
  cbn [JsMap.keys map fst] in Hnd.
  inversion Hnd as [|? ? Hk Hnd']; subst.
  cbn [fold_left JsMap.get fst]. rewrite (IH Hnd').
  destruct (str_eqb_spec k0 k) as [->|Hne].
  - replace (JsMap.get k mp) with (@None V)
      by (symmetry; apply get_None_keys, Hk).
    apply get_set_same.
  - destruct (JsMap.get k mp); [reflexivity|].
    apply get_set_other. exact Hne.
Qed.

Lemma V1_previousPrices_get (prices : PriceMap) (k : jsstring) :
  NoDup (JsMap.keys prices) ->
  JsMap.get k (V1.previousPrices prices)
  = option_map
      (fun q => mkPrice (price q * (998 # 1000)) (price_currency q))
      (JsMap.get k prices).
Proof.
  intros Hnd. unfold V1.previousPrices.
  rewrite (@get_fold_set_entries PriceData PriceData
             (fun e : jsstring * PriceData =>
                mkPrice (price (snd e) * (998 # 1000))
                  (price_currency (snd e))) k prices Hnd).
  destruct (JsMap.get k prices); reflexivity.
Qed.

Lemma truthy_scaled (x : Q) : Num.truthy (x * (998 # 1000)) = Num.truthy x.
Proof.
  destruct (Num.truthy x) eqn:E.
  - apply truthy_nonzero. intros Hz.
    apply Qmult_integral in Hz. destruct Hz as [Hz|Hz]; [|discriminate Hz].
    rewrite (truthy_zero Hz) in E. discriminate.
  - apply truthy_zero.
    assert (Hz : x == 0).
    { unfold Num.truthy in E. apply negb_false_iff, Qeq_bool_iff in E.
      exact E. }
    rewrite Hz. reflexivity.
Qed.

Lemma V1_previous_value (prices : PriceMap) (rate : Q) (h : Holding) :
  NoDup (JsMap.keys prices) ->
  holdingValueJPY (V1.previousPrices prices) rate h
  == if quotedIn prices h
     then (998 # 1000) * holdingValueJPY prices rate h
     else holdingValueJPY prices rate h.
Proof.
  intros Hnd. unfold holdingValueJPY, priceOrCost, quotedIn.
  rewrite V1_previousPrices_get by exact Hnd.
  destruct (JsMap.get (symbol h) prices) as [q|]; [|reflexivity].
  cbn [option_map Num.or_undef price]. unfold Num.or.
  rewrite truthy_scaled. destruct (Num.truthy (price q)); [|reflexivity].
  unfold toJPY, convertUsdToJpy. destruct (str_eqb (currency h) $"USD"); ring.
Qed.

Lemma V1_value_drop (prices : PriceMap) (rate : Q) (hs : list Holding) :
  NoDup (JsMap.keys prices) ->
  sumQ (map (holdingValueJPY prices rate) hs)
  - sumQ (map (holdingValueJPY (V1.previousPrices prices) rate) hs)
  == (2 # 1000)
     * sumQ (map (holdingValueJPY prices rate) (filter (quotedIn prices) hs)).
Proof.
  intros Hnd. induction hs as [|h hs IH]; [reflexivity|].
  cbn [map filter sumQ fold_right].
  change (fold_right Qplus 0 ?l) with (sumQ l) in *.
  rewrite (@V1_previous_value prices rate h Hnd).
  destruct (quotedIn prices h); cbn [map sumQ fold_right];
    change (fold_right Qplus 0 ?l) with (sumQ l) in *.
  - setoid_replace
      (holdingValueJPY prices rate h + sumQ (map (holdingValueJPY prices rate) hs)
       - ((998 # 1000) * holdingValueJPY prices rate h
          + sumQ (map (holdingValueJPY (V1.previousPrices prices) rate) hs)))
      with ((2 # 1000) * holdingValueJPY prices rate h
            + (sumQ (map (holdingValueJPY prices rate) hs)
               - sumQ (map (holdingValueJPY (V1.previousPrices prices) rate)
                         hs))) by ring.
    rewrite IH. ring.
  - setoid_replace
      (holdingValueJPY prices rate h + sumQ (map (holdingValueJPY prices rate) hs)
       - (holdingValueJPY prices rate h
          + sumQ (map (holdingValueJPY (V1.previousPrices prices) rate) hs)))
      with (sumQ (map (holdingValueJPY prices rate) hs)
            - sumQ (map (holdingValueJPY (V1.previousPrices prices) rate) hs))
      by ring.
    exact IH.
Qed.

Lemma V1_resolvePrices_NoDup (w : World) (hs : list Holding) :
  NoDup (JsMap.keys (fst (V1.resolvePrices w hs))).
Proof.
  unfold V1.resolvePrices. cbn [fst].
  apply (fold_left_inv (fun P : PriceMap => NoDup (JsMap.keys P))).
  - intros a x Ha. apply set_NoDup, Ha.
  - constructor.
Qed.

(** X24.  In the first revision of the route the day change is an estimate:
    every snapshot is priced from the live quotes, and its day change is
    0.2% of the JPY value of the holdings that have a quote with a non-zero
    price; the holdings valued at cost contribute nothing. *)
Theorem first_revision_estimates_day_change :
  forall (w : World) (hs : list Holding),
    getHoldings w = Returns hs -> hs <> [] ->
    let prices := fst (V1.resolvePrices w (map toHolding hs)) in
    exists s,
      summary (V1.GET w) = Some s
      /\ priceSource (V1.GET w) = Some $"yahoo_finance"
      /\ ps_dayChange s
         == (2 # 1000)
            * sumQ (map (holdingValueJPY prices
                           (exchangeRate (V1.GET w)))
                      (filter (quotedIn prices) (map toHolding hs))).
Proof.
  intros w hs Hg Hne. cbv zeta. unfold V1.GET. rewrite Hg.
  destruct hs as [|h0 hs0]; [contradiction|].
  set (hs := h0 :: hs0) in *.
  pose proof (V1_resolvePrices_NoDup w (map toHolding hs)) as Hnd.
  assert (Hsrc : snd (V1.resolvePrices w (map toHolding hs))
                 = $"yahoo_finance") by reflexivity.
  destruct (V1.resolvePrices w (map toHolding hs)) as [prices src].
  cbn [fst snd] in *. subst src.
  destruct (snapshot_fields w (map toHolding hs) prices $"yahoo_finance"
              (V1.previousPrices prices) (withPrices prices) [])
    as (F1 & _ & _ & _ & F5 & F6).
  cbv zeta in *. eexists. split; [exact F1|]. split; [exact F6|].
  rewrite F5.
  set (rate := fst (ExchangeRate.resolveRate (primaryRate w)
                      (secondaryRate w))).
  destruct (generatePortfolioSummary_fields (currentYear w)
              (map toHolding hs) [] [] [] prices
              (V1.previousPrices prices) rate)
    as (_ & _ & _ & H4 & _).
  cbv zeta in H4. rewrite H4, !calculateHoldingsValue_snd.
  rewrite <- (@V1_value_drop prices rate (map toHolding hs) Hnd). ring.
Qed.

Lemma first_revision_estimates_day_change_witness :
  exists s,
    summary (V1.GET quoted) = Some s
    /\ priceSource (V1.GET quoted) = Some $"yahoo_finance"
    /\ ps_dayChange s == (2 # 1000) * 285600.
Proof.
  destruct (@first_revision_estimates_day_change quoted [toyota])
    as (s & H1 & H2 & H3).
  - reflexivity.
  - discriminate.
  - exists s. split; [exact H1|]. split; [exact H2|].
    rewrite H3. vm_compute. reflexivity.
Defined.

End EstimateFacts.

(* ------------------------------------------------------------------ *)
(** * Valuation Engine and step 8: the formulas *)

Section FormulaFacts.

Import Js Calculations Spec Route.

Lemma withPrices_fields (prices : PriceMap) (h : Holding) :
  let cp := priceOrCost prices h in
  currentPrice (withPrices prices h) = Some cp
  /\ totalValue (withPrices prices h) = Some (cp * quantity h)
  /\ unrealizedPL (withPrices prices h)
     = Some ((cp - avgCost h) * quantity h)
  /\ unrealizedPLPercent (withPrices prices h)
     = Some (if Num.gtb (avgCost h) 0
             then (cp - avgCost h) / avgCost h * 100 else 0).
Proof. cbv zeta. unfold withPrices. repeat split. Qed.

Lemma enrich_unrealizedPL (prices : PriceMap) (h : Holding) :
  unrealizedPL (enrich prices h)
  = Some (priceOrCost prices h * quantity h - avgCost h * quantity h).
Proof. reflexivity. Qed.

Lemma step8_percent_without_quantity (prices : PriceMap) (h : Holding) :
  0 < avgCost h -> ~ 0 < quantity h ->
  holds (unrealizedPLPercent (withPrices prices h))
    ((priceOrCost prices h - avgCost h) / avgCost h * 100)
  /\ holds (unrealizedPLPercent (enrich prices h)) 0.
Proof.
  intros Ha Hq. unfold withPrices, enrich.
  cbn [unrealizedPLPercent holds].
  apply gtb_pos in Ha as Hb. rewrite Hb. split; [reflexivity|].
  destruct (Num.gtb (avgCost h * quantity h) 0) eqn:E; [|reflexivity].
  apply gtb_pos in E. exfalso. apply Hq.
  destruct (Qlt_le_dec 0 (quantity h)) as [Hlt|Hle]; [exact Hlt|].
  exfalso. apply (Qlt_not_le _ _ E).
  setoid_replace 0 with (avgCost h * 0) by ring.
  apply Qmult_le_l; [exact Ha|exact Hle].
Qed.

(** C1, as the code has it.  The Valuation Engine gives every holding
    [totalValue = currentPrice * quantity], an [unrealizedPL] computed as
    [totalValue - avgCost * quantity], which is
    [(currentPrice - avgCost) * quantity] in exact arithmetic, and
    [unrealizedPLPercent = unrealizedPL / (avgCost * quantity) * 100] when
    [avgCost * quantity > 0], [0] otherwise.  Step 8 of the route writes
    [currentPrice * quantity] and [(currentPrice - avgCost) * quantity]
    and guards the percentage by [avgCost > 0]: the same values for a
    positive quantity; for a quantity that is not positive and a positive
    average cost the route reports [(currentPrice - avgCost) / avgCost *
    100] where the Valuation Engine reports [0].  A holding of 100 units
    bought at 2400 JPY and quoted at 2856 is valued at 285600, with a gain
    of 45600, that is 19 percent, by both, in exact arithmetic and in
    double precision, where step 8 computes the formula of the
    specification as it stands and agrees with the Valuation Engine on the
    current price and the total value. *)
Theorem valuation_formulas :
  (forall hs prices rate,
      Forall2 valuedAs hs (fst (calculateHoldingsValue hs prices rate))
      /\ Forall2
           (fun h e =>
              unrealizedPL e
              = Some (priceOrCost prices h * quantity h
                      - avgCost h * quantity h))
           hs (fst (calculateHoldingsValue hs prices rate)))
  /\ (forall h prices,
        let cp := priceOrCost prices h in
        holds (totalValue (withPrices prices h)) (cp * quantity h)
        /\ holds (unrealizedPL (withPrices prices h))
             ((cp - avgCost h) * quantity h)
        /\ (0 < quantity h -> valuedAs h (withPrices prices h))
        /\ (0 < avgCost h -> ~ 0 < quantity h ->
            holds (unrealizedPLPercent (withPrices prices h))
              ((cp - avgCost h) / avgCost h * 100)
            /\ holds (unrealizedPLPercent (enrich prices h)) 0))
  /\ (forall h prices rate q,
        quantity h = 100 -> avgCost h = 2400 -> currency h = $"JPY" ->
        JsMap.get (symbol h) prices = Some q -> price q = 2856 ->
        exists e,
          fst (calculateHoldingsValue [h] prices rate) = [e]
          /\ holds (totalValue e) 285600
          /\ holds (unrealizedPL e) 45600
          /\ holds (unrealizedPLPercent e) 19
          /\ snd (calculateHoldingsValue [h] prices rate) == 285600
          /\ holds (totalValue (withPrices prices h)) 285600
          /\ holds (unrealizedPL (withPrices prices h)) 45600
          /\ holds (unrealizedPLPercent (withPrices prices h)) 19)
  /\ (forall price avgCost quantity,
        Doubles.currentPrice (Doubles.withPrices price avgCost quantity)
        = Doubles.currentPrice (Doubles.enrich price avgCost quantity)
        /\ Doubles.totalValue (Doubles.withPrices price avgCost quantity)
           = Doubles.totalValue (Doubles.enrich price avgCost quantity)
        /\ Doubles.unrealizedPL (Doubles.withPrices price avgCost quantity)
           = Doubles.gainFormula
               (Doubles.priceOrCost price avgCost) avgCost quantity)
  /\ Doubles.enrich (Some Doubles.scenarioPrice) Doubles.scenarioCost
       Doubles.scenarioQuantity = Doubles.scenario
  /\ Doubles.withPrices (Some Doubles.scenarioPrice) Doubles.scenarioCost
       Doubles.scenarioQuantity = Doubles.scenario.
Proof.
  split; [|split; [|split; [|split; [|split]]]].
  - intros hs prices rate. rewrite calculateHoldingsValue_fst.
    split; induction hs as [|h hs IH]; simpl; constructor; auto.
    apply enrich_valuedAs.
  - intros h prices. cbv zeta.
    destruct (withPrices_fields prices h) as (_ & H2 & H3 & _).
    cbv zeta in *. rewrite H2, H3.
    split; [reflexivity|]. split; [reflexivity|].
    split; [apply route_step8_valuation|].
    apply step8_percent_without_quantity.
  - intros h prices rate q Hq Ha Hc Hg Hp.
    exists (enrich prices h). split; [reflexivity|].
    unfold calculateHoldingsValue, calculateHoldingsValue_from, enrich,
      withPrices, holdingValueJPY, toJPY, priceOrCost, holds.
    cbn [totalValue unrealizedPL unrealizedPLPercent snd].
    rewrite Hq, Ha, Hc, Hg. simpl option_map. rewrite Hp.
    vm_compute. repeat split; reflexivity.
  - intros price avgCost quantity. repeat split.
  - vm_compute. reflexivity.
  - vm_compute. reflexivity.
Qed.

Lemma valuation_formulas_witness :
  (exists e,
      fst (calculateHoldingsValue [toyota] toyotaQuote 150) = [e]
      /\ holds (totalValue e) 285600
      /\ holds (unrealizedPL e) 45600
      /\ holds (unrealizedPLPercent e) 19)
  /\ holds (unrealizedPLPercent
              (withPrices [($"9984.T", mkPrice 200 $"JPY")]
                 (mkHolding $"3" $"9984.T" $"SoftBank" $"domestic_stock" 0
                    100 $"JPY" $"specific" $"2024-03-10" None None None
                    None None None)))
       ((200 - 100) / 100 * 100).
Proof.
  destruct valuation_formulas as (_ & H2 & H3 & _). split.
  - destruct (H3 toyota toyotaQuote 150 (mkPrice 2856 $"JPY"))
      as (e & E1 & E2 & E3 & E4 & _); try reflexivity.
    exists e. repeat split; assumption.
  - apply (H2 (mkHolding $"3" $"9984.T" $"SoftBank" $"domestic_stock" 0
                 100 $"JPY" $"specific" $"2024-03-10" None None None
                 None None None)
              [($"9984.T", mkPrice 200 $"JPY")]).
    + reflexivity.
    + intros H. discriminate H.
Defined.

(** C1, as stated, fails twice.  In double precision the Valuation Engine
    subtracts two rounded products: for a price of 0.3, a cost of 0.1 and a
    quantity of 3 its [unrealizedPL] is not [(0.3 - 0.1) * 3].  And step 8
    of the route does not report [0] percent for a quantity of zero. *)
Lemma valuation_not_exact_nor_zero_at_zero_quantity :
  Doubles.unrealizedPL
    (Doubles.enrich (Some Doubles.threeTenths) Doubles.oneTenth
       Doubles.three)
  <> Doubles.gainFormula Doubles.threeTenths Doubles.oneTenth Doubles.three
  /\ ~ (forall h prices, valuedAs h (withPrices prices h)).
Proof.
  split.
  - vm_compute. intros H. discriminate H.
  - intros H.
    specialize (H (mkHolding $"3" $"9984.T" $"SoftBank" $"domestic_stock" 0
                     100 $"JPY" $"specific" $"2024-03-10" None None None
                     None None None)
                  [($"9984.T", mkPrice 200 $"JPY")]).
    destruct H as (cp & tv & pl & pct & _ & _ & _ & Hpct & _ & _ & _ & Hz).
    injection Hpct as <-.
    assert (Hn : ~ 0 < 100 * 0) by (intros C; discriminate C).
    specialize (Hz Hn). vm_compute in Hz. discriminate Hz.
Qed.

End FormulaFacts.

(* ------------------------------------------------------------------ *)
(** * Degradation Controller: which tiers cover every holding *)

Section TierCoverageFacts.

Import Js Calculations Spec Props Route.





End TierCoverageFacts.

(* ------------------------------------------------------------------ *)
(** * Day change: the baseline of step 6 and the holdings of step 8 *)

Section BaselineFacts.

Import Js Calculations Spec Props Route.





End BaselineFacts.

(* ------------------------------------------------------------------ *)
(** * Symbol Resolver: the symbols the stock step requests *)

Section RequestFacts.

Import Js StockApi Props Route.

Lemma filter_filter_comm (A : Type) (f g : A -> bool) (l : list A) :
  filter f (filter g l) = filter g (filter f l).
Proof.
  induction l as [|x l IH]; [reflexivity|]. cbn [filter].
  destruct (f x) eqn:Ef, (g x) eqn:Eg; cbn [filter];
    rewrite ?Ef, ?Eg, IH; reflexivity.
Qed.

Lemma filter_implied (A : Type) (f g : A -> bool) (l : list A) :
  (forall x, f x = true -> g x = true) ->
  filter f (filter g l) = filter f l.
Proof.
  intros H. induction l as [|x l IH]; [reflexivity|]. cbn [filter].
  destruct (g x) eqn:Eg; cbn [filter].
  - rewrite IH. reflexivity.
  - destruct (f x) eqn:Ef; [|exact IH].
    rewrite (H x Ef) in Eg. discriminate.
Qed.

Lemma filter_both (A : Type) (f g : A -> bool) (l : list A) :
  filter f (filter g l) = filter (fun x => g x && f x) l.
Proof.
  induction l as [|x l IH]; [reflexivity|]. cbn [filter].
  destruct (g x); cbn [filter andb]; [|exact IH].
  destruct (f x); rewrite IH; reflexivity.
Qed.

Lemma fold_left_ext_in (A B : Type) (f g : A -> B -> A) (l : list B) :
  (forall a x, In x l -> f a x = g a x) ->
  forall a, fold_left f l a = fold_left g l a.
Proof.
  induction l as [|x l IH]; intros H a; [reflexivity|].
  cbn [fold_left]. rewrite (H a x (or_introl eq_refl)).
  apply IH. intros a' y Hy. apply H. right. exact Hy.
Qed.

Lemma filter_all (A : Type) (f : A -> bool) (l : list A) :
  (forall x, f x = true) -> filter f l = l.
Proof.
  intros H. induction l as [|x l IH]; [reflexivity|].
  cbn [filter]. rewrite H, IH. reflexivity.
Qed.

(** The [Set] of the deduplication: the first occurrences that are not
    among the strings seen already. *)
Lemma unique_from_firstOccurrences (l : list jsstring) :
  forall seen,
    V2.unique_from seen l
    = filter (fun y => negb (mem y seen)) (firstOccurrences l).
Proof.
  induction l as [|x l IH]; intros seen; [reflexivity|].
  cbn [V2.unique_from firstOccurrences filter]. fold (mem x seen).
  destruct (mem x seen) eqn:E; cbn [negb].
  - rewrite IH. symmetry. apply filter_implied.
    intros y Hy. destruct (str_eqb_spec y x) as [->|]; [|reflexivity].
    rewrite E in Hy. discriminate.
  - f_equal. rewrite IH, filter_both. apply filter_ext.
    intros y. unfold mem. cbn [existsb]. rewrite negb_orb. reflexivity.
Qed.

Lemma unique_firstOccurrences (l : list jsstring) :
  V2.unique l = firstOccurrences l.
Proof.
  unfold V2.unique. rewrite unique_from_firstOccurrences.
  apply filter_all. reflexivity.
Qed.

(** Leaving a string out commutes with taking first occurrences. *)
Lemma firstOccurrences_without (c : jsstring) (l : list jsstring) :
  filter (fun y => negb (str_eqb y c)) (firstOccurrences l)
  = firstOccurrences (filter (fun y => negb (str_eqb y c)) l).
Proof.
  induction l as [|x l IH]; [reflexivity|].
  cbn [firstOccurrences filter].
  destruct (str_eqb_spec x c) as [->|Hne]; cbn [negb].
  - rewrite <- IH. apply filter_implied. intros y Hy. exact Hy.
  - cbn [firstOccurrences]. f_equal.
    rewrite filter_filter_comm, IH. reflexivity.
Qed.

Lemma map_without (f : jsstring -> jsstring) (x : jsstring)
  (l : list jsstring) :
  filter (fun y => negb (str_eqb y (f x)))
    (map f (filter (fun y => negb (str_eqb y x)) l))
  = filter (fun y => negb (str_eqb y (f x))) (map f l).
Proof.
  induction l as [|y r IH]; [reflexivity|].
  cbn [filter map].
  destruct (str_eqb_spec y x) as [->|Hne]; cbn [negb map filter].
  - rewrite str_eqb_refl. cbn [negb]. exact IH.
  - rewrite IH. reflexivity.
Qed.

Lemma firstOccurrences_map (f : jsstring -> jsstring) (l : list jsstring) :
  firstOccurrences (map f (firstOccurrences l))
  = firstOccurrences (map f l).
Proof.
  induction l as [|x l IH]; [reflexivity|].
  cbn [firstOccurrences map]. f_equal.
  rewrite (firstOccurrences_without (f x)
             (map f (filter (fun y => negb (str_eqb y x))
                       (firstOccurrences l)))).
  rewrite map_without, <- firstOccurrences_without, IH. reflexivity.
Qed.

(** A map filled with a value that depends on the key only lists its keys
    in the order of their first occurrence. *)
Lemma fold_set_entries (g : jsstring -> jsstring) (l : list jsstring) :
  forall ks,
    NoDup ks ->
    fold_left (fun mp k => JsMap.set k (g k) mp) l
      (map (fun k => (k, g k)) ks)
    = map (fun k => (k, g k))
        (ks ++ filter (fun y => negb (mem y ks)) (firstOccurrences l)).
Proof.
  induction l as [|x l IH]; intros ks Hnd.
  - cbn. rewrite app_nil_r. reflexivity.
  - cbn [fold_left firstOccurrences filter].
    destruct (mem x ks) eqn:E; cbn [negb].
    + replace (JsMap.set x (g x) (map (fun k => (k, g k)) ks))
        with (map (fun k => (k, g k)) ks).
      * rewrite (IH ks Hnd). do 2 f_equal. symmetry. apply filter_implied.
        intros y Hy. destruct (str_eqb_spec y x) as [->|]; [|reflexivity].
        rewrite E in Hy. discriminate.
      * clear - E. induction ks as [|k ks IHk]; [discriminate E|].
        cbn [map JsMap.set]. cbn [mem existsb] in E.
        destruct (str_eqb_spec k x) as [->|Hne]; [reflexivity|].
        f_equal. apply IHk.
        destruct (str_eqb_spec x k) as [->|]; [contradiction|exact E].
    + replace (JsMap.set x (g x) (map (fun k => (k, g k)) ks))
        with (map (fun k => (k, g k)) (ks ++ [x])).
      * rewrite IH.
        -- rewrite <- app_assoc. cbn [app]. do 3 f_equal.
           rewrite filter_both. apply filter_ext. intros y.
           unfold mem. rewrite existsb_app. cbn [existsb].
           rewrite orb_false_r, negb_orb, andb_comm. reflexivity.
        -- apply NoDup_app; [exact Hnd|repeat constructor; intros []|].
           intros y Hy [<-|[]]. apply mem_In in Hy. congruence.
      * clear - E. induction ks as [|k ks IHk]; [reflexivity|].
        cbn [map app JsMap.set]. cbn [mem existsb] in E.
        apply orb_false_iff in E. destruct E as [E1 E2].
        destruct (str_eqb_spec k x) as [->|Hne].
        -- rewrite str_eqb_refl in E1. discriminate.
        -- f_equal. apply IHk, E2.
Qed.

Lemma symbolToNormalized_values (sh : list Holding) :
  JsMap.values
    (fold_left
       (fun mp h =>
          JsMap.set (symbol h)
            (V2.normalizeSymbolForPriceLookup (symbol h)) mp)
       sh JsMap.empty)
  = map V2.normalizeSymbolForPriceLookup
      (firstOccurrences (map symbol sh)).
Proof.
  rewrite <- (fold_left_map
                (fun mp k =>
                   JsMap.set k (V2.normalizeSymbolForPriceLookup k) mp)
                symbol sh).
  change (@JsMap.empty jsstring)
    with (map (fun k => (k, V2.normalizeSymbolForPriceLookup k)) []).
  rewrite fold_set_entries by constructor.
  cbn [app]. unfold JsMap.values. rewrite map_map. cbn [snd].
  f_equal. apply filter_all. reflexivity.
Qed.

(** X3.  The stock step asks the quote fetcher for each normalized symbol
    once, in the order in which the holdings first bring it up: the request
    is the list of first occurrences of the holdings' normalized symbols.
    It has no repetitions, and every stock holding's normalized symbol is
    in it. *)
Theorem stock_step_requests_first_occurrences :
  forall (w : World) (h : Holding) (sh0 : list Holding) (qs : V2.Quotes),
    let sh := h :: sh0 in
    let requested :=
      firstOccurrences
        (map (fun x => V2.normalizeSymbolForPriceLookup (symbol x)) sh) in
    uniqueNormalizedSymbols sh = requested
    /\ NoDup requested
    /\ (forall x,
          In x requested <->
          exists h', In h' sh
                     /\ V2.normalizeSymbolForPriceLookup (symbol h') = x)
    /\ V2.stockQuotesInto w sh qs
       = fold_left
           (fun acc h' =>
              match JsMap.get (V2.normalizeSymbolForPriceLookup (symbol h'))
                      (fetchMultipleStockPrices (net w) requested) with
              | Some q => V2.setQuote (symbol h') q (sq_currency q) acc
              | None => acc
              end)
           sh qs.
Proof.
  intros w h sh0 qs. cbv zeta. set (sh := h :: sh0).
  assert (E : uniqueNormalizedSymbols sh
              = firstOccurrences
                  (map (fun x => V2.normalizeSymbolForPriceLookup (symbol x))
                     sh)).
  { unfold uniqueNormalizedSymbols.
    rewrite symbolToNormalized_values, unique_firstOccurrences,
      firstOccurrences_map, map_map. reflexivity. }
  split; [exact E|].
  split; [|split].
  - rewrite <- E. apply unique_from_NoDup.
  - rewrite <- E. unfold uniqueNormalizedSymbols.
    rewrite symbolToNormalized_values.
    intros x. unfold V2.unique. rewrite unique_from_In.
    rewrite in_map_iff. split.
    + intros [(k & <- & Hk) _].
      assert (Hk' : In k (V2.unique (map symbol sh)))
        by (rewrite unique_firstOccurrences; exact Hk).
      unfold V2.unique in Hk'. rewrite unique_from_In in Hk'.
      destruct Hk' as [Hk' _]. apply in_map_iff in Hk'.
      destruct Hk' as (h' & <- & Hh'). exists h'.
      split; [exact Hh'|reflexivity].
    + intros (h' & Hh' & <-). split; [|intros []].
      exists (symbol h'). split; [reflexivity|].
      rewrite <- unique_firstOccurrences. unfold V2.unique.
      rewrite unique_from_In. split; [apply in_map, Hh'|intros []].
  - unfold V2.stockQuotesInto. unfold sh at 1. fold sh.
    fold (uniqueNormalizedSymbols sh). rewrite E.
    apply fold_left_ext_in. intros acc h' Hh'.
    rewrite get_fold_set_fun.
    replace (mem (symbol h') (map symbol sh)) with true
      by (symmetry; apply mem_In, in_map, Hh').
    reflexivity.
Qed.

End RequestFacts.

(* ------------------------------------------------------------------ *)
(** * NAV Extractor: the five patterns *)

Section PatternFacts.

Import Js Regex StockApi Spec.
Local Open Scope nat_scope.

Lemma startsWith_app (l s : str) : startsWith l (l ++ s) = true.
Proof.
  unfold startsWith. rewrite firstn_app, firstn_all, Nat.sub_diag.
  cbn [firstn]. rewrite app_nil_r. apply str_eqb_refl.
Qed.

Lemma m_Lit_fail (A : Type) (k : cont A) (l s : str) (n : nat)
  (c : option str) :
  startsWith l s = false -> m (Lit l) k (MState s n c) = None.
Proof.
  intros H. destruct (m (Lit l) k (MState s n c)) eqn:E; [|reflexivity].
  destruct (@m_Lit_inv A k l s n c) as [s' ->]; [congruence|].
  rewrite startsWith_app in H. discriminate.
Qed.

(** The search passes over a prefix in which the opening literal does not
    begin. *)
Lemma search_skip_absent (l : str) (r : re) (pre s : str) :
  absentBefore l pre s = true ->
  forall n,
    search (Seq (Lit l) r) (pre ++ s) n
    = search (Seq (Lit l) r) s (length pre + n).
Proof.
  induction pre as [|x pre IH]; intros H n; [reflexivity|].
  cbn [absentBefore] in H. apply andb_true_iff in H. destruct H as [H1 H2].
  apply negb_true_iff in H1.
  cbn [app search]. rewrite m_Seq, m_Lit_fail by exact H1.
  rewrite (IH H2). cbn [length]. rewrite Nat.add_succ_r. reflexivity.
Qed.

Lemma search_here (r : re) (s : str) (n : nat) (g : option str) :
  m r accept (MState s n None) = Some g -> search r s n = Some g.
Proof. intros H. destruct s; cbn [search]; rewrite H; reflexivity. Qed.

Lemma exec_at (l : str) (r : re) (pre s : str) (g : option str) :
  absentBefore l pre s = true ->
  (forall n, m (Seq (Lit l) r) accept (MState s n None) = Some g) ->
  exec (Seq (Lit l) r) (pre ++ s) = Some g.
Proof.
  intros Ha Hm. unfold exec. rewrite search_skip_absent by exact Ha.
  apply search_here, Hm.
Qed.

Lemma stopsAt_head (p : cls) (s : str) :
  stopsAt p s = true ->
  match s with x :: _ => p x = false | [] => True end.
Proof.
  destruct s as [|x s]; [trivial|]. cbn. apply negb_true_iff.
Qed.

Lemma forallb_impl (p q : cls) (l : str) :
  (forall c, p c = true -> q c = true) ->
  forallb p l = true -> forallb q l = true.
Proof.
  intros H. induction l as [|x l IH]; [reflexivity|].
  cbn [forallb]. rewrite !andb_true_iff. intros [Hx Hl].
  split; [apply H, Hx|apply IH, Hl].
Qed.

Lemma forallb_not_In (k : char) (l : str) :
  forallb (cls_not (is_char k)) l = true -> ~ In k l.
Proof.
  induction l as [|x l IH]; [intros _ []|].
  cbn [forallb]. rewrite andb_true_iff. intros [Hx Hl] [->|Hin].
  - unfold cls_not, is_char in Hx. rewrite N.eqb_refl in Hx. discriminate.
  - exact (IH Hl Hin).
Qed.

Lemma numberText_inv (g : str) :
  numberText g = true ->
  exists d num,
    g = d :: num /\ digit_or_comma d = true
    /\ forallb digit_or_comma num = true.
Proof.
  destruct g as [|d num]; [discriminate|]. cbn [numberText forallb].
  rewrite andb_true_iff. intros [Hd Hn]. exists d, num. auto.
Qed.

(** A group of one or more code units of a class captures the whole run. *)
Lemma m_Group_Plus (A : Type) (p : cls) (k : cont A) (d : char)
  (num tail : str) (n : nat) (c : option str) :
  p d = true -> forallb p num = true -> stopsAt p tail = true ->
  k (MState tail (length num + S n) (Some (d :: num))) <> None ->
  m (Group (Plus p)) k (MState ((d :: num) ++ tail) n c)
  = k (MState tail (length num + S n) (Some (d :: num))).
Proof.
  intros Hd Hnum Hstop Hk.
  assert (Hcap : firstn (length num + S n - n) ((d :: num) ++ tail)
                 = d :: num).
  { replace (length num + S n - n) with (S (length num)) by lia.
    cbn [app firstn]. f_equal.
    rewrite firstn_app, firstn_all, Nat.sub_diag. cbn [firstn].
    apply app_nil_r. }
  cbn [m Plus rest pos cap app]. rewrite Hd.
  rewrite star_run; cbn [rest pos].
  - cbn [app] in Hcap. rewrite Hcap. reflexivity.
  - exact Hnum.
  - apply stopsAt_head, Hstop.
  - cbn [app] in Hcap. rewrite Hcap. exact Hk.
Qed.

(** Behind the last place where a literal can begin, the greedy star finds
    no way on. *)
Lemma star_none_lit (A : Type) (p : cls) (c0 : char) (l : str) (r : re)
  (K : cont A) (s : str) :
  p c0 = true -> stopsAt p s = true ->
  forall t n c,
    forallb p t = true -> ~ In c0 t ->
    star p (m (Seq (Lit (c0 :: l)) r) K) (t ++ s) n c = None.
Proof.
  intros Hc0 Hs.
  assert (Hend : forall n c,
             star p (m (Seq (Lit (c0 :: l)) r) K) s n c = None).
  { intros n c. destruct s as [|x s]; cbn [star]; [reflexivity|].
    cbn in Hs. apply negb_true_iff in Hs. rewrite Hs.
    cbn [m Lit rest]. unfold is_char at 1.
    destruct (N.eqb_spec x c0) as [->|]; [congruence|reflexivity]. }
  induction t as [|y t IH]; intros n c Ht Hn; [apply Hend|].
  cbn [forallb] in Ht. apply andb_true_iff in Ht. destruct Ht as [Hy Ht].
  cbn [app star]. rewrite Hy, IH; [|exact Ht|intros H; apply Hn; right; exact H].
  cbn [m Lit rest]. unfold is_char at 1.
  destruct (N.eqb_spec y c0) as [->|]; [|reflexivity].
  exfalso. apply Hn. left. reflexivity.
Qed.

(** The greedy star gives back as far as the last place where the literal
    that follows it begins. *)
Lemma star_find_last (A : Type) (p : cls) (c0 : char) (l : str) (r : re)
  (K : cont A) (t s : str) :
  p c0 = true -> forallb p t = true -> ~ In c0 t -> stopsAt p s = true ->
  forall a n c,
    forallb p a = true ->
    (forall n', m (Seq (Lit (c0 :: l)) r) K (MState (c0 :: t ++ s) n' c)
                <> None) ->
    star p (m (Seq (Lit (c0 :: l)) r) K) (a ++ c0 :: t ++ s) n c
    = m (Seq (Lit (c0 :: l)) r) K (MState (c0 :: t ++ s) (length a + n) c).
Proof.
  intros Hc0 Ht Hn Hs. induction a as [|x a IH]; intros n c Ha Hk.
  - cbn [app star length]. rewrite Hc0.
    rewrite (@star_none_lit A p c0 l r K s Hc0 Hs t (S n) c Ht Hn).
    reflexivity.
  - cbn [forallb] in Ha. apply andb_true_iff in Ha. destruct Ha as [Hx Ha].
    cbn [app star length]. rewrite Hx, (IH (S n) c Ha Hk).
    rewrite Nat.add_succ_r. cbn [Nat.add].
    destruct (m (Seq (Lit (c0 :: l)) r) K
                (MState (c0 :: t ++ s) (S (length a + n)) c)) eqn:E;
      [reflexivity|].
    exfalso. exact (Hk _ E).
Qed.

(** Classes that exclude one another. *)
Lemma dc_noQuote (c : char) : digit_or_comma c = true -> noQuote c = true.
Proof.
  intros H. unfold noQuote, cls_not, is_char.
  destruct (N.eqb_spec c quote) as [->|]; [discriminate H|reflexivity].
Qed.

Lemma space_noQuote (c : char) : space c = true -> noQuote c = true.
Proof.
  intros H. unfold noQuote, cls_not, is_char.
  destruct (N.eqb_spec c quote) as [->|]; [discriminate H|reflexivity].
Qed.

Lemma dc_not_ki (c : char) :
  digit_or_comma c = true -> cls_not (is_char 22522) c = true.
Proof.
  intros H. unfold cls_not, is_char.
  destruct (N.eqb_spec c 22522) as [->|]; [discriminate H|reflexivity].
Qed.

Lemma space_not_ki (c : char) :
  space c = true -> cls_not (is_char 22522) c = true.
Proof.
  intros H. unfold cls_not, is_char.
  destruct (N.eqb_spec c 22522) as [->|]; [discriminate H|reflexivity].
Qed.

Lemma dc_not_space (c : char) : digit_or_comma c = true -> space c = false.
Proof.
  intros H. destruct (space c) eqn:E; [|reflexivity].
  rewrite (space_not_digit_or_comma c E) in H. discriminate.
Qed.

(** ** The patterns at the place where their text begins *)

Lemma m_closing (post : str) (n : nat) (c : option str) :
  m (Seq (Lit $"</span>") Eps) accept (MState ($"</span>" ++ post) n c)
  = Some c.
Proof. rewrite m_Seq, m_Lit. reflexivity. Qed.

(** Pattern 1. *)
Lemma m_styledSpan (a b c g post : str) (n : nat) :
  forallb noQuote a = true -> forallb noQuote b = true ->
  forallb (cls_not (is_char 83)) b = true ->
  forallb noGt c = true -> numberText g = true ->
  m priceMatch_re accept (MState (styledSpan a b c g post) n None)
  = Some (Some g).
Proof.
  intros Ha Hb HbS Hc Hg. unfold noQuote, noGt in *.
  destruct (numberText_inv g Hg) as (d & num & -> & Hd & Hnum).
  set (R5 := Seq (Lit $"</span>") Eps).
  set (R4 := Seq (Group (Plus digit_or_comma)) R5).
  set (R3 := Seq (Lit $">") R4).
  set (R2 := Seq (Star (cls_not (is_char 62))) R3).
  set (R1 := Seq (Lit [quote]) R2).
  set (R0 := Seq (Star (cls_not (is_char quote))) R1).
  assert (H4 : forall p cp,
             m R4 accept (MState ((d :: num) ++ $"</span>" ++ post) p cp)
             = Some (Some (d :: num))).
  { intros p cp. unfold R4. rewrite m_Seq.
    rewrite m_Group_Plus;
      [apply m_closing|exact Hd|exact Hnum|reflexivity|].
    unfold R5. rewrite m_closing. discriminate. }
  assert (H3 : forall p cp,
             m R3 accept
               (MState ($">" ++ (d :: num) ++ $"</span>" ++ post) p cp)
             = Some (Some (d :: num))).
  { intros p cp. unfold R3. rewrite m_Seq, m_Lit. apply H4. }
  assert (H2 : forall p cp,
             m R2 accept
               (MState (c ++ $">" ++ (d :: num) ++ $"</span>" ++ post) p cp)
             = Some (Some (d :: num))).
  { intros p cp. unfold R2. rewrite m_Seq, m_Star. cbn [rest pos cap].
    rewrite star_run; [apply H3|exact Hc|reflexivity|].
    rewrite H3. discriminate. }
  assert (H1 : forall p cp,
             m R1 accept
               (MState ([quote] ++ c ++ $">" ++ (d :: num) ++ $"</span>"
                          ++ post) p cp)
             = Some (Some (d :: num))).
  { intros p cp. unfold R1. rewrite m_Seq, m_Lit. apply H2. }
  assert (H0 : forall p cp,
             m R0 accept
               (MState (b ++ [quote] ++ c ++ $">" ++ (d :: num)
                          ++ $"</span>" ++ post) p cp)
             = Some (Some (d :: num))).
  { intros p cp. unfold R0. rewrite m_Seq, m_Star. cbn [rest pos cap].
    rewrite star_run; [apply H1|exact Hb|reflexivity|].
    rewrite H1. discriminate. }
  assert (HS : forall p cp,
             m (Seq (Lit $"StyledNumber") R0) accept
               (MState ($"StyledNumber" ++ b ++ [quote] ++ c ++ $">"
                          ++ (d :: num) ++ $"</span>" ++ post) p cp)
             = Some (Some (d :: num))).
  { intros p cp. rewrite m_Seq, m_Lit. apply H0. }
  unfold priceMatch_re, styledSpan. cbn [Cat].
  fold R5. fold R4. fold R3. fold R2. fold R1. fold R0.
  rewrite (app_assoc $"class=" [quote]).
  rewrite m_Seq, m_Lit, m_Seq, m_Star. cbn [rest pos cap].
  change ($"StyledNumber" ++ b ++ [quote] ++ c ++ $">" ++ (d :: num)
            ++ $"</span>" ++ post)
    with (83%N :: $"tyledNumber" ++ b ++ [quote] ++ c ++ $">" ++ (d :: num)
            ++ $"</span>" ++ post) in *.
  rewrite (app_assoc $"tyledNumber" b) in *.
  change (Lit $"StyledNumber") with (Lit (83%N :: $"tyledNumber")) in *.
  rewrite star_find_last.
  - apply HS.
  - reflexivity.
  - rewrite forallb_app, Hb. reflexivity.
  - intros H. apply in_app_or in H. destruct H as [H|H].
    + vm_compute in H. intuition discriminate.
    + exact (forallb_not_In _ _ HbS H).
  - reflexivity.
  - exact Ha.
  - intros n'. rewrite HS. discriminate.
Qed.

(** Pattern 2. *)
Lemma m_yenSpan (attrs g ws post : str) (n : nat) :
  forallb noGt attrs = true -> numberText g = true ->
  forallb space ws = true ->
  m priceMatch2_re accept (MState (yenSpan attrs g ws post) n None)
  = Some (Some g).
Proof.
  intros Hat Hg Hws. unfold noGt in *.
  destruct (numberText_inv g Hg) as (d & num & -> & Hd & Hnum).
  set (R6 := Seq (Lit yen) Eps).
  set (R5 := Seq (Star space) R6).
  set (R4 := Seq (Lit $"</span>") R5).
  set (R3 := Seq (Group (Plus digit_or_comma)) R4).
  set (R2 := Seq (Lit $">") R3).
  assert (H6 : forall p cp,
             m R6 accept (MState (yen ++ post) p cp) = Some cp).
  { intros p cp. unfold R6. rewrite m_Seq, m_Lit. reflexivity. }
  assert (H5 : forall p cp,
             m R5 accept (MState (ws ++ yen ++ post) p cp) = Some cp).
  { intros p cp. unfold R5. rewrite m_Seq, m_Star. cbn [rest pos cap].
    rewrite star_run; [apply H6|exact Hws|reflexivity|].
    rewrite H6. discriminate. }
  assert (H4 : forall p cp,
             m R4 accept (MState ($"</span>" ++ ws ++ yen ++ post) p cp)
             = Some cp).
  { intros p cp. unfold R4. rewrite m_Seq, m_Lit. apply H5. }
  assert (H3 : forall p cp,
             m R3 accept
               (MState ((d :: num) ++ $"</span>" ++ ws ++ yen ++ post) p cp)
             = Some (Some (d :: num))).
  { intros p cp. unfold R3. rewrite m_Seq.
    rewrite m_Group_Plus;
      [apply H4|exact Hd|exact Hnum|reflexivity|].
    rewrite H4. discriminate. }
  unfold priceMatch2_re, yenSpan. cbn [Cat].
  fold R6. fold R5. fold R4. fold R3. fold R2.
  rewrite m_Seq, m_Lit, m_Seq, m_Star. cbn [rest pos cap].
  assert (H2 : forall p cp,
             m R2 accept
               (MState ($">" ++ (d :: num) ++ $"</span>" ++ ws ++ yen
                          ++ post) p cp)
             = Some (Some (d :: num))).
  { intros p cp. unfold R2. rewrite m_Seq, m_Lit. apply H3. }
  rewrite star_run; [apply H2|exact Hat|reflexivity|].
  rewrite H2. discriminate.
Qed.

(** Pattern 4. *)
Lemma m_ogContent (a ws g b s : str) (n : nat) :
  forallb noQuote a = true -> forallb space ws = true ->
  numberText g = true ->
  forallb noQuote b = true -> forallb (cls_not (is_char 22522)) b = true ->
  stopsAt digit_or_comma (b ++ s) = true -> stopsAt noQuote s = true ->
  m ogMatch_re accept (MState (ogContent a ws g (b ++ s)) n None)
  = Some (Some g).
Proof.
  intros Ha Hws Hg Hb Hbk Hstop Hs.
  pose proof space_noQuote as Hsq. pose proof dc_noQuote as Hdq.
  unfold noQuote in *.
  destruct (numberText_inv g Hg) as (d & num & -> & Hd & Hnum).
  set (R3 := Seq (Group (Plus digit_or_comma)) Eps).
  set (R2 := Seq (Star space) R3).
  assert (H3 : forall p cp,
             m R3 accept (MState ((d :: num) ++ b ++ s) p cp)
             = Some (Some (d :: num))).
  { intros p cp. unfold R3. rewrite m_Seq.
    rewrite m_Group_Plus;
      [reflexivity|exact Hd|exact Hnum|exact Hstop|discriminate]. }
  assert (H2 : forall p cp,
             m R2 accept (MState (ws ++ (d :: num) ++ b ++ s) p cp)
             = Some (Some (d :: num))).
  { intros p cp. unfold R2. rewrite m_Seq, m_Star. cbn [rest pos cap].
    rewrite star_run; [apply H3|exact Hws| |rewrite H3; discriminate].
    cbn [app]. apply dc_not_space, Hd. }
  assert (HL : forall p cp,
             m (Seq (Lit kijunKagaku) R2) accept
               (MState (kijunKagaku ++ ws ++ (d :: num) ++ b ++ s) p cp)
             = Some (Some (d :: num))).
  { intros p cp. rewrite m_Seq, m_Lit. apply H2. }
  unfold ogMatch_re, ogContent. cbn [Cat]. fold R3. fold R2.
  rewrite (app_assoc $"content=" [quote]).
  rewrite m_Seq, m_Lit, m_Seq, m_Star. cbn [rest pos cap].
  change (kijunKagaku ++ ws ++ (d :: num) ++ b ++ s)
    with (22522%N :: [28310; 20385; 38989]%N ++ ws ++ (d :: num) ++ b ++ s)
    in *.
  change (Lit kijunKagaku)
    with (Lit (22522%N :: [28310; 20385; 38989]%N)) in *.
  replace ([28310; 20385; 38989]%N ++ ws ++ (d :: num) ++ b ++ s)
    with (([28310; 20385; 38989]%N ++ ws ++ (d :: num) ++ b) ++ s) in *
    by (rewrite <- !app_assoc; reflexivity).
  rewrite star_find_last.
  - apply HL.
  - reflexivity.
  - rewrite !forallb_app. cbn [forallb].
    rewrite (forallb_impl _ _ _ Hsq Hws), (Hdq _ Hd),
      (forallb_impl _ _ _ Hdq Hnum), Hb. reflexivity.
  - apply forallb_not_In. rewrite !forallb_app. cbn [forallb].
    rewrite (forallb_impl _ _ _ space_not_ki Hws), (dc_not_ki _ Hd),
      (forallb_impl _ _ _ dc_not_ki Hnum), Hbk. reflexivity.
  - exact Hs.
  - exact Ha.
  - intros n'. rewrite HL. discriminate.
Qed.

(** Pattern 5. *)
Lemma m_dataAttribute (name g post : str) (n : nat) :
  name = $"price" \/ name = $"value" -> numberText g = true ->
  m dataMatch_re accept (MState (dataAttribute name g post) n None)
  = Some (Some g).
Proof.
  intros Hname Hg.
  destruct (numberText_inv g Hg) as (d & num & -> & Hd & Hnum).
  set (R3 := Seq (Lit [quote]) Eps).
  set (R2 := Seq (Group (Plus digit_or_comma)) R3).
  set (R1 := Seq (Lit ($"=" ++ [quote])) R2).
  assert (H3 : forall p cp,
             m R3 accept (MState ([quote] ++ post) p cp) = Some cp).
  { intros p cp. unfold R3. rewrite m_Seq, m_Lit. reflexivity. }
  assert (H2 : forall p cp,
             m R2 accept (MState ((d :: num) ++ [quote] ++ post) p cp)
             = Some (Some (d :: num))).
  { intros p cp. unfold R2. rewrite m_Seq.
    rewrite m_Group_Plus;
      [apply H3|exact Hd|exact Hnum|reflexivity|].
    rewrite H3. discriminate. }
  assert (H1 : forall p cp,
             m R1 accept
               (MState (($"=" ++ [quote]) ++ (d :: num) ++ [quote] ++ post)
                  p cp)
             = Some (Some (d :: num))).
  { intros p cp. unfold R1. rewrite m_Seq, m_Lit. apply H2. }
  unfold dataMatch_re, dataAttribute. cbn [Cat]. fold R3. fold R2. fold R1.
  rewrite m_Seq, m_Lit, m_Seq.
  change ($"=" ++ [quote] ++ (d :: num) ++ [quote] ++ post)
    with (($"=" ++ [quote]) ++ (d :: num) ++ [quote] ++ post).
  destruct Hname as [->| ->].
  - cbn [m]. rewrite m_Lit, H1. reflexivity.
  - cbn [m].
    replace (m (Lit $"price") (m R1 accept)
               (MState ($"value" ++ ($"=" ++ [quote]) ++ (d :: num)
                          ++ [quote] ++ post) (length $"data-" + n) None))
      with (@None (option str)) by reflexivity.
    rewrite m_Lit, H1. reflexivity.
Qed.

(** Pattern 3. *)
Lemma m_labelledText (gap g ws post : str) (n : nat) :
  forallb (cls_not digit) gap = true -> numberText g = true ->
  stopsAt (cls_not digit) g = true -> forallb space ws = true ->
  m priceMatch3_re accept (MState (labelled gap g ws post) n None)
  = Some (Some g).
Proof.
  intros Hgap Hg Hd Hws.
  destruct (numberText_inv g Hg) as (d & num & -> & _ & Hnum).
  cbn [stopsAt] in Hd. unfold cls_not in Hd.
  apply negb_true_iff, negb_false_iff in Hd.
  unfold labelled. apply m_labelled; assumption.
Qed.

End PatternFacts.

(* ------------------------------------------------------------------ *)
(** * NAV Extractor: the cascade *)

Section CascadeFacts.

Import Js Regex StockApi Spec.

Lemma patternValue_iff (html : str) (r : re) (v : Q) :
  patternValue html r = Some v <->
  exists g,
    exec r html = Some (Some g) /\ g <> []
    /\ parseFloat (stripCommas g) = Some v /\ 0 < v.
Proof.
  unfold patternValue, matchValue. split.
  - destruct (exec r html) as [[[|c g]|]|]; try discriminate.
    destruct (parseFloat (stripCommas (c :: g))) as [x|] eqn:Ep;
      [|discriminate].
    destruct (Num.gtb x 0) eqn:E; [|discriminate].
    intros H; injection H as <-. exists (c :: g).
    split; [reflexivity|]. split; [discriminate|].
    split; [exact Ep|apply gtb_pos, E].
  - intros (g & -> & Hg & Hp & Hv). destruct g as [|c g]; [contradiction|].
    rewrite Hp. apply gtb_pos in Hv. rewrite Hv. reflexivity.
Qed.

Lemma firstSome_first (A : Type) (pre post : list (option A)) (v : A) :
  (forall o, In o pre -> o = None) ->
  firstSome (pre ++ Some v :: post) = Some v.
Proof.
  induction pre as [|o pre IH]; intros H; [reflexivity|].
  rewrite (H o (or_introl eq_refl)). cbn [app firstSome].
  apply IH. intros o' Ho'. apply H. right. exact Ho'.
Qed.

(** The first pattern that yields a value decides. *)
Lemma extractNAV_first (html : str) (before after : list re) (r : re)
  (v : Q) :
  navPatterns = before ++ r :: after ->
  (forall r', In r' before -> patternValue html r' = None) ->
  patternValue html r = Some v ->
  extractNAV html = Some v.
Proof.
  intros Hp Hb Hr. rewrite extractNAV_firstSome, Hp, map_app.
  cbn [map]. rewrite Hr. apply firstSome_first.
  intros o Ho. apply in_map_iff in Ho. destruct Ho as (r' & <- & Hr').
  apply Hb, Hr'.
Qed.

Lemma stripCommas_no_comma (g : str) : ~ In 44%N (stripCommas g).
Proof.
  unfold stripCommas. intros H. apply filter_In in H. destruct H as [_ H].
  discriminate H.
Qed.

Lemma exec_styledSpan (pre a b c g post : str) :
  absentBefore ($"class=" ++ [quote]) pre (styledSpan a b c g post) = true ->
  forallb noQuote a = true -> forallb noQuote b = true ->
  forallb (cls_not (is_char 83)) b = true ->
  forallb noGt c = true -> numberText g = true ->
  exec priceMatch_re (pre ++ styledSpan a b c g post) = Some (Some g).
Proof.
  intros Hpre Ha Hb HbS Hc Hg. unfold priceMatch_re. cbn [Cat].
  apply exec_at; [exact Hpre|]. intros n.
  exact (@m_styledSpan a b c g post n Ha Hb HbS Hc Hg).
Qed.

Lemma exec_yenSpan (pre attrs g ws post : str) :
  absentBefore $"<span" pre (yenSpan attrs g ws post) = true ->
  forallb noGt attrs = true -> numberText g = true ->
  forallb space ws = true ->
  exec priceMatch2_re (pre ++ yenSpan attrs g ws post) = Some (Some g).
Proof.
  intros Hpre Hat Hg Hws. unfold priceMatch2_re. cbn [Cat].
  apply exec_at; [exact Hpre|]. intros n.
  exact (@m_yenSpan attrs g ws post n Hat Hg Hws).
Qed.

Lemma exec_labelledText (pre gap g ws post : str) :
  absentBefore kijunKagaku pre (labelled gap g ws post) = true ->
  forallb (cls_not digit) gap = true -> numberText g = true ->
  stopsAt (cls_not digit) g = true -> forallb space ws = true ->
  exec priceMatch3_re (pre ++ labelled gap g ws post) = Some (Some g).
Proof.
  intros Hpre Hgap Hg Hd Hws. unfold priceMatch3_re. cbn [Cat].
  apply exec_at; [exact Hpre|]. intros n.
  exact (@m_labelledText gap g ws post n Hgap Hg Hd Hws).
Qed.

Lemma exec_ogContent (pre a ws g b s : str) :
  absentBefore ($"content=" ++ [quote]) pre (ogContent a ws g (b ++ s))
  = true ->
  forallb noQuote a = true -> forallb space ws = true ->
  numberText g = true ->
  forallb noQuote b = true -> forallb (cls_not (is_char 22522)) b = true ->
  stopsAt digit_or_comma (b ++ s) = true -> stopsAt noQuote s = true ->
  exec ogMatch_re (pre ++ ogContent a ws g (b ++ s)) = Some (Some g).
Proof.
  intros Hpre Ha Hws Hg Hb Hbk Hstop Hs. unfold ogMatch_re. cbn [Cat].
  apply exec_at; [exact Hpre|]. intros n.
  exact (@m_ogContent a ws g b s n Ha Hws Hg Hb Hbk Hstop Hs).
Qed.

Lemma exec_dataAttribute (pre name g post : str) :
  absentBefore $"data-" pre (dataAttribute name g post) = true ->
  name = $"price" \/ name = $"value" -> numberText g = true ->
  exec dataMatch_re (pre ++ dataAttribute name g post) = Some (Some g).
Proof.
  intros Hpre Hname Hg. unfold dataMatch_re. cbn [Cat].
  apply exec_at; [exact Hpre|]. intros n.
  exact (@m_dataAttribute name g post n Hname Hg).
Qed.

(** ** What a match must read *)

Lemma star_reads (A : Type) (p : cls) (K : cont A) (a : A) :
  forall s n c,
    star p K s n c = Some a ->
    exists st' read, K st' = Some a /\ s = read ++ rest st'.
Proof.
  induction s as [|x s IH]; intros n c H; cbn [star] in H.
  - exists (MState [] n c), []. split; [exact H|reflexivity].
  - destruct (p x).
    + destruct (star p K s (S n) c) as [a'|] eqn:E.
      * injection H as ->. destruct (IH _ _ E) as (st' & read & HK & ->).
        exists st', (x :: read). split; [exact HK|reflexivity].
      * exists (MState (x :: s) n c), []. split; [exact H|reflexivity].
    + exists (MState (x :: s) n c), []. split; [exact H|reflexivity].
Qed.

Lemma m_reads (k : char) (r : re) :
  forall (A : Type) (K : cont A) (st : mstate) (a : A),
    m r K st = Some a ->
    exists st' read,
      K st' = Some a /\ rest st = read ++ rest st'
      /\ (needs k r -> In k read).
Proof.
  induction r as [|p|r1 IH1 r2 IH2|r1 IH1 r2 IH2|p|r1 IH1| |];
    intros A K st a H; cbn [m] in H.
  - exists st, []. split; [exact H|]. split; [reflexivity|intros []].
  - destruct (rest st) as [|x s'] eqn:E; [discriminate|].
    destruct (p x) eqn:Ep; [|discriminate].
    exists (MState s' (S (pos st)) (cap st)), [x].
    split; [exact H|]. split; [reflexivity|].
    intros Hn. left. apply Hn, Ep.
  - destruct (IH1 _ _ _ _ H) as (st1 & read1 & H1 & E1 & N1).
    destruct (IH2 _ _ _ _ H1) as (st2 & read2 & H2 & E2 & N2).
    exists st2, (read1 ++ read2). split; [exact H2|].
    split; [rewrite E1, E2, app_assoc; reflexivity|].
    intros [Hn|Hn]; apply in_or_app; [left; apply N1, Hn|right; apply N2, Hn].
  - destruct (m r1 K st) as [a'|] eqn:E.
    + injection H as ->.
      destruct (IH1 _ _ _ _ E) as (st1 & read1 & H1 & E1 & N1).
      exists st1, read1. split; [exact H1|]. split; [exact E1|].
      intros [Hn _]. apply N1, Hn.
    + destruct (IH2 _ _ _ _ H) as (st2 & read2 & H2 & E2 & N2).
      exists st2, read2. split; [exact H2|]. split; [exact E2|].
      intros [_ Hn]. apply N2, Hn.
  - destruct (@star_reads _ _ _ _ _ _ _ H) as (st' & read & HK & E).
    exists st', read. split; [exact HK|]. split; [exact E|intros []].
  - destruct (IH1 _ _ _ _ H) as (st1 & read1 & H1 & E1 & N1).
    exists (MState (rest st1) (pos st1)
              (Some (firstn (pos st1 - pos st) (rest st)))), read1.
    split; [exact H1|]. split; [exact E1|exact N1].
  - destruct (Nat.eqb (pos st) 0); [|discriminate].
    exists st, []. split; [exact H|]. split; [reflexivity|intros []].
  - destruct (rest st) as [|x s'] eqn:E; [|discriminate].
    exists st, []. split; [exact H|]. split; [rewrite E; reflexivity|intros []].
Qed.

Lemma search_needs (k : char) (r : re) :
  needs k r ->
  forall s n, ~ In k s -> search r s n = None.
Proof.
  intros Hn. induction s as [|x s IH]; intros n Hk; cbn [search].
  - destruct (m r accept (MState [] n None)) as [a|] eqn:E; [|reflexivity].
    destruct (@m_reads k r _ _ _ _ E) as (st' & read & _ & Er & N).
    exfalso. apply Hk. cbn [rest] in Er. rewrite Er.
    apply in_or_app. left. apply N, Hn.
  - destruct (m r accept (MState (x :: s) n None)) as [a|] eqn:E.
    + destruct (@m_reads k r _ _ _ _ E) as (st' & read & _ & Er & N).
      exfalso. apply Hk. cbn [rest] in Er. rewrite Er.
      apply in_or_app. left. apply N, Hn.
    + apply IH. intros H. apply Hk. right. exact H.
Qed.

Lemma needs_Lit (k : char) (l : str) : In k l -> needs k (Lit l).
Proof.
  induction l as [|x l IH]; intros H; [destruct H|].
  cbn [Lit needs]. destruct H as [->|H].
  - left. intros c Hc. apply N.eqb_eq, Hc.
  - right. apply IH, H.
Qed.

Lemma needs_Cat (k : char) (r : re) (rs : list re) :
  In r rs -> needs k r -> needs k (Cat rs).
Proof.
  induction rs as [|r' rs IH]; intros H Hn; [destruct H|].
  cbn [Cat needs]. destruct H as [->|H]; [left; exact Hn|right; auto].
Qed.

Lemma needs_literals (k : char) (lits : list str) (rs : list re) :
  (forall l, In l lits -> In (Lit l) rs) ->
  In k (concat lits) -> needs k (Cat rs).
Proof.
  intros H Hk. apply in_concat in Hk. destruct Hk as (l & Hl & Hkl).
  apply needs_Cat with (r := Lit l); [apply H, Hl|apply needs_Lit, Hkl].
Qed.

(** No pattern matches a document that lacks a code unit of one of its
    literals. *)
Lemma patterns_need_their_literals (html : str) (k : char) :
  ~ In k html ->
  (In k styledSpanLiterals -> exec priceMatch_re html = None)
  /\ (In k yenSpanLiterals -> exec priceMatch2_re html = None)
  /\ (In k labelledLiterals -> exec priceMatch3_re html = None)
  /\ (In k ogContentLiterals -> exec ogMatch_re html = None)
  /\ (In k dataAttributeLiterals -> exec dataMatch_re html = None).
Proof.
  intros Hk. split; [|split; [|split; [|split]]]; intros Hin;
    apply search_needs with (k := k); try exact Hk.
  - apply needs_literals
      with (lits := [$"class=" ++ [quote]; $"StyledNumber"; $">";
                     $"</span>"]).
    + intros l Hl. cbn [In] in Hl.
      repeat (destruct Hl as [<-|Hl];
              [cbn [In]; repeat (first [left; reflexivity|right])|]).
      destruct Hl.
    + cbn [concat]. rewrite !app_nil_r. revert Hin.
      unfold styledSpanLiterals. rewrite !in_app_iff. cbn [In].
      intuition.
  - apply needs_literals
      with (lits := [$"<span"; $">"; $"</span>"; yen]).
    + intros l Hl. cbn [In] in Hl.
      repeat (destruct Hl as [<-|Hl];
              [cbn [In]; repeat (first [left; reflexivity|right])|]).
      destruct Hl.
    + cbn [concat]. rewrite !app_nil_r. revert Hin.
      unfold yenSpanLiterals. rewrite !in_app_iff. cbn [In].
      intuition.
  - apply needs_literals with (lits := [kijunKagaku; yen]).
    + intros l Hl. cbn [In] in Hl.
      repeat (destruct Hl as [<-|Hl];
              [cbn [In]; repeat (first [left; reflexivity|right])|]).
      destruct Hl.
    + cbn [concat]. rewrite !app_nil_r. exact Hin.
  - apply needs_literals
      with (lits := [$"content=" ++ [quote]; kijunKagaku]).
    + intros l Hl. cbn [In] in Hl.
      repeat (destruct Hl as [<-|Hl];
              [cbn [In]; repeat (first [left; reflexivity|right])|]).
      destruct Hl.
    + cbn [concat]. rewrite !app_nil_r. revert Hin.
      unfold ogContentLiterals. rewrite !in_app_iff. cbn [In].
      intuition.
  - apply needs_literals
      with (lits := [$"data-"; $"=" ++ [quote]; [quote]]).
    + intros l Hl. cbn [In] in Hl.
      repeat (destruct Hl as [<-|Hl];
              [cbn [In]; repeat (first [left; reflexivity|right])|]).
      destruct Hl.
    + cbn [concat]. rewrite !app_nil_r. revert Hin.
      unfold dataAttributeLiterals. rewrite !in_app_iff. cbn [In].
      intuition.
Qed.

(** The labelled text decides when the two patterns before it yield
    nothing. *)
Lemma extractNAV_labelled (pre gap g ws post : str) (v : Q) :
  let html := pre ++ labelled gap g ws post in
  patternValue html priceMatch_re = None ->
  patternValue html priceMatch2_re = None ->
  absentBefore kijunKagaku pre (labelled gap g ws post) = true ->
  forallb (cls_not digit) gap = true -> numberText g = true ->
  stopsAt (cls_not digit) g = true -> forallb space ws = true ->
  parseFloat (stripCommas g) = Some v -> 0 < v ->
  extractNAV html = Some v.
Proof.
  intros html H1 H2 Hpre Hgap Hg Hd Hws Hv Hpos.
  apply (@extractNAV_first html [priceMatch_re; priceMatch2_re]
           [ogMatch_re; dataMatch_re] priceMatch3_re v).
  - reflexivity.
  - intros r' [<-|[<-|[]]]; assumption.
  - apply patternValue_iff. exists g.
    split; [apply exec_labelledText; assumption|].
    split; [destruct g; [discriminate Hg|discriminate]|].
    split; assumption.
Qed.

(** C3, as the code has it.  The extractor's answer is the value of the
    first of its five patterns, taken in the order styled-number span,
    yen-suffixed span, labelled number, og:description, data attribute,
    that yields a value; a pattern yields a value when its leftmost match
    captured a number whose text, the commas removed, parses to a strictly
    positive number; so an answer is always strictly positive and, when no
    pattern yields a value, the answer is not-found.  Each pattern matches
    the text it is written for, at the first place where its opening
    literal begins, and captures the number; none matches a document that
    lacks a code unit of one of its literals.  On a document that
    contains 基準価額, a gap without digits, a comma-grouped number,
    optional white space and 円, the answer is that number provided the
    two patterns before the labelled one yield nothing and the label does
    not begin earlier; the text [基準価額 12,345 円], alone or in a
    paragraph of a page, gives 12345. *)
Theorem extractNAV_cascade :
  (forall html,
      extractNAV html
      = firstSome
          (map (patternValue html)
             [priceMatch_re; priceMatch2_re; priceMatch3_re; ogMatch_re;
              dataMatch_re]))
  /\ (forall html r v,
        patternValue html r = Some v <->
        exists g,
          exec r html = Some (Some g) /\ g <> []
          /\ parseFloat (stripCommas g) = Some v /\ 0 < v)
  /\ (forall g, ~ In 44%N (stripCommas g))
  /\ (forall html before r after v,
        navPatterns = before ++ r :: after ->
        (forall r', In r' before -> patternValue html r' = None) ->
        patternValue html r = Some v ->
        extractNAV html = Some v)
  /\ (forall html v, extractNAV html = Some v -> 0 < v)
  /\ (forall html,
        extractNAV html = None <->
        (forall r, In r navPatterns -> patternValue html r = None))
  /\ (forall pre a b c g post,
        absentBefore ($"class=" ++ [quote]) pre (styledSpan a b c g post)
        = true ->
        forallb noQuote a = true -> forallb noQuote b = true ->
        forallb (cls_not (is_char 83)) b = true ->
        forallb noGt c = true -> numberText g = true ->
        exec priceMatch_re (pre ++ styledSpan a b c g post)
        = Some (Some g))
  /\ (forall pre attrs g ws post,
        absentBefore $"<span" pre (yenSpan attrs g ws post) = true ->
        forallb noGt attrs = true -> numberText g = true ->
        forallb space ws = true ->
        exec priceMatch2_re (pre ++ yenSpan attrs g ws post)
        = Some (Some g))
  /\ (forall pre gap g ws post,
        absentBefore kijunKagaku pre (labelled gap g ws post) = true ->
        forallb (cls_not digit) gap = true -> numberText g = true ->
        stopsAt (cls_not digit) g = true -> forallb space ws = true ->
        exec priceMatch3_re (pre ++ labelled gap g ws post)
        = Some (Some g))
  /\ (forall pre a ws g b s,
        absentBefore ($"content=" ++ [quote]) pre
          (ogContent a ws g (b ++ s)) = true ->
        forallb noQuote a = true -> forallb space ws = true ->
        numberText g = true ->
        forallb noQuote b = true ->
        forallb (cls_not (is_char 22522)) b = true ->
        stopsAt digit_or_comma (b ++ s) = true ->
        stopsAt noQuote s = true ->
        exec ogMatch_re (pre ++ ogContent a ws g (b ++ s))
        = Some (Some g))
  /\ (forall pre name g post,
        absentBefore $"data-" pre (dataAttribute name g post) = true ->
        name = $"price" \/ name = $"value" -> numberText g = true ->
        exec dataMatch_re (pre ++ dataAttribute name g post)
        = Some (Some g))
  /\ (forall html k,
        ~ In k html ->
        (In k styledSpanLiterals -> exec priceMatch_re html = None)
        /\ (In k yenSpanLiterals -> exec priceMatch2_re html = None)
        /\ (In k labelledLiterals -> exec priceMatch3_re html = None)
        /\ (In k ogContentLiterals -> exec ogMatch_re html = None)
        /\ (In k dataAttributeLiterals -> exec dataMatch_re html = None))
  /\ (forall pre gap g ws post v,
        let html := pre ++ labelled gap g ws post in
        patternValue html priceMatch_re = None ->
        patternValue html priceMatch2_re = None ->
        absentBefore kijunKagaku pre (labelled gap g ws post) = true ->
        forallb (cls_not digit) gap = true -> numberText g = true ->
        stopsAt (cls_not digit) g = true -> forallb space ws = true ->
        parseFloat (stripCommas g) = Some v -> 0 < v ->
        extractNAV html = Some v)
  /\ extractNAV labelledNavText = Some 12345
  /\ extractNAV labelledPage = Some 12345.
Proof.
  split; [exact extractNAV_firstSome|].
  split; [exact patternValue_iff|].
  split; [exact stripCommas_no_comma|].
  split.
  { intros html before r after v. apply extractNAV_first. }
  split.
  { intros html v. rewrite extractNAV_firstSome. intros H.
    apply firstSome_In, in_map_iff in H. destruct H as (r & Hr & _).
    exact (matchValue_pos _ Hr). }
  split.
  { intros html. rewrite extractNAV_firstSome, firstSome_None. split.
    - intros H r Hr. apply H, in_map, Hr.
    - intros H o Ho. apply in_map_iff in Ho. destruct Ho as (r & <- & Hr).
      exact (H r Hr). }
  split; [exact exec_styledSpan|].
  split; [exact exec_yenSpan|].
  split; [exact exec_labelledText|].
  split; [exact exec_ogContent|].
  split; [exact exec_dataAttribute|].
  split; [exact patterns_need_their_literals|].
  split; [exact extractNAV_labelled|].
  split; vm_compute; reflexivity.
Qed.

Lemma extractNAV_cascade_witness :
  extractNAV labelledPage = Some 12345
  /\ exec dataMatch_re
       ($"<td " ++ dataAttribute $"value" $"9,870" $"></td>")
     = Some (Some $"9,870").
Proof.
  destruct extractNAV_cascade
    as (_ & _ & _ & _ & _ & _ & _ & _ & _ & _ & H5 & _ & H & _).
  split.
  - apply (H ($"<html><body><div id=" ++ [quote] ++ $"nav" ++ [quote]
                ++ $"><p>")
             $": " $"12,345" $" " $"</p></div></body></html>" 12345);
      vm_compute; reflexivity.
  - apply (H5 $"<td " $"value" $"9,870" $"></td>");
      [vm_compute; reflexivity|right; reflexivity|reflexivity].
Defined.

(** C3, as stated, fails in its last part: a document can contain the
    text [基準価額 12,345 円] and yield another value, because a pattern
    that comes earlier in the cascade matches elsewhere. *)
Lemma shaped_text_does_not_decide :
  ~ (forall pre post,
        extractNAV (pre ++ labelledNavText ++ post) = Some 12345).
Proof.
  intros H.
  specialize (H ($"<span class=" ++ [quote] ++ $"_StyledNumber_" ++ [quote]
                   ++ $">9,876</span>") []).
  vm_compute in H. discriminate H.
Qed.

End CascadeFacts.
